(** * htcap probe: the in-page interaction scheduler and page analyser

    A shallow embedding of [core/crawl/probe/src/probe.js]: the
    [EventLoopManager] scheduler, the [Request] and [PageEvent] models and
    the [Probe] element analyser, together with the properties the
    specification states about them.

    Conventions of the embedding.
    - JavaScript strings are [string]s of bytes (the UTF-8 form of the
      text); everything the probe itself inspects is ASCII.
    - JavaScript numbers that the probe computes are integers or NaN:
      [option Z], with [None] for NaN.
    - Objects compared with [===] or searched with [indexOf] (DOM nodes,
      [PageEvent]s, XHR objects) carry an identity.
    - What the browser provides ([URL], regular expressions, selector
      matching, the DOM content) is a parameter of the development.
    - The elements of a page are HTML elements, with a string as
      [className]; an SVG element has an object there, on which
      [_elementToString] throws, and is not part of the embedding.  Of
      an element the embedding keeps the properties listed in
      [Element.t], and [setAttribute] changes the list of attributes.
    - The body of a request is a string or absent.
    - The calls of the console ([_logger]) leave no trace in the
      embedding. *)

From Stdlib Require Import ZArith String Ascii List Bool Lia DecimalString.
From stdpp Require Import base option list strings gmap.

Open Scope string_scope.
Open Scope Z_scope.

(** ** JavaScript primitives used by the probe *)

Module JS.

(** A thrown exception: every failure in the probe is a [TypeError]. *)
Inductive Error := TypeError (message : string).

Inductive result (A : Type) :=
| Ok (a : A)
| Throw (e : Error).
Arguments Ok {A} a.
Arguments Throw {A} e.

Definition bind {A B} (r : result A) (k : A -> result B) : result B :=
  match r with
  | Ok a => k a
  | Throw e => Throw e
  end.

(** [String.prototype.startsWith], also the meaning of a [^literal] regexp. *)
Definition startsWith (s p : string) : bool := String.prefix p s.

Definition lower_ascii (c : ascii) : ascii :=
  let n := nat_of_ascii c in
  if ((65 <=? n) && (n <=? 90))%nat then ascii_of_nat (n + 32) else c.

Definition upper_ascii (c : ascii) : ascii :=
  let n := nat_of_ascii c in
  if ((97 <=? n) && (n <=? 122))%nat then ascii_of_nat (n - 32) else c.

Fixpoint map_string (f : ascii -> ascii) (s : string) : string :=
  match s with
  | EmptyString => EmptyString
  | String c r => String (f c) (map_string f r)
  end.

Definition toLowerCase (s : string) : string := map_string lower_ascii s.
Definition toUpperCase (s : string) : string := map_string upper_ascii s.

(** A string is truthy when it is not empty. *)
Definition truthy (s : string) : bool :=
  match s with
  | EmptyString => false
  | _ => true
  end.

Fixpoint contains_char (c : ascii) (s : string) : bool :=
  match s with
  | EmptyString => false
  | String d r => Ascii.eqb c d || contains_char c r
  end.

(** [Array.prototype.join]. *)
Fixpoint join (sep : string) (l : list string) : string :=
  match l with
  | [] => EmptyString
  | [x] => x
  | x :: r => x +:+ sep +:+ join sep r
  end.

(** *** Numbers *)

(** A number: an integer, or NaN. *)
Definition Number := option Z.

Definition NaN : Number := None.

Definition add (a b : Number) : Number :=
  match a, b with
  | Some x, Some y => Some (x + y)
  | _, _ => None
  end.

Definition Number_toString (n : Number) : string :=
  match n with
  | None => "NaN"
  | Some z => NilZero.string_of_int (Z.to_int z)
  end.

Definition is_whitespace (c : ascii) : bool :=
  let n := nat_of_ascii c in
  ((9 <=? n) && (n <=? 13) || (n =? 32))%nat.

Fixpoint trimStart (s : string) : string :=
  match s with
  | String c r => if is_whitespace c then trimStart r else s
  | EmptyString => EmptyString
  end.

Definition digit_value (c : ascii) : option Z :=
  let n := nat_of_ascii c in
  if ((48 <=? n) && (n <=? 57))%nat then Some (Z.of_nat (n - 48))
  else if ((97 <=? n) && (n <=? 102))%nat then Some (Z.of_nat (n - 87))
  else if ((65 <=? n) && (n <=? 70))%nat then Some (Z.of_nat (n - 55))
  else None.

(** The longest prefix of [s] made of digits of the radix, read as a
    number; [seen] tells whether a digit was read so far. *)
Fixpoint parse_digits (radix : Z) (s : string) (seen : bool) (acc : Z) : Number :=
  match s with
  | EmptyString => if seen then Some acc else None
  | String c r =>
      match digit_value c with
      | Some d =>
          if d <? radix then parse_digits radix r true (acc * radix + d)
          else if seen then Some acc else None
      | None => if seen then Some acc else None
      end
  end.

Definition parse_unsigned (s : string) : Number :=
  match s with
  | String "0" (String "x" r) => parse_digits 16 r false 0
  | String "0" (String "X" r) => parse_digits 16 r false 0
  | _ => parse_digits 10 s false 0
  end.

(** [parseInt(s)] with no radix. *)
Definition parseInt (s : string) : Number :=
  match trimStart s with
  | String "-" r => option_map Z.opp (parse_unsigned r)
  | String "+" r => parse_unsigned r
  | t => parse_unsigned t
  end.

(** *** [encodeURIComponent] *)

Definition hex_digit (n : nat) : ascii :=
  if (n <? 10)%nat then ascii_of_nat (48 + n) else ascii_of_nat (55 + n).

Definition percent_encode_byte (c : ascii) : string :=
  let n := nat_of_ascii c in
  String "%" (String (hex_digit (n / 16)) (String (hex_digit (n mod 16)) EmptyString)).

Definition is_alphanumeric (c : ascii) : bool :=
  let n := nat_of_ascii c in
  ((48 <=? n) && (n <=? 57) || (65 <=? n) && (n <=? 90) || (97 <=? n) && (n <=? 122))%nat.

(** The characters [encodeURIComponent] leaves alone. *)
Definition is_uri_unreserved (c : ascii) : bool :=
  is_alphanumeric c || contains_char c "-_.!~*'()".

Fixpoint encodeURIComponent (s : string) : string :=
  match s with
  | EmptyString => EmptyString
  | String c r =>
      (if is_uri_unreserved c then String c EmptyString else percent_encode_byte c)
        +:+ encodeURIComponent r
  end.

(** *** [JSON.stringify] of a string *)

Definition json_escape_char (c : ascii) : string :=
  let n := nat_of_ascii c in
  if (n =? 34)%nat then "\" +:+ String c EmptyString
  else if (n =? 92)%nat then "\\"
  else if (n =? 8)%nat then "\b"
  else if (n =? 9)%nat then "\t"
  else if (n =? 10)%nat then "\n"
  else if (n =? 12)%nat then "\f"
  else if (n =? 13)%nat then "\r"
  else if (n <? 32)%nat then
    "\u00" +:+ String (lower_ascii (hex_digit (n / 16)))
                      (String (lower_ascii (hex_digit (n mod 16))) EmptyString)
  else String c EmptyString.

Fixpoint json_escape (s : string) : string :=
  match s with
  | EmptyString => EmptyString
  | String c r => json_escape_char c +:+ json_escape r
  end.

Definition dquote : string := String (ascii_of_nat 34) EmptyString.

Definition json_string (s : string) : string := dquote +:+ json_escape s +:+ dquote.

End JS.

(** ** The browser's [URL] objects

    A parsed URL is kept by its components; [href] is their
    serialisation.  Parsing itself ([new URL(url, base)]) is the
    browser's and is a parameter below. *)

Module URL.

Record t := {
  scheme : string;            (* without the colon *)
  body : string;              (* what follows "scheme:" up to the query: authority and path *)
  query : option string;      (* without the question mark; None when there is none *)
  fragment : option string    (* without the hash sign; None when there is none *)
}.

Definition protocol (u : t) : string := scheme u +:+ ":".

Definition query_part (u : t) : string :=
  match query u with
  | Some q => "?" +:+ q
  | None => EmptyString
  end.

Definition fragment_part (u : t) : string :=
  match fragment u with
  | Some f => "#" +:+ f
  | None => EmptyString
  end.

Definition href (u : t) : string :=
  protocol u +:+ body u +:+ query_part u +:+ fragment_part u.

(** The [search] getter: empty when the query is missing or empty. *)
Definition search (u : t) : string :=
  match query u with
  | Some q => if JS.truthy q then "?" +:+ q else EmptyString
  | None => EmptyString
  end.

(** The [hash] getter. *)
Definition hash (u : t) : string :=
  match fragment u with
  | Some f => if JS.truthy f then "#" +:+ f else EmptyString
  | None => EmptyString
  end.

Definition is_special (s : string) : bool :=
  bool_decide (s ∈ ["http"; "https"; "ftp"; "ws"; "wss"; "file"]).

(** The bytes the query state of the URL parser percent-encodes. *)
Definition in_query_encode_set (special : bool) (c : ascii) : bool :=
  let n := nat_of_ascii c in
  ((n <=? 32) || (126 <? n) || (n =? 34) || (n =? 35) || (n =? 60) || (n =? 62)
   || (special && (n =? 39)))%nat.

Definition is_tab_or_newline (c : ascii) : bool :=
  let n := nat_of_ascii c in
  ((n =? 9) || (n =? 10) || (n =? 13))%nat.

Fixpoint encode_query (special : bool) (s : string) : string :=
  match s with
  | EmptyString => EmptyString
  | String c r =>
      if is_tab_or_newline c then encode_query special r
      else (if in_query_encode_set special c then JS.percent_encode_byte c
            else String c EmptyString) +:+ encode_query special r
  end.

(** The [search] setter, [u.search = v]. *)
Definition set_search (v : string) (u : t) : t :=
  match v with
  | EmptyString =>
      {| scheme := scheme u; body := body u; query := None; fragment := fragment u |}
  | _ =>
      let input := match v with String "?" r => r | _ => v end in
      {| scheme := scheme u; body := body u;
         query := Some (encode_query (is_special (scheme u)) input);
         fragment := fragment u |}
  end.

(** The [hash] setter at the empty string, [u.hash = '']: the fragment is dropped. *)
Definition clear_hash (u : t) : t :=
  {| scheme := scheme u; body := body u; query := query u; fragment := None |}.

(** What every parsed URL satisfies: the scheme holds no colon, and a
    hash sign can only start the fragment. *)
Definition wf (u : t) : bool :=
  negb (JS.contains_char ":" (scheme u))
  && negb (JS.contains_char "#" (scheme u))
  && negb (JS.contains_char "#" (body u))
  && negb (JS.contains_char "#" (query_part u)).

End URL.

(** ** What the page and the browser provide *)

(** The browser functions the probe calls. *)
Record Browser := {
  (** [new URL(url, base)]; [None] when it throws. *)
  URL_new : string -> string -> option URL.t;
  (** [s.match(new RegExp(pattern, flags))] is not null. *)
  RegExp_match : string -> string -> string -> bool
}.

(** The data of a message event. *)
Module Message.

Record data := {
  from : string;
  name : string;
  url : string      (* only on the messages of the navigation blocker *)
}.

End Message.

(** [constants.eventLoopConfig]. *)
Record EventLoopConfig := {
  messageEvent : Message.data;
  bufferCycleSize : Z;
  afterDoneXHRTimeout : Z;
  afterEventTriggeredTimeout : Z;
  beforeClosingEventLoopManagerTimeout : Z
}.

(** [window.__PROBE_CONSTANTS__]. *)
Record Constants := {
  eventLoopConfig : EventLoopConfig;
  (** pairs of a name pattern and the value category it selects *)
  inputNameMatchValue : list (string * string);
  (** selector, and the events to trigger on the elements it matches *)
  triggerableEvents : list (string * list string);
  mappableEvents : list string
}.

(** The options the probe is started with. *)
Record Options := {
  fillValues : bool;
  triggerEvents : bool;
  inputValues : gmap string string;
  excludedUrls : list string;
  (** whether the hooks keep the timer functions of the window under
      [window.__originalSetTimeout] and [window.__originalSetInterval] *)
  overrideTimeoutFunctions : bool
}.

(** ** DOM nodes *)

(** A reference to an event target; references are compared with [===]. *)
Inductive Node :=
| document
| window
| node (id : nat).

#[global] Instance Node_eq_dec : EqDecision Node.
Proof. solve_decision. Defined.

Definition ELEMENT_NODE : Z := 1.

Module Element.

(** The properties of an element that the probe reads or writes. *)
Record t := {
  tagName : string;
  attributes : list (string * string);   (* getAttribute, hasAttribute, setAttribute *)
  name : string;
  type : string;
  value : string;
  checked : bool;
  min : option string;                   (* None: no [min] property in the object *)
  step : option string;                  (* None: no [step] property in the object *)
  className : string;
  id : string;
  src : string;
  action : string;
  method : string;
  href : string;
  textContent : string;
  on_properties : list string;           (* the on<event> properties holding a handler *)
  descendants : list Node;               (* getElementsByTagName('*'), in document order *)
  selectors : list string                (* the selectors the element matches *)
}.

Definition empty : t := {|
  tagName := EmptyString; attributes := []; name := EmptyString; type := EmptyString;
  value := EmptyString; checked := false; min := None; step := None;
  className := EmptyString; id := EmptyString; src := EmptyString;
  action := EmptyString; method := EmptyString; href := EmptyString;
  textContent := EmptyString; on_properties := []; descendants := []; selectors := [] |}.

(** [element.value = v] *)
Definition set_value (v : string) (e : t) : t := {|
  tagName := tagName e; attributes := attributes e; name := name e; type := type e;
  value := v; checked := checked e; min := min e; step := step e;
  className := className e; id := id e; src := src e; action := action e;
  method := method e; href := href e; textContent := textContent e;
  on_properties := on_properties e; descendants := descendants e;
  selectors := selectors e |}.

Definition set_attributes (a : list (string * string)) (e : t) : t := {|
  tagName := tagName e; attributes := a; name := name e; type := type e;
  value := value e; checked := checked e; min := min e; step := step e;
  className := className e; id := id e; src := src e; action := action e;
  method := method e; href := href e; textContent := textContent e;
  on_properties := on_properties e; descendants := descendants e;
  selectors := selectors e |}.

Fixpoint assoc (k : string) (l : list (string * string)) : option string :=
  match l with
  | [] => None
  | (k', v) :: r => if String.eqb k k' then Some v else assoc k r
  end.

(** [getAttribute]: [None] is [null]. *)
Definition getAttribute (k : string) (e : t) : option string := assoc k (attributes e).

Definition hasAttribute (k : string) (e : t) : bool :=
  match getAttribute k e with
  | Some _ => true
  | None => false
  end.

Fixpoint assoc_set (k v : string) (l : list (string * string)) : list (string * string) :=
  match l with
  | [] => [(k, v)]
  | (k', v') :: r => if String.eqb k k' then (k, v) :: r else (k', v') :: assoc_set k v r
  end.

Definition setAttribute (k v : string) (e : t) : t :=
  set_attributes (assoc_set k v (attributes e)) e.

(** [element.webkitMatchesSelector(selector)] *)
Definition webkitMatchesSelector (selector : string) (e : t) : bool :=
  bool_decide (selector ∈ selectors e).

End Element.

(** The page as the probe sees it. *)
Record Page := {
  location_href : string;                 (* window.location.href, document.location.href *)
  all_elements : list Node;               (* document.getElementsByTagName('*') *)
  elements : gmap nat Element.t           (* the element objects, by reference *)
}.

(** The object behind a reference. *)
Definition element_at (pg : Page) (n : Node) : Element.t :=
  match n with
  | node i => default Element.empty (elements pg !! i)
  | _ => Element.empty
  end.

Definition set_element (n : Node) (e : Element.t) (pg : Page) : Page :=
  match n with
  | node i =>
      {| location_href := location_href pg; all_elements := all_elements pg;
         elements := <[i := e]> (elements pg) |}
  | _ => pg
  end.

(** ** PageEvent *)

Module PageEvent.

(** An element and an event name.  [oid] is the identity of the object:
    every [new PageEvent] yields a fresh one. *)
Record t := {
  oid : nat;
  element : Node;
  eventName : string
}.

(** [PageEvent.EVENT_NAME_TO_EVENT_TYPE]: the event class of each name. *)
Definition EVENT_NAME_TO_EVENT_TYPE : list (string * string) := [
  ("compositionend", "CompositionEvent"); ("compositionstart", "CompositionEvent");
  ("compositionupdate", "CompositionEvent");
  ("drag", "DragEvent"); ("dragend", "DragEvent"); ("dragenter", "DragEvent");
  ("dragleave", "DragEvent"); ("dragover", "DragEvent"); ("dragstart", "DragEvent");
  ("drop", "DragEvent");
  ("hashchange", "HashChangeEvent");
  ("keydown", "KeyboardEvent"); ("keypress", "KeyboardEvent"); ("keyup", "KeyboardEvent");
  ("messageerror", "MessageEvent"); ("message", "MessageEvent");
  ("click", "MouseEvent"); ("dblclick", "MouseEvent"); ("mousedown", "MouseEvent");
  ("mouseenter", "MouseEvent"); ("mouseleave", "MouseEvent"); ("mousemove", "MouseEvent");
  ("mouseout", "MouseEvent"); ("mouseover", "MouseEvent"); ("mouseup", "MouseEvent");
  ("contextmenu", "MouseEvent"); ("show", "MouseEvent");
  ("pagehide", "PageTransitionEvent"); ("pageshow", "PageTransitionEvent");
  ("gotpointercapture", "PointerEvent"); ("lostpointercapture", "PointerEvent");
  ("pointercancel", "PointerEvent"); ("pointerdown", "PointerEvent");
  ("pointerenter", "PointerEvent"); ("pointerleave", "PointerEvent");
  ("pointermove", "PointerEvent"); ("pointerout", "PointerEvent");
  ("pointerover", "PointerEvent"); ("pointerup", "PointerEvent");
  ("popstate", "PopStateEvent");
  ("progress", "ProgressEvent"); ("loadend", "ProgressEvent");
  ("loadstart", "ProgressEvent"); ("timeout", "ProgressEvent");
  ("touchcancel", "TouchEvent"); ("touchend", "TouchEvent"); ("touchmove", "TouchEvent");
  ("touchstart", "TouchEvent");
  ("transitionend", "TransitionEvent");
  ("abort", "UIEvent"); ("error", "UIEvent"); ("load", "UIEvent"); ("resize", "UIEvent");
  ("scroll", "UIEvent"); ("select", "UIEvent"); ("unload", "UIEvent");
  ("wheel", "WheelEvent") ].

(** The names of the properties that the table, a plain object,
    inherits from [Object.prototype]. *)
Definition Object_prototype_names : list string := [
  "constructor"; "hasOwnProperty"; "isPrototypeOf"; "propertyIsEnumerable";
  "toLocaleString"; "toString"; "valueOf";
  "__proto__"; "__defineGetter__"; "__defineSetter__"; "__lookupGetter__"; "__lookupSetter__" ].

(** The class of the event object that [trigger] builds: the class the
    table has for the name, and [Event] when [EVENT_NAME_TO_EVENT_TYPE[name]]
    is undefined.  For a name of [Object.prototype] the value found is
    truthy and is not an event class: [new] of it throws, or (for
    [constructor]) what it builds is refused by [dispatchEvent]. *)
Definition event_type (pe : t) : JS.result string :=
  match Element.assoc (eventName pe) EVENT_NAME_TO_EVENT_TYPE with
  | Some ty => JS.Ok ty
  | None =>
      if bool_decide (eventName pe ∈ Object_prototype_names)
      then JS.Throw (JS.TypeError "not an event class")
      else JS.Ok "Event"
  end.

(** The comparison of [_isPageEventAlreadyTriggered]: every key of [a]
    has the same value in [b]. *)
Definition same_keys (a b : t) : bool :=
  bool_decide (element a = element b) && String.eqb (eventName a) (eventName b).

End PageEvent.

(** ** Rendering an element, [_elementToString] *)

Fixpoint trimEnd (s : string) : string :=
  match s with
  | EmptyString => EmptyString
  | String c r =>
      match trimEnd r with
      | EmptyString => if JS.is_whitespace c then EmptyString else String c EmptyString
      | r' => String c r'
      end
  end.

Definition trim (s : string) : string := trimEnd (JS.trimStart s).

(** [s.replace(/\s/, ' ')]: the first white space becomes a space. *)
Fixpoint replace_first_space (s : string) : string :=
  match s with
  | EmptyString => EmptyString
  | String c r => if JS.is_whitespace c then String " " r else String c (replace_first_space r)
  end.

Definition quoted (s : string) : string := "'" +:+ s +:+ "'".

Definition _elementToString (pg : Page) (element : option Node) : string :=
  match element with
  | None => "[]"
  | Some n =>
      let e := element_at pg n in
      let tagName :=
        if bool_decide (n = document) then "DOCUMENT"
        else if bool_decide (n = window) then "WINDOW"
        else Element.tagName e in
      let className :=
        if JS.truthy (Element.className e) then
          if JS.contains_char " " (Element.className e) then quoted (Element.className e)
          else Element.className e
        else EmptyString in
      let text :=
        if JS.truthy (Element.textContent e) then
          let t := String.substring 0 10 (replace_first_space (trim (Element.textContent e))) in
          if JS.contains_char " " t then quoted t else t
        else EmptyString in
      "[" +:+
      (if JS.truthy tagName then tagName +:+ " " else EmptyString) +:+
      (if JS.truthy (Element.name e) then Element.name e +:+ " " else EmptyString) +:+
      (if JS.truthy className then "." +:+ className +:+ " " else EmptyString) +:+
      (if JS.truthy (Element.id e) then "#" +:+ Element.id e +:+ " " else EmptyString) +:+
      (if JS.truthy (Element.src e) then "src=" +:+ Element.src e +:+ " " else EmptyString) +:+
      (if JS.truthy (Element.action e) then "action=" +:+ Element.action e +:+ " " else EmptyString) +:+
      (if JS.truthy (Element.method e) then "method=" +:+ Element.method e +:+ " " else EmptyString) +:+
      (if JS.truthy (Element.value e) then "value=" +:+ Element.value e +:+ " " else EmptyString) +:+
      (if JS.truthy text then "txt=" +:+ text else EmptyString) +:+
      "]"
  end.

(** ** Request *)

Module Request.

Record t := {
  type : string;
  method : string;
  url : string;
  data : option string;              (* None: null or undefined *)
  triggerer : option PageEvent.t     (* None: undefined *)
}.

(** [xhr.__request.data = d; xhr.__request.triggerer = t] *)
Definition set_data_triggerer (d : option string) (tr : option PageEvent.t) (r : t) : t :=
  {| type := type r; method := method r; url := url r; data := d; triggerer := tr |}.

(** The object [toJSON] returns. *)
Record json := {
  j_type : string;
  j_method : string;
  j_url : string;
  j_data : option string;
  j_trigger : option (string * string)   (* element, event *)
}.

(** [v || null] for an optional string. *)
Definition or_null (v : option string) : option string :=
  match v with
  | Some s => if JS.truthy s then Some s else None
  | None => None
  end.

Definition toJSON (pg : Page) (r : t) : json := {|
  j_type := type r;
  j_method := method r;
  j_url := url r;
  j_data := or_null (data r);
  j_trigger :=
    match triggerer r with
    | Some pe =>
        Some (_elementToString pg (Some (PageEvent.element pe)), PageEvent.eventName pe)
    | None => None
    end |}.

Definition json_value (v : option string) : string :=
  match v with
  | Some s => JS.json_string s
  | None => "null"
  end.

Definition json_member (k v : string) : string := JS.json_string k +:+ ":" +:+ v.

(** [JSON.stringify] of the object of [toJSON]. *)
Definition stringify (o : json) : string :=
  "{" +:+
  JS.join "," (
    [ json_member "type" (JS.json_string (j_type o));
      json_member "method" (JS.json_string (j_method o));
      json_member "url" (JS.json_string (j_url o));
      json_member "data" (json_value (j_data o)) ] ++
    match j_trigger o with
    | Some (el, ev) =>
        [ json_member "trigger"
            ("{" +:+ json_member "element" (JS.json_string el) +:+ "," +:+
             json_member "event" (JS.json_string ev) +:+ "}") ]
    | None => []
    end) +:+
  "}".

(** The [key] getter: [JSON.stringify(this)]. *)
Definition key (pg : Page) (r : t) : string := stringify (toJSON pg r).

End Request.

(** ** URL normalisation and the Request constructor *)

Section Constructor.

Variable browser : Browser.

(** [u.protocol.match(/^(https?:|s?ftp:|javascript:)/)] is not null. *)
Definition protocol_allowed (protocol : string) : bool :=
  JS.startsWith protocol "http:" || JS.startsWith protocol "https:"
  || JS.startsWith protocol "ftp:" || JS.startsWith protocol "sftp:"
  || JS.startsWith protocol "javascript:".

Definition _getAbsoluteUrl (pg : Page) (url : string) (clearHash : bool) : JS.result URL.t :=
  match URL_new browser url (location_href pg) with
  | None => JS.Throw (JS.TypeError "Invalid URL")
  | Some u =>
      if negb (protocol_allowed (URL.protocol u)) then
        JS.Throw (JS.TypeError ("Wrong protocol type: " +:+ URL.protocol u))
      else
        JS.Ok (if clearHash then URL.clear_hash u else u)
  end.

(** [new Request(type, method, urlString, data, triggerer)] *)
Definition Request_new (pg : Page) (type method urlString : string)
    (data : option string) (triggerer : option PageEvent.t) : JS.result Request.t :=
  JS.bind (_getAbsoluteUrl pg urlString true) (fun u =>
    JS.Ok {| Request.type := type;
             Request.method := method;
             Request.data := Request.or_null data;
             Request.triggerer := triggerer;
             Request.url := URL.href u |}).

End Constructor.

(** ** JavaScript arrays *)

Module Array.
Section Ops.

Context {A : Type} `{EqDecision A}.

Definition length (l : list A) : Z := Z.of_nat (List.length l).

Fixpoint indexOf_from (x : A) (l : list A) (i : Z) : Z :=
  match l with
  | [] => -1
  | y :: r => if decide (y = x) then i else indexOf_from x r (i + 1)
  end.

(** [l.indexOf(x)]: the first index of [x], or -1. *)
Definition indexOf (x : A) (l : list A) : Z := indexOf_from x l 0.

Definition push (x : A) (l : list A) : list A := l ++ [x].

(** [l.shift()]: the first element, and the array without it. *)
Definition shift (l : list A) : option A * list A :=
  match l with
  | [] => (None, [])
  | x :: r => (Some x, r)
  end.

(** [l.pop()]: the last element, and the array without it. *)
Definition pop (l : list A) : option A * list A := (List.last (List.map Some l) None, removelast l).

(** [l.splice(i, 1)] for an index in range. *)
Definition splice1 (i : nat) (l : list A) : list A := delete i l.

End Ops.
End Array.

#[global] Instance PageEvent_eq_dec : EqDecision PageEvent.t.
Proof. solve_decision. Defined.

(** ** The state of the probe *)

Module EventLoopManager.

Record t := {
  _DOMAssessmentQueue : list Node;
  _toBeTriggeredEventsQueue : list PageEvent.t;
  _sentXHRQueue : list nat;       (* XHR objects, by reference *)
  _doneXHRQueue : list nat;
  _emptyLoopCounter : Z;
  _isReadyToClose : bool
}.

(** The constructor. *)
Definition new : t := {|
  _DOMAssessmentQueue := []; _toBeTriggeredEventsQueue := [];
  _sentXHRQueue := []; _doneXHRQueue := [];
  _emptyLoopCounter := 0; _isReadyToClose := false |}.

Definition set_DOMAssessmentQueue (q : list Node) (m : t) : t := {|
  _DOMAssessmentQueue := q;
  _toBeTriggeredEventsQueue := _toBeTriggeredEventsQueue m;
  _sentXHRQueue := _sentXHRQueue m; _doneXHRQueue := _doneXHRQueue m;
  _emptyLoopCounter := _emptyLoopCounter m; _isReadyToClose := _isReadyToClose m |}.

Definition set_toBeTriggeredEventsQueue (q : list PageEvent.t) (m : t) : t := {|
  _DOMAssessmentQueue := _DOMAssessmentQueue m;
  _toBeTriggeredEventsQueue := q;
  _sentXHRQueue := _sentXHRQueue m; _doneXHRQueue := _doneXHRQueue m;
  _emptyLoopCounter := _emptyLoopCounter m; _isReadyToClose := _isReadyToClose m |}.

Definition set_sentXHRQueue (q : list nat) (m : t) : t := {|
  _DOMAssessmentQueue := _DOMAssessmentQueue m;
  _toBeTriggeredEventsQueue := _toBeTriggeredEventsQueue m;
  _sentXHRQueue := q; _doneXHRQueue := _doneXHRQueue m;
  _emptyLoopCounter := _emptyLoopCounter m; _isReadyToClose := _isReadyToClose m |}.

Definition set_doneXHRQueue (q : list nat) (m : t) : t := {|
  _DOMAssessmentQueue := _DOMAssessmentQueue m;
  _toBeTriggeredEventsQueue := _toBeTriggeredEventsQueue m;
  _sentXHRQueue := _sentXHRQueue m; _doneXHRQueue := q;
  _emptyLoopCounter := _emptyLoopCounter m; _isReadyToClose := _isReadyToClose m |}.

Definition set_emptyLoopCounter (c : Z) (m : t) : t := {|
  _DOMAssessmentQueue := _DOMAssessmentQueue m;
  _toBeTriggeredEventsQueue := _toBeTriggeredEventsQueue m;
  _sentXHRQueue := _sentXHRQueue m; _doneXHRQueue := _doneXHRQueue m;
  _emptyLoopCounter := c; _isReadyToClose := _isReadyToClose m |}.

Definition set_isReadyToClose (b : bool) (m : t) : t := {|
  _DOMAssessmentQueue := _DOMAssessmentQueue m;
  _toBeTriggeredEventsQueue := _toBeTriggeredEventsQueue m;
  _sentXHRQueue := _sentXHRQueue m; _doneXHRQueue := _doneXHRQueue m;
  _emptyLoopCounter := _emptyLoopCounter m; _isReadyToClose := b |}.

(** *** The methods that touch the manager alone *)

Definition scheduleDOMAssessment (element : Node) (m : t) : t :=
  if Array.indexOf element (_DOMAssessmentQueue m) <? 0 then
    set_DOMAssessmentQueue (Array.push element (_DOMAssessmentQueue m)) m
  else m.

Definition scheduleEventTriggering (pageEvent : PageEvent.t) (m : t) : t :=
  if Array.indexOf pageEvent (_toBeTriggeredEventsQueue m) <? 0 then
    set_toBeTriggeredEventsQueue (Array.push pageEvent (_toBeTriggeredEventsQueue m)) m
  else m.

Definition sentXHR (request : nat) (m : t) : t :=
  if Array.indexOf request (_sentXHRQueue m) <? 0 then
    set_sentXHRQueue (Array.push request (_sentXHRQueue m)) m
  else m.

Definition doneXHR (request : nat) (m : t) : t :=
  if Array.indexOf request (_doneXHRQueue m) <? 0 then
    let i := Array.indexOf request (_sentXHRQueue m) in
    let m :=
      if 0 <=? i then set_sentXHRQueue (Array.splice1 (Z.to_nat i) (_sentXHRQueue m)) m
      else m in
    set_doneXHRQueue (Array.push request (_doneXHRQueue m)) m
  else m.

End EventLoopManager.

Module Probe.

Record t := {
  sentXHRs : list string;
  eventLoopManager : EventLoopManager.t;
  seenRequest : list string;
  _currentPageEvent : option PageEvent.t;
  _eventsMap : list (Node * list string);   (* element, events *)
  _triggeredPageEvents : list PageEvent.t
}.

(** The constructor. *)
Definition new : t := {|
  sentXHRs := []; eventLoopManager := EventLoopManager.new; seenRequest := [];
  _currentPageEvent := None; _eventsMap := []; _triggeredPageEvents := [] |}.

Definition set_sentXHRs (l : list string) (p : t) : t := {|
  sentXHRs := l; eventLoopManager := eventLoopManager p; seenRequest := seenRequest p;
  _currentPageEvent := _currentPageEvent p; _eventsMap := _eventsMap p;
  _triggeredPageEvents := _triggeredPageEvents p |}.

Definition set_eventLoopManager (m : EventLoopManager.t) (p : t) : t := {|
  sentXHRs := sentXHRs p; eventLoopManager := m; seenRequest := seenRequest p;
  _currentPageEvent := _currentPageEvent p; _eventsMap := _eventsMap p;
  _triggeredPageEvents := _triggeredPageEvents p |}.

Definition set_seenRequest (l : list string) (p : t) : t := {|
  sentXHRs := sentXHRs p; eventLoopManager := eventLoopManager p; seenRequest := l;
  _currentPageEvent := _currentPageEvent p; _eventsMap := _eventsMap p;
  _triggeredPageEvents := _triggeredPageEvents p |}.

Definition set_currentPageEvent (e : option PageEvent.t) (p : t) : t := {|
  sentXHRs := sentXHRs p; eventLoopManager := eventLoopManager p;
  seenRequest := seenRequest p;
  _currentPageEvent := e; _eventsMap := _eventsMap p;
  _triggeredPageEvents := _triggeredPageEvents p |}.

Definition set_eventsMap (l : list (Node * list string)) (p : t) : t := {|
  sentXHRs := sentXHRs p; eventLoopManager := eventLoopManager p;
  seenRequest := seenRequest p;
  _currentPageEvent := _currentPageEvent p; _eventsMap := l;
  _triggeredPageEvents := _triggeredPageEvents p |}.

Definition set_triggeredPageEvents (l : list PageEvent.t) (p : t) : t := {|
  sentXHRs := sentXHRs p; eventLoopManager := eventLoopManager p;
  seenRequest := seenRequest p;
  _currentPageEvent := _currentPageEvent p; _eventsMap := _eventsMap p;
  _triggeredPageEvents := l |}.

End Probe.

(** An [XMLHttpRequest] object as the hooks leave it. *)
Module XHR.

Record t := {
  __request : option Request.t;   (* None: never set *)
  __skipped : bool;
  listeners : nat                 (* readystatechange listeners added by [open] *)
}.

Definition new : t := {| __request := None; __skipped := false; listeners := 0 |}.

End XHR.

(** The functions handed to [window.__originalSetTimeout]. *)
Inductive Callback :=
| post_tick            (* posts the tick message *)
| close_then_tick.     (* sets _isReadyToClose, then posts the tick message *)

(** What the probe does to its surroundings. *)
Inductive Effect :=
| postMessage                                       (* window.postMessage(config.messageEvent, '*') *)
| setTimeout (callback : Callback) (delay : Z)      (* window.__originalSetTimeout *)
| PROBE_FN_RETURN_REQUEST (r : Request.t) (o : Request.json)
| PROBE_FN_REQUEST_END
| dispatchEvent (target : Node) (eventType eventName : string)
| originalOpen (xhr : nat) (method url : string)
| originalSend (xhr : nat) (data : option string)
| entered_doNextAction.                             (* a call of _doNextAction begins *)

Record World := {
  probe : Probe.t;               (* window.__PROBE__ *)
  page : Page;
  xhrs : gmap nat XHR.t;
  effects : list Effect;         (* oldest first *)
  allocated : nat                (* PageEvent objects created so far *)
}.

Definition set_probe (p : Probe.t) (w : World) : World := {|
  probe := p; page := page w; xhrs := xhrs w; effects := effects w;
  allocated := allocated w |}.

Definition set_page (pg : Page) (w : World) : World := {|
  probe := probe w; page := pg; xhrs := xhrs w; effects := effects w;
  allocated := allocated w |}.

Definition set_xhrs (x : gmap nat XHR.t) (w : World) : World := {|
  probe := probe w; page := page w; xhrs := x; effects := effects w;
  allocated := allocated w |}.

Definition emit (e : Effect) (w : World) : World := {|
  probe := probe w; page := page w; xhrs := xhrs w; effects := effects w ++ [e];
  allocated := allocated w |}.

Definition manager (w : World) : EventLoopManager.t := Probe.eventLoopManager (probe w).

Definition update_manager (f : EventLoopManager.t -> EventLoopManager.t) (w : World) : World :=
  set_probe (Probe.set_eventLoopManager (f (manager w)) (probe w)) w.

Definition update_probe (f : Probe.t -> Probe.t) (w : World) : World :=
  set_probe (f (probe w)) w.

(** [new PageEvent(element, eventName)] *)
Definition PageEvent_new (element : Node) (eventName : string) (w : World)
  : PageEvent.t * World :=
  ({| PageEvent.oid := allocated w; PageEvent.element := element;
      PageEvent.eventName := eventName |},
   {| probe := probe w; page := page w; xhrs := xhrs w; effects := effects w;
      allocated := S (allocated w) |}).

(** The world when the probe has just been set on a page. *)
Definition initial (pg : Page) : World := {|
  probe := Probe.new; page := pg; xhrs := ∅; effects := []; allocated := 0 |}.

(** ** The probe's methods *)

Section Probe.

Variable browser : Browser.
Variable options : Options.
Variable constants : Constants.

Definition config : EventLoopConfig := eventLoopConfig constants.

(** *** Reporting *)

Definition printRequest (request : Request.t) (w : World) : World :=
  let requestKey := Request.key (page w) request in
  if Array.indexOf requestKey (Probe.seenRequest (probe w)) <? 0 then
    let w := update_probe
               (Probe.set_seenRequest (Array.push requestKey (Probe.seenRequest (probe w)))) w in
    emit (PROBE_FN_RETURN_REQUEST request (Request.toJSON (page w) request)) w
  else w.

Definition getLastTriggerPageEvent (w : World) : option PageEvent.t :=
  Probe._currentPageEvent (probe w).

(** The body of a [try { req = new Request(..); printRequest(req) } catch]. *)
Definition print_or_warn (req : JS.result Request.t) (w : World) : World :=
  match req with
  | JS.Ok r => printRequest r w
  | JS.Throw _ => w
  end.

Definition printJSONP (n : Node) (w : World) : World :=
  let e := element_at (page w) n in
  if String.eqb (JS.toLowerCase (Element.tagName e)) "script" && Element.hasAttribute "src" e then
    match _getAbsoluteUrl browser (page w) (default EmptyString (Element.getAttribute "src" e)) false with
    | JS.Ok u =>
        if JS.truthy (URL.search u) then
          print_or_warn
            (Request_new browser (page w) "jsonp" "GET" (URL.href u) None
               (getLastTriggerPageEvent w)) w
        else w
    | JS.Throw _ => w
    end
  else w.

Definition printLink (url : string) (w : World) : World :=
  print_or_warn
    (Request_new browser (page w) "link" "GET" url None (getLastTriggerPageEvent w)) w.

Definition printWebsocket (url : string) (w : World) : World :=
  print_or_warn
    (Request_new browser (page w) "websocket" "GET" url None (getLastTriggerPageEvent w)) w.

(** [None] is [undefined]. *)
Definition getRandomValue (type : string) : option string :=
  let type := if bool_decide (is_Some (inputValues options !! type)) then type else "string" in
  inputValues options !! type.

(** *** Forms *)

Definition is_form_control (e : Element.t) : bool :=
  bool_decide (JS.toLowerCase (Element.tagName e) ∈ ["input"; "select"; "textarea"]).

(** [form.querySelectorAll('input, select, textarea')] *)
Definition form_inputs (pg : Page) (form : Node) : list Element.t :=
  List.filter is_form_control (List.map (element_at pg) (Element.descendants (element_at pg form))).

Definition form_par (input : Element.t) : string :=
  JS.encodeURIComponent (Element.name input) +:+ "=" +:+ JS.encodeURIComponent (Element.value input).

(** The loop over the inputs, with the array it fills. *)
Fixpoint form_data_loop (inputs : list Element.t) (data : list string) : list string :=
  match inputs with
  | [] => data
  | input :: rest =>
      if negb (JS.truthy (Element.name input)) then form_data_loop rest data
      else
        let par := form_par input in
        if String.eqb (Element.tagName input) "INPUT" then
          let type := JS.toLowerCase (Element.type input) in
          if String.eqb type "button" || String.eqb type "submit" then
            form_data_loop rest data
          else if String.eqb type "checkbox" || String.eqb type "radio" then
            if Element.checked input then form_data_loop rest (Array.push par data)
            else form_data_loop rest data
          else form_data_loop rest (Array.push par data)
        else form_data_loop rest (Array.push par data)
  end.

Definition form_method (form : Element.t) : string :=
  match Element.getAttribute "method" form with
  | Some m => if JS.truthy m then JS.toUpperCase m else "GET"
  | None => "GET"
  end.

Definition form_url (pg : Page) (form : Element.t) : string :=
  match Element.getAttribute "action" form with
  | Some a => if JS.truthy a then a else location_href pg
  | None => location_href pg
  end.

Definition form_data (pg : Page) (form : Node) : string :=
  JS.join "&" (form_data_loop (form_inputs pg form) []).

Definition getFormAsRequest (pg : Page) (form : Node) : JS.result Request.t :=
  let method := form_method (element_at pg form) in
  let url := form_url pg (element_at pg form) in
  let data := form_data pg form in
  if String.eqb method "GET" then
    JS.bind (_getAbsoluteUrl browser pg url false) (fun u =>
      Request_new browser pg "form" "GET" (URL.href (URL.set_search data u)) None None)
  else
    Request_new browser pg "form" "POST" url (Some data) None.

(** *** The map of events *)

Fixpoint addEventToMap_loop (element : Node) (eventName : string)
    (map : list (Node * list string)) : option (list (Node * list string)) :=
  match map with
  | [] => None
  | (el, events) :: rest =>
      if bool_decide (el = element) then Some ((el, Array.push eventName events) :: rest)
      else
        match addEventToMap_loop element eventName rest with
        | Some rest' => Some ((el, events) :: rest')
        | None => None
        end
  end.

Definition addEventToMap (element : Node) (eventName : string) (w : World) : World :=
  let map := Probe._eventsMap (probe w) in
  match addEventToMap_loop element eventName map with
  | Some map' => update_probe (Probe.set_eventsMap map') w
  | None => update_probe (Probe.set_eventsMap (Array.push (element, [eventName]) map)) w
  end.

Definition _mapElementEvents (element : Node) (w : World) : World :=
  fold_left
    (fun w eventName =>
       if bool_decide (("on" +:+ eventName) ∈ Element.on_properties (element_at (page w) element))
       then addEventToMap element eventName w
       else w)
    (mappableEvents constants) w.

Fixpoint events_in_map (element : Node) (map : list (Node * list string)) : list string :=
  match map with
  | [] => []
  | (el, events) :: rest =>
      if bool_decide (el = element) then events else events_in_map element rest
  end.

Definition _getEventsForElement (element : Node) (w : World) : list string :=
  fold_left
    (fun events entry =>
       if Element.webkitMatchesSelector (fst entry) (element_at (page w) element)
       then (events ++ snd entry)%list
       else events)
    (triggerableEvents constants)
    (events_in_map element (Probe._eventsMap (probe w))).

(** *** Scheduling events *)

Definition _trigger (pageEvent : PageEvent.t) (w : World) : World :=
  update_manager (EventLoopManager.scheduleEventTriggering pageEvent) w.

Definition _isPageEventAlreadyTriggered (pageEvent : PageEvent.t) (w : World) : bool :=
  existsb (fun recorded => PageEvent.same_keys recorded pageEvent)
    (Probe._triggeredPageEvents (probe w)).

Definition never_triggered : list string := ["load"; "unload"; "beforeunload"].

Definition _triggerElementEvents (element : Node) (w : World) : World :=
  fold_left
    (fun w eventName =>
       let '(pageEvent, w) := PageEvent_new element eventName w in
       if negb (bool_decide (eventName ∈ never_triggered))
          && negb (_isPageEventAlreadyTriggered pageEvent w)
       then
         let w := update_probe
                    (fun p => Probe.set_triggeredPageEvents
                                (Array.push pageEvent (Probe._triggeredPageEvents p)) p) w in
         _trigger pageEvent w
       else w)
    (_getEventsForElement element w) w.

(** *** Filling values *)

(** The string a property holds after [element.value = v]. *)
Definition to_DOMString (v : option string) : string := default "undefined" v.

Definition setv (name : string) : option string :=
  fold_left
    (fun ret matchValue =>
       if RegExp_match browser (fst matchValue) "gi" name then getRandomValue (snd matchValue)
       else ret)
    (inputNameMatchValue constants)
    (getRandomValue "string").

(** [element.value = v]; what the browser itself then does with the
    value of an input (its sanitisation) is not part of the model. *)
Definition assign_value (element : Node) (v : string) (w : World) : World :=
  set_page (set_element element (Element.set_value v (element_at (page w) element)) (page w)) w.

Definition triggerChange (element : Node) (w : World) : World :=
  let '(pageEvent, w) := PageEvent_new element "input" w in
  _trigger pageEvent w.

(** [elements.getElementsByTagName('option')] *)
Definition options_of (pg : Page) (e : Element.t) : list Element.t :=
  List.filter (fun o => String.eqb (JS.toLowerCase (Element.tagName o)) "option")
    (List.map (element_at pg) (Element.descendants e)).

Definition _setVal (element : Node) (w : World) : World :=
  let e := element_at (page w) element in
  let tag := JS.toLowerCase (Element.tagName e) in
  if String.eqb tag "textarea" then
    triggerChange element (assign_value element (to_DOMString (setv (Element.name e))) w)
  else if String.eqb tag "select" then
    let opts := options_of (page w) e in
    let w :=
      if 1 <? Array.length opts then
        assign_value element
          (Element.value (List.last opts Element.empty)) w
      else assign_value element (to_DOMString (setv (Element.name e))) w in
    triggerChange element w
  else if String.eqb tag "input" then
    let type := JS.toLowerCase (Element.type e) in
    if bool_decide (type ∈ ["button"; "hidden"; "submit"; "file"]) then w
    else if bool_decide (type ∈ [EmptyString; "text"; "search"]) then
      triggerChange element (assign_value element (to_DOMString (setv (Element.name e))) w)
    else if bool_decide (type ∈ ["radio"; "checkbox"]) then
      let checked :=
        match Element.getAttribute "checked" e with
        | Some v => negb (JS.truthy v)
        | None => true
        end in
      triggerChange element
        (set_page
           (set_element element
              (Element.setAttribute "checked" (if checked then "true" else "false") e)
              (page w)) w)
    else if bool_decide (type ∈ ["range"; "number"]) then
      let v :=
        match Element.min e with
        | Some min =>
            if JS.truthy min then
              JS.add (JS.parseInt min)
                (JS.parseInt (match Element.step e with Some step => step | None => "1" end))
            else JS.parseInt (to_DOMString (getRandomValue "number"))
        | None => JS.parseInt (to_DOMString (getRandomValue "number"))
        end in
      triggerChange element (assign_value element (JS.Number_toString v) w)
    else if bool_decide (type ∈ ["password"; "color"; "date"; "email"; "month"; "time";
                                 "url"; "week"; "tel"]) then
      triggerChange element (assign_value element (to_DOMString (getRandomValue type)) w)
    else if String.eqb type "datetime-local" then
      triggerChange element
        (assign_value element (to_DOMString (getRandomValue "datetimeLocal")) w)
    else w
  else w.

(** *** Analysing an element *)

Definition _printRequestFromForm (element : Node) (w : World) : World :=
  if String.eqb (JS.toLowerCase (Element.tagName (element_at (page w) element))) "form" then
    print_or_warn (getFormAsRequest (page w) element) w
  else w.

Definition _printRequestFromATag (element : Node) (w : World) : World :=
  let e := element_at (page w) element in
  if String.eqb (JS.toLowerCase (Element.tagName e)) "a" && Element.hasAttribute "href" e then
    printLink (Element.href e) w
  else w.

Definition _analyzeDOMElement (element : Node) (w : World) : World :=
  let w := _mapElementEvents element w in
  let w :=
    if fillValues options then
      fold_left (fun w el => _setVal el w)
        (Element.descendants (element_at (page w) element)) w
    else w in
  let w := _printRequestFromForm element w in
  let w := _printRequestFromATag element w in
  if triggerEvents options then _triggerElementEvents element w else w.

(** *** The event loop manager *)

(** A message event as the listener receives it. *)
Record MessageEvent := {
  source_is_window : bool;     (* eventMessage.source === window *)
  data : Message.data
}.

Inductive MutationRecord :=
| childList (addedNodes : list (Node * Z))     (* each added node with its nodeType *)
| attributes (target : Node) (attributeName : string)
| characterData (target : Node).

(** [pageEvent.trigger()] *)
Definition PageEvent_trigger (pageEvent : PageEvent.t) (w : World) : JS.result World :=
  JS.bind (PageEvent.event_type pageEvent) (fun eventType =>
    JS.Ok (emit (dispatchEvent (PageEvent.element pageEvent) eventType
                   (PageEvent.eventName pageEvent)) w)).

(** [window.__originalSetTimeout(callback, delay)].  The hooks define
    [window.__originalSetTimeout] only under [overrideTimeoutFunctions];
    without it the call throws a TypeError.  Each call is the last
    statement of its branch of [_doNextAction], which is the last
    statement of the listener: when it throws nothing else is left out. *)
Definition originalSetTimeout (callback : Callback) (delay : Z) (w : World) : World :=
  if overrideTimeoutFunctions options then emit (setTimeout callback delay) w else w.

Definition _doNextAction (w : World) : World :=
  let w := emit entered_doNextAction w in
  let m := manager w in
  if 0 <? Array.length (EventLoopManager._sentXHRQueue m) then
    let w := update_manager (EventLoopManager.set_isReadyToClose false) w in
    emit postMessage w
  else if 0 <? Array.length (EventLoopManager._doneXHRQueue m) then
    let w := update_manager (EventLoopManager.set_isReadyToClose false) w in
    let w := update_manager
               (fun m => EventLoopManager.set_doneXHRQueue
                           (snd (Array.shift (EventLoopManager._doneXHRQueue m))) m) w in
    originalSetTimeout post_tick (afterDoneXHRTimeout config) w
  else if 0 <? Array.length (EventLoopManager._DOMAssessmentQueue m) then
    let w := update_manager (EventLoopManager.set_isReadyToClose false) w in
    match Array.shift (EventLoopManager._DOMAssessmentQueue m) with
    | (Some element, rest) =>
        let w := update_manager (EventLoopManager.set_DOMAssessmentQueue rest) w in
        let w := _analyzeDOMElement element w in
        emit postMessage w
    | (None, _) => w
    end
  else if 0 <? Array.length (EventLoopManager._toBeTriggeredEventsQueue m) then
    let w := update_manager (EventLoopManager.set_isReadyToClose false) w in
    match Array.pop (EventLoopManager._toBeTriggeredEventsQueue m) with
    | (Some pageEvent, rest) =>
        let w := update_manager (EventLoopManager.set_toBeTriggeredEventsQueue rest) w in
        let w := update_probe (Probe.set_currentPageEvent (Some pageEvent)) w in
        match PageEvent_trigger pageEvent w with
        | JS.Ok w => originalSetTimeout post_tick (afterEventTriggeredTimeout config) w
        | JS.Throw _ => w     (* the exception leaves the listener *)
        end
    | (None, _) => w
    end
  else if EventLoopManager._isReadyToClose m then
    emit PROBE_FN_REQUEST_END w
  else
    originalSetTimeout close_then_tick (beforeClosingEventLoopManagerTimeout config) w.

Definition eventMessageHandler (eventMessage : MessageEvent) (w : World) : World :=
  if source_is_window eventMessage
     && String.eqb (Message.from (data eventMessage)) (Message.from (messageEvent config)) then
    if String.eqb (Message.name (data eventMessage)) (Message.name (messageEvent config)) then
      if EventLoopManager._emptyLoopCounter (manager w) <? bufferCycleSize config then
        let w := emit postMessage w in
        update_manager
          (fun m => EventLoopManager.set_emptyLoopCounter
                      (EventLoopManager._emptyLoopCounter m + 1) m) w
      else
        let w := update_manager (EventLoopManager.set_emptyLoopCounter 0) w in
        _doNextAction w
    else if String.eqb (Message.name (data eventMessage)) "navigation-blocked" then
      printLink (Message.url (data eventMessage)) w
    else w
  else w.

Definition start (w : World) : World := emit postMessage w.

(** The [forEach] over [_triggeredPageEvents] whose callback splices the
    array it runs over: the indices below the length at the start are
    visited in turn, each read from the array as it is by then; an index
    past the end of the shortened array is skipped. *)
Fixpoint purge_from (element : Node) (index remaining : nat)
    (array : list PageEvent.t) : list PageEvent.t :=
  match remaining with
  | O => array
  | S remaining' =>
      match array !! index with
      | Some pageEvent =>
          if bool_decide (PageEvent.element pageEvent = element)
          then purge_from element (S index) remaining' (Array.splice1 index array)
          else purge_from element (S index) remaining' array
      | None => purge_from element (S index) remaining' array
      end
  end.

Definition purge_triggered (element : Node) (array : list PageEvent.t) : list PageEvent.t :=
  purge_from element 0 (List.length array) array.

Definition nodeMutated (mutations : list MutationRecord) (w : World) : World :=
  fold_left
    (fun w mutationRecord =>
       match mutationRecord with
       | childList addedNodes =>
           fold_left
             (fun w addedNode =>
                if snd addedNode =? ELEMENT_NODE then
                  update_manager (EventLoopManager.scheduleDOMAssessment (fst addedNode)) w
                else w)
             addedNodes w
       | attributes element _ =>
           let w := update_probe
                      (fun p => Probe.set_triggeredPageEvents
                                  (purge_triggered element (Probe._triggeredPageEvents p)) p) w in
           update_manager (EventLoopManager.scheduleDOMAssessment element) w
       | characterData _ => w
       end)
    mutations w.

Definition startAnalysis (w : World) : World :=
  let w := fold_left
             (fun w element => update_manager (EventLoopManager.scheduleDOMAssessment element) w)
             (all_elements (page w)) w in
  start w.

(** *** The hooks of [_initializeProbeHook] *)

(** The wrapper put on [Node.prototype.addEventListener]. *)
Definition hook_Node_addEventListener (this : Node) (type : string) (w : World) : World :=
  if negb (bool_decide (type ∈ ["DOMContentLoaded"; "readystatechange"]))
  then addEventToMap this type w
  else w.

(** The wrapper put on [window.addEventListener]. *)
Definition hook_window_addEventListener (this : Node) (type : string) (w : World) : World :=
  if negb (bool_decide (type ∈ ["load"; "unload"; "beforeunload"]))
  then addEventToMap this type w
  else w.

Definition xhr_at (w : World) (x : nat) : XHR.t := default XHR.new (xhrs w !! x).

Definition hook_XHR_open (this : nat) (method url : string) (w : World) : World :=
  let x := xhr_at w this in
  let w :=
    match Request_new browser (page w) "xhr" method url None None with
    | JS.Ok r =>
        set_xhrs (<[this := {| XHR.__request := Some r; XHR.__skipped := XHR.__skipped x;
                               XHR.listeners := S (XHR.listeners x) |}]> (xhrs w)) w
    | JS.Throw _ => w
    end in
  emit (originalOpen this method url) w.

(** One run of the readystatechange listener that [open] adds. *)
Definition readystatechange_listener (this : nat) (readyState : Z) (w : World) : World :=
  if (1 <=? readyState) && (readyState <? 4) then
    update_manager (EventLoopManager.sentXHR this) w
  else if readyState =? 4 then
    update_manager (EventLoopManager.doneXHR this) w
  else w.

(** A readystatechange event on an XHR object: every listener runs. *)
Definition on_readystatechange (this : nat) (readyState : Z) (w : World) : World :=
  Nat.iter (XHR.listeners (xhr_at w this)) (readystatechange_listener this readyState) w.

Definition hook_XHR_send (this : nat) (data : option string) (w : World) : World :=
  let x := xhr_at w this in
  match XHR.__request x with
  | None => w        (* this.__request.data = data throws *)
  | Some r =>
      let r := Request.set_data_triggerer data (getLastTriggerPageEvent w) r in
      let skipped :=
        match _getAbsoluteUrl browser (page w) (Request.url r) false with
        | JS.Ok u =>
            fold_left
              (fun skipped url =>
                 if RegExp_match browser url EmptyString (URL.href u) then true else skipped)
              (excludedUrls options) (XHR.__skipped x)
        | JS.Throw _ => true
        end in
      let w := set_xhrs (<[this := {| XHR.__request := Some r; XHR.__skipped := skipped;
                                      XHR.listeners := XHR.listeners x |}]> (xhrs w)) w in
      let requestKey := Request.key (page w) r in
      if negb (Array.indexOf requestKey (Probe.sentXHRs (probe w)) =? -1) then w
      else
        let w := update_probe
                   (fun p => Probe.set_sentXHRs (Array.push requestKey (Probe.sentXHRs p)) p) w in
        let w := printRequest r w in
        if negb skipped then emit (originalSend this data) w else w
  end.

(** The wrappers of [appendChild], [insertBefore] and [replaceChild]. *)
Definition hook_Node_insert (n : Node) (w : World) : World := printJSONP n w.

Definition hook_WebSocket (url : string) (w : World) : World := printWebsocket url w.

Definition hook_form_submit (this : Node) (w : World) : World :=
  print_or_warn (getFormAsRequest (page w) this) w.

Definition hook_window_open (url : string) (w : World) : World := printLink url w.

(** What a timer callback does when the timer expires. *)
Definition run_callback (cb : Callback) (w : World) : World :=
  match cb with
  | post_tick => emit postMessage w
  | close_then_tick =>
      emit postMessage (update_manager (EventLoopManager.set_isReadyToClose true) w)
  end.

(** ** The crawl as a sequence of inputs *)

(** Everything that makes the probe run. *)
Inductive Input :=
| message (m : MessageEvent)                   (* a message event reaches the listener *)
| timeout (cb : Callback)                      (* a timer set by the manager expires *)
| start_analysis                               (* window.__PROBE__.startAnalysis() *)
| mutations (ms : list MutationRecord)         (* the mutation observer fires *)
| node_addEventListener (this : Node) (type : string)
| window_addEventListener (this : Node) (type : string)
| xhr_open (x : nat) (method url : string)
| xhr_readystatechange (x : nat) (readyState : Z)
| xhr_send (x : nat) (data : option string)
| node_insert (n : Node)
| new_WebSocket (url : string)
| form_submit (form : Node)
| window_open (url : string)
| page_changed (pg : Page).                    (* the page's scripts changed the document *)

Definition handle (i : Input) (w : World) : World :=
  match i with
  | message m => eventMessageHandler m w
  | timeout cb => run_callback cb w
  | start_analysis => startAnalysis w
  | mutations ms => nodeMutated ms w
  | node_addEventListener this type => hook_Node_addEventListener this type w
  | window_addEventListener this type => hook_window_addEventListener this type w
  | xhr_open x method url => hook_XHR_open x method url w
  | xhr_readystatechange x readyState => on_readystatechange x readyState w
  | xhr_send x data => hook_XHR_send x data w
  | node_insert n => hook_Node_insert n w
  | new_WebSocket url => hook_WebSocket url w
  | form_submit form => hook_form_submit form w
  | window_open url => hook_window_open url w
  | page_changed pg => set_page pg w
  end.

Definition run (inputs : list Input) (w : World) : World := fold_left (fun w i => handle i w) inputs w.

(** The states a crawl goes through. *)
Definition reachable (w : World) : Prop :=
  exists pg inputs, w = run inputs (initial pg).

End Probe.

(** ** A small browser and page to run the probe on *)

Module Demo.

Fixpoint split_at (c : ascii) (s : string) : string * option string :=
  match s with
  | EmptyString => (EmptyString, None)
  | String d r =>
      if Ascii.eqb c d then (EmptyString, Some r)
      else let '(a, b) := split_at c r in (String d a, b)
  end.

Fixpoint all_alphanumeric (s : string) : bool :=
  match s with
  | EmptyString => true
  | String c r => JS.is_alphanumeric c && all_alphanumeric r
  end.

(** A URL that starts with a scheme. *)
Definition parse_absolute (s : string) : option URL.t :=
  let '(s1, fragment) := split_at "#" s in
  let '(s2, query) := split_at "?" s1 in
  match split_at ":" s2 with
  | (scheme, Some body) =>
      if JS.truthy scheme && all_alphanumeric scheme then
        Some {| URL.scheme := JS.toLowerCase scheme; URL.body := body;
                URL.query := query; URL.fragment := fragment |}
      else None
  | (_, None) => None
  end.

(** The authority of a body of the form //authority/path. *)
Definition authority (body : string) : string :=
  match body with
  | String "/" (String "/" r) => "//" +:+ fst (split_at "/" r)
  | _ => EmptyString
  end.

(** Absolute urls, and paths resolved against the base; anything else
    does not parse. *)
Definition parse (url base : string) : option URL.t :=
  match parse_absolute url with
  | Some u => Some u
  | None =>
      match url, parse_absolute base with
      | String "/" _, Some b =>
          parse_absolute (URL.protocol b +:+ authority (URL.body b) +:+ url)
      | _, _ => None
      end
  end.

Definition new_URL (url base : string) : option URL.t :=
  match parse url base with
  | Some u => if URL.wf u then Some u else None
  | None => None
  end.

(** Patterns are plain words here: a pattern matches the strings that
    contain it, whatever the case when the i flag is given. *)
Fixpoint contains (p s : string) : bool :=
  String.prefix p s
  || match s with
     | EmptyString => false
     | String _ r => contains p r
     end.

Definition match_RegExp (pattern flags s : string) : bool :=
  if JS.contains_char "i" flags then contains (JS.toLowerCase pattern) (JS.toLowerCase s)
  else contains pattern s.

Definition browser : Browser := {| URL_new := new_URL; RegExp_match := match_RegExp |}.

Definition config : EventLoopConfig := {|
  messageEvent := {| Message.from := "htcap"; Message.name := "event-loop-ready";
                     Message.url := EmptyString |};
  bufferCycleSize := 2;
  afterDoneXHRTimeout := 10;
  afterEventTriggeredTimeout := 1;
  beforeClosingEventLoopManagerTimeout := 500 |}.

Definition constants : Constants := {|
  eventLoopConfig := config;
  inputNameMatchValue := [("mail", "email"); ("pass", "password")];
  triggerableEvents := [("button", ["click"; "keyup"])];
  mappableEvents := ["click"; "load"; "mouseover"; "change"] |}.

Definition options : Options := {|
  fillValues := true;
  triggerEvents := true;
  inputValues :=
    <["string" := "abc"]> (<["number" := "7"]> (<["email" := "a@b.c"]> ∅));
  excludedUrls := [];
  overrideTimeoutFunctions := true |}.

(** The tick message. *)
Definition tick : MessageEvent :=
  {| source_is_window := true; data := messageEvent config |}.

Definition element (tagName : string) : Element.t := {|
  Element.tagName := tagName; Element.attributes := []; Element.name := EmptyString;
  Element.type := EmptyString; Element.value := EmptyString; Element.checked := false;
  Element.min := Some EmptyString; Element.step := Some EmptyString;
  Element.className := EmptyString; Element.id := EmptyString; Element.src := EmptyString;
  Element.action := EmptyString; Element.method := EmptyString; Element.href := EmptyString;
  Element.textContent := EmptyString; Element.on_properties := [];
  Element.descendants := []; Element.selectors := [] |}.

(** <input type=.. name=.. value=..>; without min and step attributes
    the two properties are empty strings. *)
Definition input (type name value : string) (checked : bool) : Element.t := {|
  Element.tagName := "INPUT"; Element.attributes := []; Element.name := name;
  Element.type := type; Element.value := value; Element.checked := checked;
  Element.min := Some EmptyString; Element.step := Some EmptyString;
  Element.className := EmptyString; Element.id := EmptyString; Element.src := EmptyString;
  Element.action := EmptyString; Element.method := EmptyString; Element.href := EmptyString;
  Element.textContent := EmptyString; Element.on_properties := [];
  Element.descendants := []; Element.selectors := [] |}.

(** <input type="number" min=..>, with the [step] property as given. *)
Definition number_input (min : string) (step : option string) : Element.t := {|
  Element.tagName := "INPUT"; Element.attributes := [("type", "number"); ("min", min)];
  Element.name := "qty"; Element.type := "number"; Element.value := EmptyString;
  Element.checked := false; Element.min := Some min; Element.step := step;
  Element.className := EmptyString; Element.id := EmptyString; Element.src := EmptyString;
  Element.action := EmptyString; Element.method := EmptyString; Element.href := EmptyString;
  Element.textContent := EmptyString; Element.on_properties := [];
  Element.descendants := []; Element.selectors := [] |}.

(** <form ..attributes..> with the given descendants. *)
Definition form (attributes : list (string * string)) (descendants : list Node) : Element.t := {|
  Element.tagName := "FORM"; Element.attributes := attributes; Element.name := EmptyString;
  Element.type := EmptyString; Element.value := EmptyString; Element.checked := false;
  Element.min := None; Element.step := None;
  Element.className := EmptyString; Element.id := EmptyString; Element.src := EmptyString;
  Element.action := EmptyString; Element.method := EmptyString; Element.href := EmptyString;
  Element.textContent := EmptyString; Element.on_properties := [];
  Element.descendants := descendants; Element.selectors := [] |}.

(** <a href=..> *)
Definition anchor (href : string) : Element.t := {|
  Element.tagName := "A"; Element.attributes := [("href", href)]; Element.name := EmptyString;
  Element.type := EmptyString; Element.value := EmptyString; Element.checked := false;
  Element.min := None; Element.step := None;
  Element.className := EmptyString; Element.id := EmptyString; Element.src := EmptyString;
  Element.action := EmptyString; Element.method := EmptyString; Element.href := href;
  Element.textContent := "next"; Element.on_properties := ["onclick"; "onmouseover"; "onload"];
  Element.descendants := []; Element.selectors := [] |}.

Definition page_of (l : list (nat * Element.t)) : Page := {|
  location_href := "http://x/p?old=1#top";
  all_elements := List.map (fun p => node (fst p)) l;
  elements := list_to_map l |}.

(** A page with one link, which has handlers for click, mouseover and load. *)
Definition link_page : Page := page_of [(1%nat, anchor "http://x/y")].

(** <form method="post" action="/s"> with <input name="a" value="1">. *)
Definition post_form_page : Page :=
  page_of [(1%nat, form [("method", "post"); ("action", "/s")] [node 2]);
           (2%nat, input "text" "a" "1" false)].

(** A form with neither method nor action, with a text field, a
    checkbox that is not checked, a checked radio button and a submit
    button. *)
Definition get_form_page : Page :=
  page_of [(1%nat, form [] [node 2; node 3; node 4; node 5]);
           (2%nat, input "text" "q" "a b" false);
           (3%nat, input "checkbox" "c" "on" false);
           (4%nat, input "radio" "r" "x" true);
           (5%nat, input "submit" "go" "Go" false)].

(** A form with neither method nor action, with a text field, a reset
    button and an image button. *)
Definition reset_form_page : Page :=
  page_of [(1%nat, form [] [node 2; node 3; node 4]);
           (2%nat, input "text" "q" "a" false);
           (3%nat, input "reset" "r" "Reset" false);
           (4%nat, input "image" "img" EmptyString false)].

Definition go : list Input -> World -> World := run browser options constants.

(** Three ticks: with a buffer of 2, one action. *)
Definition three_ticks : list Input := [message tick; message tick; message tick].

(** The link page once its link is analysed: the link is reported and
    its click and mouseover events are pending. *)
Definition analysed : World := go (start_analysis :: three_ticks) (initial link_page).

(** Then the next action fires the mouseover event, and the handler of
    the page opens the same link in a window. *)
Definition opened_again : World := go (three_ticks ++ [window_open "http://x/y"]) analysed.

(** Two requests in flight, one of them done, and the page not analysed yet. *)
Definition waiting : World :=
  go [start_analysis; xhr_open 7 "GET" "http://x/a"; xhr_readystatechange 7 1;
      xhr_open 3 "GET" "http://x/b"; xhr_readystatechange 3 4] (initial link_page).

End Demo.

(** ** What is observed of a crawl *)

Definition is_entered (e : Effect) : bool :=
  match e with
  | entered_doNextAction => true
  | _ => false
  end.

(** How many times [_doNextAction] was invoked. *)
Definition calls (w : World) : nat := List.length (List.filter is_entered (effects w)).

(** The requests handed to the result sink, oldest first, each with the
    object that [toJSON] made of it at that moment. *)
Fixpoint reports (es : list Effect) : list (Request.t * Request.json) :=
  match es with
  | [] => []
  | PROBE_FN_RETURN_REQUEST r o :: rest => (r, o) :: reports rest
  | _ :: rest => reports rest
  end.

Definition reported (w : World) : list (Request.t * Request.json) := reports (effects w).

Definition reported_keys (w : World) : list string :=
  List.map (fun p => Request.stringify (snd p)) (reported w).

(** The pending-event queue. *)
Definition pending (w : World) : list PageEvent.t :=
  EventLoopManager._toBeTriggeredEventsQueue (manager w).

(** No reported key twice, every reported key is remembered, and every
    reported object is what [toJSON] makes of its request. *)
Definition dedup_ok (w : World) : Prop :=
  NoDup (reported_keys w)
  /\ (forall k, k ∈ reported_keys w -> k ∈ Probe.seenRequest (probe w))
  /\ Forall (fun p => exists pg, snd p = Request.toJSON pg (fst p)) (reported w).

(** No event that must not be refired is pending. *)
Definition events_ok (w : World) : Prop :=
  Forall (fun pe => PageEvent.eventName pe ∉ never_triggered) (pending w).

(** What the analysis of an element, and the reporting of a request,
    leave alone, and what they keep true. *)
Record preserves (w w' : World) : Prop := {
  pres_sent : EventLoopManager._sentXHRQueue (manager w') = EventLoopManager._sentXHRQueue (manager w);
  pres_done : EventLoopManager._doneXHRQueue (manager w') = EventLoopManager._doneXHRQueue (manager w);
  pres_dom : EventLoopManager._DOMAssessmentQueue (manager w')
             = EventLoopManager._DOMAssessmentQueue (manager w);
  pres_counter : EventLoopManager._emptyLoopCounter (manager w')
                 = EventLoopManager._emptyLoopCounter (manager w);
  pres_flag : EventLoopManager._isReadyToClose (manager w')
              = EventLoopManager._isReadyToClose (manager w);
  pres_calls : calls w' = calls w;
  pres_events : events_ok w -> events_ok w';
  pres_dedup : dedup_ok w -> dedup_ok w'
}.

(** An effect other than a report or the start of an action. *)
Definition is_plain (e : Effect) : bool :=
  match e with
  | PROBE_FN_RETURN_REQUEST _ _ | entered_doNextAction => false
  | _ => true
  end.


(** What one action of the scheduler keeps: the debounce counter, the
    number of actions started, and both invariants. *)
Record keeps (w w' : World) : Prop := {
  keeps_counter : EventLoopManager._emptyLoopCounter (manager w')
                  = EventLoopManager._emptyLoopCounter (manager w);
  keeps_calls : calls w' = calls w;
  keeps_events : events_ok w -> events_ok w';
  keeps_dedup : dedup_ok w -> dedup_ok w'
}.

(** What every input keeps: the two invariants. *)
Definition safe (w w' : World) : Prop :=
  (events_ok w -> events_ok w') /\ (dedup_ok w -> dedup_ok w').

(** ** Words of the specification about urls *)

(** The schemes a Request may have. *)
Definition allowed_schemes : list string := ["http"; "https"; "ftp"; "sftp"; "javascript"].

(** The scheme of a url string once resolved against the current document
    location; [None] when the string does not resolve to a URL at all. *)
Definition resolved_scheme (browser : Browser) (pg : Page) (urlString : string) : option string :=
  option_map URL.scheme (URL_new browser urlString (location_href pg)).

(** The absolute form of a url string: the URL it resolves to against
    the current document location, written out - the scheme, a colon,
    the authority and the path, and the query; the fragment is the
    matter of the constructor. *)
Definition absolute_form (browser : Browser) (pg : Page) (urlString : string) : option string :=
  match URL_new browser urlString (location_href pg) with
  | Some u => Some (URL.scheme u +:+ ":" +:+ URL.body u +:+ URL.query_part u)
  | None => None
  end.

(** The browser's parser hands back well-formed URLs for this string. *)
Definition parsed_wf (browser : Browser) (pg : Page) (urlString : string) : bool :=
  match URL_new browser urlString (location_href pg) with
  | Some u => URL.wf u
  | None => true
  end.

(** ** Sequences of network notifications *)

(** The two notifications of the XHR hooks. *)
Inductive XHRCall :=
| call_sentXHR (request : nat)
| call_doneXHR (request : nat).

Definition apply_call (c : XHRCall) (m : EventLoopManager.t) : EventLoopManager.t :=
  match c with
  | call_sentXHR request => EventLoopManager.sentXHR request m
  | call_doneXHR request => EventLoopManager.doneXHR request m
  end.

Definition run_calls (cs : list XHRCall) (m : EventLoopManager.t) : EventLoopManager.t :=
  fold_left (fun m c => apply_call c m) cs m.

(** A request in the sent queue and in the completed queue at once. *)
Definition in_both_queues (request : nat) (m : EventLoopManager.t) : Prop :=
  request ∈ EventLoopManager._sentXHRQueue m /\ request ∈ EventLoopManager._doneXHRQueue m.

(** No [sentXHR] comes for a request that is in the completed queue at
    that moment. *)
Fixpoint never_resent (cs : list XHRCall) (m : EventLoopManager.t) : bool :=
  match cs with
  | [] => true
  | c :: rest =>
      match c with
      | call_sentXHR request =>
          negb (bool_decide (request ∈ EventLoopManager._doneXHRQueue m))
      | call_doneXHR _ => true
      end && never_resent rest (apply_call c m)
  end.

(** The network queues hold a request once, and not both at once. *)
Definition network_queues_ok (m : EventLoopManager.t) : Prop :=
  NoDup (EventLoopManager._sentXHRQueue m)
  /\ NoDup (EventLoopManager._doneXHRQueue m)
  /\ forall request, ~ in_both_queues request m.

(** ** Words of the specification about forms *)

(** An input element. *)
Definition is_input (e : Element.t) : bool :=
  String.eqb (JS.toLowerCase (Element.tagName e)) "input".

(** An input, select or textarea element. *)
Definition is_field (e : Element.t) : bool :=
  let tag := JS.toLowerCase (Element.tagName e) in
  String.eqb tag "input" || String.eqb tag "select" || String.eqb tag "textarea".

(** The input, select and textarea descendants of a form, in document
    order. *)
Definition fields (pg : Page) (form : Node) : list Element.t :=
  List.filter is_field (List.map (element_at pg) (Element.descendants (element_at pg form))).

(** A named field. *)
Definition is_named (e : Element.t) : bool := negb (String.eqb (Element.name e) EmptyString).

(** A button: an input of type button, submit, reset or image. *)
Definition is_button (e : Element.t) : bool :=
  is_input e
  && bool_decide (JS.toLowerCase (Element.type e) ∈ ["button"; "submit"; "reset"; "image"]).

(** A checkbox or a radio button. *)
Definition is_checkbox_or_radio (e : Element.t) : bool :=
  is_input e && bool_decide (JS.toLowerCase (Element.type e) ∈ ["checkbox"; "radio"]).

(** The fields that contribute to the data of a form: named, not a
    button, and checked when a checkbox or a radio button. *)
Definition contributes (e : Element.t) : bool :=
  is_named e && negb (is_button e) && (if is_checkbox_or_radio e then Element.checked e else true).

(** name=value, both encoded. *)
Definition pair_of (e : Element.t) : string :=
  JS.encodeURIComponent (Element.name e) +:+ "=" +:+ JS.encodeURIComponent (Element.value e).

(** The data of a form: name=value for each contributing field, in
    document order, joined by ampersands. *)
Definition spec_form_data (pg : Page) (form : Node) : string :=
  JS.join "&" (List.map pair_of (List.filter contributes (fields pg form))).

(** A GET form: no method attribute (or an empty one), or the method
    get in any case of letters. *)
Definition is_get_form (f : Element.t) : bool :=
  match Element.getAttribute "method" f with
  | Some m => String.eqb m EmptyString || String.eqb (JS.toLowerCase m) "get"
  | None => true
  end.

(** The target of a form: its action attribute, and the current document
    location when the attribute is absent (or empty). *)
Definition spec_target (pg : Page) (f : Element.t) : string :=
  match Element.getAttribute "action" f with
  | Some a => if String.eqb a EmptyString then location_href pg else a
  | None => location_href pg
  end.

(** A control as an HTML document has it - the tag name of an input in
    capitals - that is neither a reset nor an image button. *)
Definition plain_control (e : Element.t) : bool :=
  if is_input e then
    String.eqb (Element.tagName e) "INPUT"
    && negb (bool_decide (JS.toLowerCase (Element.type e) ∈ ["reset"; "image"]))
  else true.

(** ** Words of the specification about reports *)

(** Requests with identical type, method, url and data. *)
Definition same_request (r1 r2 : Request.t) : Prop :=
  Request.type r1 = Request.type r2
  /\ Request.method r1 = Request.method r2
  /\ Request.url r1 = Request.url r2
  /\ Request.data r1 = Request.data r2.

(** Of the requests with identical type, method, url and data, at most
    one was handed to the result sink. *)
Definition one_report_per_request (w : World) : Prop :=
  forall i j p1 p2,
    reported w !! i = Some p1 -> reported w !! j = Some p2 ->
    same_request (fst p1) (fst p2) -> i = j.

(** ** What the purge of the trigger history amounts to *)

(** The records left by the purge: a record of the element is dropped,
    and the record that follows a dropped one is kept without being
    looked at. *)
Fixpoint purge_result (element : Node) (array : list PageEvent.t) : list PageEvent.t :=
  match array with
  | [] => []
  | pageEvent :: rest =>
      if bool_decide (PageEvent.element pageEvent = element) then
        match rest with
        | [] => []
        | next :: rest' => next :: purge_result element rest'
        end
      else pageEvent :: purge_result element rest
  end.

(** ** What the state of the probe keeps true *)

(** The two keys [_isPageEventAlreadyTriggered] compares. *)
Definition trigger_key (pe : PageEvent.t) : Node * string :=
  (PageEvent.element pe, PageEvent.eventName pe).

(** The types the probe gives to the requests it builds. *)
Definition request_types : list string := ["xhr"; "form"; "link"; "jsonp"; "websocket"].

(** A request as the constructor leaves it: its url is what the
    browser parsed from some url string, passed the protocol test, had
    its hash emptied, and was serialised again. *)
Definition constructed (browser : Browser) (r : Request.t) : Prop :=
  exists urlString base u,
    URL_new browser urlString base = Some u
    /\ protocol_allowed (URL.protocol u) = true
    /\ Request.url r = URL.href (URL.clear_hash u).

(** The queues of the manager: no element, request or event object is
    queued twice, the queued event objects were all created by the
    probe, and the empty-loop counter is within its bounds. *)
Record manager_ok (buffer : Z) (created : nat) (m : EventLoopManager.t) : Prop := {
  ok_dom : NoDup (EventLoopManager._DOMAssessmentQueue m);
  ok_sent : NoDup (EventLoopManager._sentXHRQueue m);
  ok_done : NoDup (EventLoopManager._doneXHRQueue m);
  ok_created : Forall (fun pe => (PageEvent.oid pe < created)%nat)
                 (EventLoopManager._toBeTriggeredEventsQueue m);
  ok_distinct : NoDup (PageEvent.oid <$> EventLoopManager._toBeTriggeredEventsQueue m);
  ok_counter : 0 <= EventLoopManager._emptyLoopCounter m <= Z.max 0 buffer
}.

(** The records of the probe: one entry per element in the map of
    events, one record per element and event in the trigger history, and
    no key twice among the keys of the XHRs sent. *)
Record probe_ok (p : Probe.t) : Prop := {
  ok_map : NoDup (fst <$> Probe._eventsMap p);
  ok_triggered : NoDup (trigger_key <$> Probe._triggeredPageEvents p);
  ok_sentXHRs : NoDup (Probe.sentXHRs p)
}.

(** The reports: the keys remembered are the keys of the requests
    reported, in the order of the reports, and every reported request has
    one of the five types and a url as the constructor leaves it. *)
Record reports_ok (browser : Browser) (w : World) : Prop := {
  ok_seen : Probe.seenRequest (probe w) = reported_keys w;
  ok_reported : Forall (fun p => Request.type (fst p) ∈ request_types
                                 /\ constructed browser (fst p))
                  (reported w)
}.

(** The request kept on an XHR object is an xhr request as the
    constructor leaves it. *)
Definition xhrs_ok (browser : Browser) (w : World) : Prop :=
  forall x o r, xhrs w !! x = Some o -> XHR.__request o = Some r ->
                Request.type r = "xhr" /\ constructed browser r.

Record consistent (browser : Browser) (constants : Constants) (w : World) : Prop := {
  ok_manager : manager_ok (bufferCycleSize (eventLoopConfig constants)) (allocated w) (manager w);
  ok_probe : probe_ok (probe w);
  ok_reports : reports_ok browser w;
  ok_xhrs : xhrs_ok browser w
}.

(** ** Reading the head of a key

    A reader for the beginning of the strings that [JSON.stringify]
    makes of a request.  It is not part of the probe: it is the means to
    show that a key determines the type, the method and the url it was
    made of. *)

Module Reader.

Definition quote : ascii := ascii_of_nat 34.

(** The character a two-character escape stands for. *)
Definition unescape (e : ascii) : option ascii :=
  let n := nat_of_ascii e in
  if (n =? 34)%nat then Some e
  else if (n =? 92)%nat then Some e
  else if Ascii.eqb e "b" then Some (ascii_of_nat 8)
  else if Ascii.eqb e "t" then Some (ascii_of_nat 9)
  else if Ascii.eqb e "n" then Some (ascii_of_nat 10)
  else if Ascii.eqb e "f" then Some (ascii_of_nat 12)
  else if Ascii.eqb e "r" then Some (ascii_of_nat 13)
  else None.

Definition hex2 (a b : ascii) : option ascii :=
  match JS.digit_value a, JS.digit_value b with
  | Some x, Some y => Some (ascii_of_nat (Z.to_nat (x * 16 + y)))
  | _, _ => None
  end.

Definition cons_char (c : ascii) (r : option (string * string)) : option (string * string) :=
  match r with
  | Some (s, rest) => Some (String c s, rest)
  | None => None
  end.

(** The characters of a JSON string up to its closing quote, and what
    follows the quote. *)
Fixpoint chars (s : string) : option (string * string) :=
  match s with
  | EmptyString => None
  | String c r =>
      if Ascii.eqb c quote then Some (EmptyString, r)
      else if Ascii.eqb c "\" then
        match r with
        | String e r1 =>
            if Ascii.eqb e "u" then
              match r1 with
              | String _ (String _ (String a (String b r2))) =>
                  match hex2 a b with
                  | Some ch => cons_char ch (chars r2)
                  | None => None
                  end
              | _ => None
              end
            else
              match unescape e with
              | Some ch => cons_char ch (chars r1)
              | None => None
              end
        | EmptyString => None
        end
      else cons_char c (chars r)
  end.

(** A JSON string, and what follows it. *)
Definition json_string (s : string) : option (string * string) :=
  match s with
  | String c r => if Ascii.eqb c quote then chars r else None
  | EmptyString => None
  end.

(** What follows a given text. *)
Fixpoint expect (text s : string) : option string :=
  match text with
  | EmptyString => Some s
  | String a text' =>
      match s with
      | String b s' => if Ascii.eqb a b then expect text' s' else None
      | EmptyString => None
      end
  end.

Definition before_type : string := "{" +:+ JS.json_string "type" +:+ ":".
Definition before_method : string := "," +:+ JS.json_string "method" +:+ ":".
Definition before_url : string := "," +:+ JS.json_string "url" +:+ ":".
Definition before_data : string := "," +:+ JS.json_string "data" +:+ ":".

(** The type, the method and the url at the head of a key, and what
    follows them: the data and, when there is one, the trigger. *)
Definition head (key : string) : option (string * string * string * string) :=
  match expect before_type key with
  | Some s1 =>
  match json_string s1 with
  | Some (type, s2) =>
  match expect before_method s2 with
  | Some s3 =>
  match json_string s3 with
  | Some (method, s4) =>
  match expect before_url s4 with
  | Some s5 =>
  match json_string s5 with
  | Some (url, s6) =>
  match expect before_data s6 with
  | Some rest => Some (type, method, url, rest)
  | None => None end
  | None => None end
  | None => None end
  | None => None end
  | None => None end
  | None => None end
  | None => None end.

End Reader.

(** ** What a step of the probe shows to its surroundings *)

Definition is_report (e : Effect) : bool :=
  match e with
  | PROBE_FN_RETURN_REQUEST _ _ => true
  | _ => false
  end.

(** An effect that does not drive the crawl on: neither an event fired,
    nor a timer set, nor the end of the crawl signalled. *)
Definition is_quiet (e : Effect) : bool :=
  match e with
  | dispatchEvent _ _ _ | setTimeout _ _ | PROBE_FN_REQUEST_END => false
  | _ => true
  end.

Definition is_not_end (e : Effect) : bool :=
  match e with
  | PROBE_FN_REQUEST_END => false
  | _ => true
  end.

(** From [w] to [w'] the log of effects grew by effects of one kind
    only. *)
Definition emits_only (P : Effect -> bool) (w w' : World) : Prop :=
  exists es, effects w' = (effects w ++ es)%list /\ Forall (fun e => P e = true) es.

(** The trigger history. *)
Definition triggered (w : World) : list PageEvent.t := Probe._triggeredPageEvents (probe w).

(** What the analysis of an element and the reporting functions do at
    most: they report, they queue events and record them; they leave the
    XHR objects, the keys of the XHRs sent, the current event and the
    location alone. *)
Record analysis_step (w w' : World) : Prop := {
  step_effects : emits_only is_report w w';
  step_xhrs : xhrs w' = xhrs w;
  step_sentXHRs : Probe.sentXHRs (probe w') = Probe.sentXHRs (probe w);
  step_current : Probe._currentPageEvent (probe w') = Probe._currentPageEvent (probe w);
  step_pending : exists new, pending w' = (pending w ++ new)%list;
  step_triggered : exists new, triggered w' = (triggered w ++ new)%list;
  step_location : location_href (page w') = location_href (page w);
  step_all_elements : all_elements (page w') = all_elements (page w)
}.

(** No request is on the network, none is waiting for its settling
    delay, no element is to be analysed and no event is pending. *)
Definition idle (m : EventLoopManager.t) : Prop :=
  EventLoopManager._sentXHRQueue m = []
  /\ EventLoopManager._doneXHRQueue m = []
  /\ EventLoopManager._DOMAssessmentQueue m = []
  /\ EventLoopManager._toBeTriggeredEventsQueue m = [].

(** A message that the listener takes for a tick. *)
Definition is_tick (constants : Constants) (m : MessageEvent) : bool :=
  source_is_window m
  && String.eqb (Message.from (data m)) (Message.from (messageEvent (eventLoopConfig constants)))
  && String.eqb (Message.name (data m)) (Message.name (messageEvent (eventLoopConfig constants))).

Definition is_message (i : Input) : bool :=
  match i with
  | message _ => true
  | _ => false
  end.

Definition is_not_dispatch (e : Effect) : bool :=
  match e with
  | dispatchEvent _ _ _ => false
  | _ => true
  end.

(** ** Words for the functions of the probe *)

(** A record of the element and event is in the trigger history. *)
Definition fired (el : Node) (ev : string) (w : World) : bool :=
  existsb (fun recorded => bool_decide (PageEvent.element recorded = el)
                           && String.eqb (PageEvent.eventName recorded) ev)
    (triggered w).

(** The elements that a batch of mutation records names for analysis:
    the added nodes that are elements, and the targets of attribute
    mutations. *)
Fixpoint mutated_elements (ms : list MutationRecord) : list Node :=
  match ms with
  | [] => []
  | childList addedNodes :: rest =>
      (List.map fst (List.filter (fun n => snd n =? ELEMENT_NODE) addedNodes)
         ++ mutated_elements rest)%list
  | attributes target _ :: rest => target :: mutated_elements rest
  | characterData _ :: rest => mutated_elements rest
  end.

(** Two records of the element stand next to each other. *)
Fixpoint has_adjacent_records (el : Node) (array : list PageEvent.t) : bool :=
  match array with
  | a :: rest =>
      match rest with
      | b :: _ =>
          (bool_decide (PageEvent.element a = el) && bool_decide (PageEvent.element b = el))
          || has_adjacent_records el rest
      | [] => false
      end
  | [] => false
  end.

Definition is_record_of (el : Node) (pe : PageEvent.t) : bool :=
  bool_decide (PageEvent.element pe = el).

(** An effect other than handing the XHR object [x] to the original
    send. *)
Definition is_not_send_of (x : nat) (e : Effect) : bool :=
  match e with
  | originalSend y _ => negb (Nat.eqb y x)
  | _ => true
  end.

(** The XHR object [x] is marked as skipped, and from [w] to [w'] it was
    not handed to the original send. *)
Definition stays_skipped (x : nat) (w w' : World) : Prop :=
  XHR.__skipped (default XHR.new (xhrs w' !! x)) = true
  /\ emits_only (is_not_send_of x) w w'.

(** What a step of [_setVal] on [el] leaves as it is. *)
Definition fills_only (el : Node) (w w' : World) : Prop :=
  (forall el', el' <> el -> element_at (page w') el' = element_at (page w) el')
  /\ effects w' = effects w
  /\ triggered w' = triggered w
  /\ location_href (page w') = location_href (page w).


(** The network queues and the log of effects are the same in both. *)
Definition same_network_and_log (w w' : World) : Prop :=
  EventLoopManager._sentXHRQueue (manager w') = EventLoopManager._sentXHRQueue (manager w)
  /\ EventLoopManager._doneXHRQueue (manager w') = EventLoopManager._doneXHRQueue (manager w)
  /\ effects w' = effects w.


(** ** More of the demo *)

(** The options of the demo, with excluded urls. *)
Definition excluding (patterns : list string) : Options := {|
  fillValues := fillValues Demo.options;
  triggerEvents := triggerEvents Demo.options;
  inputValues := inputValues Demo.options;
  excludedUrls := patterns;
  overrideTimeoutFunctions := overrideTimeoutFunctions Demo.options |}.

(** A request that completed and was then seen as sent once more. *)
Definition sent_again : World :=
  Demo.go [xhr_open 7 "GET" "http://x/a"; xhr_readystatechange 7 4; xhr_readystatechange 7 1]
    (initial Demo.link_page).

(** An XHR object opened on an excluded url. *)
Definition opened_excluded : World :=
  run Demo.browser (excluding ["x/a"]) Demo.constants [xhr_open 7 "GET" "http://x/a"]
    (initial Demo.link_page).
(** ** Arrays *)

Section ArrayFacts.

Context {A : Type} `{EqDecision A}.

Lemma indexOf_from_absent (x : A) (l : list A) (i : Z) :
  x ∉ l -> Array.indexOf_from x l i = -1.
Proof.
  revert i. induction l as [|y l IH]; intros i Hx; simpl; [reflexivity|].
  destruct (decide (y = x)) as [->|Hne].
  - exfalso. apply Hx. left.
  - apply IH. intros Hin. apply Hx. right. exact Hin.
Qed.

Lemma indexOf_from_present (x : A) (l : list A) (i : Z) :
  x ∈ l ->
  i <= Array.indexOf_from x l i < i + Z.of_nat (List.length l)
  /\ l !! Z.to_nat (Array.indexOf_from x l i - i) = Some x.
Proof.
  revert i. induction l as [|y l IH]; intros i Hx; [inversion Hx|].
  simpl. destruct (decide (y = x)) as [->|Hne].
  - split; [lia|]. replace (i - i) with 0 by lia. reflexivity.
  - assert (Hin : x ∈ l) by (inversion Hx; subst; [congruence|assumption]).
    destruct (IH (i + 1) Hin) as [Hr Hl]. split; [lia|].
    replace (Z.to_nat (Array.indexOf_from x l (i + 1) - i))
      with (S (Z.to_nat (Array.indexOf_from x l (i + 1) - (i + 1)))) by lia.
    exact Hl.
Qed.

(** [l.indexOf(x) < 0] says that [x] is not in [l]. *)
Lemma indexOf_negative (x : A) (l : list A) :
  (Array.indexOf x l <? 0) = true <-> x ∉ l.
Proof.
  unfold Array.indexOf. split.
  - intros Hneg Hin. apply Z.ltb_lt in Hneg.
    destruct (indexOf_from_present x l 0 Hin) as [Hr _]. lia.
  - intros Hx. rewrite (indexOf_from_absent x l 0 Hx). reflexivity.
Qed.

Lemma indexOf_not_negative (x : A) (l : list A) :
  (Array.indexOf x l <? 0) = false <-> x ∈ l.
Proof.
  split.
  - intros Hge. destruct (decide (x ∈ l)) as [Hin|Hout]; [exact Hin|].
    apply indexOf_negative in Hout. congruence.
  - intros Hin. destruct (Array.indexOf x l <? 0) eqn:E; [|reflexivity].
    apply indexOf_negative in E. contradiction.
Qed.

Lemma indexOf_lookup (x : A) (l : list A) :
  x ∈ l -> l !! Z.to_nat (Array.indexOf x l) = Some x.
Proof.
  intros Hin. destruct (indexOf_from_present x l 0 Hin) as [_ Hl].
  unfold Array.indexOf. replace (Array.indexOf_from x l 0 - 0) with (Array.indexOf_from x l 0) in Hl by lia.
  exact Hl.
Qed.

End ArrayFacts.

(** ** Frame and invariant lemmas *)

Lemma reports_app (a b : list Effect) : reports (a ++ b) = (reports a ++ reports b)%list.
Proof.
  induction a as [|e a IH]; simpl; [reflexivity|].
  destruct e; simpl; rewrite IH; reflexivity.
Qed.

Lemma calls_emit (e : Effect) (w : World) :
  calls (emit e w) = (calls w + (if is_entered e then 1 else 0))%nat.
Proof.
  unfold calls, emit; simpl. rewrite List.filter_app, List.length_app. simpl.
  destruct (is_entered e); reflexivity.
Qed.

Lemma preserves_refl (w : World) : preserves w w.
Proof. split; auto. Qed.

Lemma preserves_trans (w1 w2 w3 : World) :
  preserves w1 w2 -> preserves w2 w3 -> preserves w1 w3.
Proof.
  intros [] []. split; try congruence; auto.
Qed.

Lemma preserves_fold_left {B : Type} (f : World -> B -> World) (l : list B) (w : World) :
  (forall w x, preserves w (f w x)) -> preserves w (fold_left f l w).
Proof.
  intros Hf. revert w. induction l as [|x l IH]; intros w; simpl.
  - apply preserves_refl.
  - eapply preserves_trans; [apply Hf | apply IH].
Qed.

Lemma preserves_set_page (pg : Page) (w : World) : preserves w (set_page pg w).
Proof. split; auto. Qed.

Lemma preserves_set_xhrs (x : gmap nat XHR.t) (w : World) : preserves w (set_xhrs x w).
Proof. split; auto. Qed.

Lemma preserves_PageEvent_new (el : Node) (ev : string) (w : World) :
  preserves w (snd (PageEvent_new el ev w)).
Proof. split; auto. Qed.

Lemma preserves_set_eventsMap (l : list (Node * list string)) (w : World) :
  preserves w (update_probe (Probe.set_eventsMap l) w).
Proof. split; auto. Qed.

Lemma preserves_set_sentXHRs (f : Probe.t -> list string) (w : World) :
  preserves w (update_probe (fun p => Probe.set_sentXHRs (f p) p) w).
Proof. split; auto. Qed.

Lemma preserves_set_triggered (f : Probe.t -> list PageEvent.t) (w : World) :
  preserves w (update_probe (fun p => Probe.set_triggeredPageEvents (f p) p) w).
Proof. split; auto. Qed.

Lemma preserves_set_currentPageEvent (e : option PageEvent.t) (w : World) :
  preserves w (update_probe (Probe.set_currentPageEvent e) w).
Proof. split; auto. Qed.

Lemma reported_emit_plain (e : Effect) (w : World) :
  is_plain e = true -> reported (emit e w) = reported w.
Proof.
  intros He. unfold reported, emit; simpl. rewrite reports_app.
  destruct e; simpl in *; try discriminate; apply app_nil_r.
Qed.

Lemma preserves_emit (e : Effect) (w : World) :
  is_plain e = true -> preserves w (emit e w).
Proof.
  intros He. split; auto.
  - rewrite calls_emit. destruct e; simpl in *; try discriminate; lia.
  - unfold dedup_ok, reported_keys. rewrite (reported_emit_plain e w He). auto.
Qed.

Lemma preserves_update_manager_events (f : EventLoopManager.t -> EventLoopManager.t) (w : World) :
  (forall m, EventLoopManager._sentXHRQueue (f m) = EventLoopManager._sentXHRQueue m) ->
  (forall m, EventLoopManager._doneXHRQueue (f m) = EventLoopManager._doneXHRQueue m) ->
  (forall m, EventLoopManager._DOMAssessmentQueue (f m) = EventLoopManager._DOMAssessmentQueue m) ->
  (forall m, EventLoopManager._emptyLoopCounter (f m) = EventLoopManager._emptyLoopCounter m) ->
  (forall m, EventLoopManager._isReadyToClose (f m) = EventLoopManager._isReadyToClose m) ->
  (events_ok w -> Forall (fun pe => PageEvent.eventName pe ∉ never_triggered)
                    (EventLoopManager._toBeTriggeredEventsQueue (f (manager w)))) ->
  preserves w (update_manager f w).
Proof.
  intros Hs Hd Hq Hc Hr He.
  assert (Hm : manager (update_manager f w) = f (manager w)) by reflexivity.
  split; rewrite ?Hm; auto.
Qed.

Section Preservation.

Variable browser : Browser.
Variable options : Options.
Variable constants : Constants.

Lemma preserves_printRequest (r : Request.t) (w : World) : preserves w (printRequest r w).
Proof.
  unfold printRequest.
  destruct (Array.indexOf (Request.key (page w) r) (Probe.seenRequest (probe w)) <? 0) eqn:E;
    [|apply preserves_refl].
  apply indexOf_negative in E.
  split; simpl; auto.
  - rewrite calls_emit. simpl. unfold calls. simpl. lia.
  - intros (Hnd & Hseen & Hjson). unfold dedup_ok, reported_keys, reported in *. simpl.
    rewrite reports_app, List.map_app. simpl. split; [|split].
    + apply NoDup_app. split; [exact Hnd|]. split.
      * intros k Hk Hk'. apply list_elem_of_singleton in Hk'. subst k.
        apply E. apply Hseen. exact Hk.
      * apply NoDup_singleton.
    + intros k Hk. unfold Array.push. apply elem_of_app in Hk. apply elem_of_app.
      destruct Hk as [Hk|Hk]; [left; apply Hseen; exact Hk|right; exact Hk].
    + apply Forall_app. split; [exact Hjson|].
      constructor; [|constructor]. exists (page w). reflexivity.
Qed.

Lemma preserves_print_or_warn (req : JS.result Request.t) (w : World) :
  preserves w (print_or_warn req w).
Proof.
  destruct req; simpl; [apply preserves_printRequest | apply preserves_refl].
Qed.

Lemma preserves_printLink (url : string) (w : World) : preserves w (printLink browser url w).
Proof. apply preserves_print_or_warn. Qed.

Lemma preserves_printWebsocket (url : string) (w : World) :
  preserves w (printWebsocket browser url w).
Proof. apply preserves_print_or_warn. Qed.

Lemma preserves_printJSONP (n : Node) (w : World) : preserves w (printJSONP browser n w).
Proof.
  unfold printJSONP.
  destruct (_ && _); [|apply preserves_refl].
  destruct (_getAbsoluteUrl _ _ _ _); [|apply preserves_refl].
  destruct (JS.truthy _); [apply preserves_print_or_warn | apply preserves_refl].
Qed.

Lemma preserves_addEventToMap (el : Node) (ev : string) (w : World) :
  preserves w (addEventToMap el ev w).
Proof.
  unfold addEventToMap. destruct (addEventToMap_loop _ _ _); apply preserves_set_eventsMap.
Qed.

Lemma preserves_mapElementEvents (el : Node) (w : World) :
  preserves w (_mapElementEvents constants el w).
Proof.
  unfold _mapElementEvents. apply preserves_fold_left. intros w' ev.
  destruct (bool_decide _); [apply preserves_addEventToMap | apply preserves_refl].
Qed.

(** Scheduling an event keeps the queue clean when the event may be fired. *)
Lemma preserves_trigger (pe : PageEvent.t) (w : World) :
  PageEvent.eventName pe ∉ never_triggered -> preserves w (_trigger pe w).
Proof.
  intros Hok. unfold _trigger. apply preserves_update_manager_events;
    try (intros m; unfold EventLoopManager.scheduleEventTriggering;
         destruct (_ <? 0); reflexivity).
  intros Hev. unfold EventLoopManager.scheduleEventTriggering.
  destruct (_ <? 0); simpl; [|exact Hev].
  unfold Array.push. apply Forall_app. split; [exact Hev|].
  constructor; [exact Hok|constructor].
Qed.

Lemma preserves_triggerElementEvents (el : Node) (w : World) :
  preserves w (_triggerElementEvents constants el w).
Proof.
  unfold _triggerElementEvents. apply preserves_fold_left. intros w' ev.
  simpl. destruct (bool_decide (ev ∈ never_triggered)) eqn:E; simpl.
  - apply (preserves_PageEvent_new el ev w').
  - destruct (negb _).
    + eapply preserves_trans; [apply (preserves_PageEvent_new el ev w')|].
      eapply preserves_trans; [apply preserves_set_triggered|].
      apply preserves_trigger. simpl. apply bool_decide_eq_false in E. exact E.
    + apply (preserves_PageEvent_new el ev w').
Qed.

Lemma preserves_assign_value (el : Node) (v : string) (w : World) :
  preserves w (assign_value el v w).
Proof. apply preserves_set_page. Qed.

Lemma preserves_triggerChange (el : Node) (w : World) : preserves w (triggerChange el w).
Proof.
  unfold triggerChange. simpl.
  eapply preserves_trans; [apply (preserves_PageEvent_new el "input" w)|].
  apply preserves_trigger. simpl.
  apply (proj1 (bool_decide_eq_false _)). reflexivity.
Qed.

Lemma preserves_setVal (el : Node) (w : World) :
  preserves w (_setVal browser options constants el w).
Proof.
  unfold _setVal.
  repeat match goal with
         | |- preserves _ (if ?c then _ else _) => destruct c
         | |- preserves ?w ?w => apply preserves_refl
         | |- preserves _ (triggerChange _ _) =>
             eapply preserves_trans; [|apply preserves_triggerChange]
         | |- preserves _ (assign_value _ _ _) => apply preserves_assign_value
         | |- preserves _ (set_page _ _) => apply preserves_set_page
         end.
Qed.

Lemma preserves_printRequestFromForm (el : Node) (w : World) :
  preserves w (_printRequestFromForm browser el w).
Proof.
  unfold _printRequestFromForm.
  destruct (String.eqb _ _); [apply preserves_print_or_warn | apply preserves_refl].
Qed.

Lemma preserves_printRequestFromATag (el : Node) (w : World) :
  preserves w (_printRequestFromATag browser el w).
Proof.
  unfold _printRequestFromATag.
  destruct (_ && _); [apply preserves_printLink | apply preserves_refl].
Qed.

(** The analysis of an element leaves the network queues, the
    DOM-assessment queue, the debounce counter and the closing flag as
    they are, starts no action, and keeps both invariants. *)
Lemma preserves_analyzeDOMElement (el : Node) (w : World) :
  preserves w (_analyzeDOMElement browser options constants el w).
Proof.
  unfold _analyzeDOMElement. cbv zeta.
  assert (Hfill : preserves w
            (if fillValues options
             then fold_left (fun w0 el0 => _setVal browser options constants el0 w0)
                    (Element.descendants
                       (element_at (page (_mapElementEvents constants el w)) el))
                    (_mapElementEvents constants el w)
             else _mapElementEvents constants el w)).
  { destruct (fillValues options).
    - eapply preserves_trans; [apply preserves_mapElementEvents|].
      apply preserves_fold_left. intros w' x. apply preserves_setVal.
    - apply preserves_mapElementEvents. }
  destruct (triggerEvents options).
  - eapply preserves_trans; [|apply preserves_triggerElementEvents].
    eapply preserves_trans; [|apply preserves_printRequestFromATag].
    eapply preserves_trans; [|apply preserves_printRequestFromForm].
    exact Hfill.
  - eapply preserves_trans; [|apply preserves_printRequestFromATag].
    eapply preserves_trans; [|apply preserves_printRequestFromForm].
    exact Hfill.
Qed.

End Preservation.

(** ** The scheduler's actions *)

Lemma preserves_keeps (w w' : World) : preserves w w' -> keeps w w'.
Proof. intros []. split; assumption. Qed.

Lemma keeps_refl (w : World) : keeps w w.
Proof. split; auto. Qed.

Lemma keeps_trans (w1 w2 w3 : World) : keeps w1 w2 -> keeps w2 w3 -> keeps w1 w3.
Proof. intros [] []. split; try congruence; auto. Qed.

Lemma keeps_safe (w w' : World) : keeps w w' -> safe w w'.
Proof. intros []. split; assumption. Qed.

Lemma safe_refl (w : World) : safe w w.
Proof. split; auto. Qed.

Lemma safe_trans (w1 w2 w3 : World) : safe w1 w2 -> safe w2 w3 -> safe w1 w3.
Proof. intros [] []. split; auto. Qed.

Lemma safe_fold_left {B : Type} (f : World -> B -> World) (l : list B) (w : World) :
  (forall w x, safe w (f w x)) -> safe w (fold_left f l w).
Proof.
  intros Hf. revert w. induction l as [|x l IH]; intros w; simpl.
  - apply safe_refl.
  - eapply safe_trans; [apply Hf | apply IH].
Qed.

(** A change of the manager that leaves the pending events clean. *)
Lemma safe_update_manager (f : EventLoopManager.t -> EventLoopManager.t) (w : World) :
  (forall m, Forall (fun pe => PageEvent.eventName pe ∉ never_triggered)
               (EventLoopManager._toBeTriggeredEventsQueue m) ->
             Forall (fun pe => PageEvent.eventName pe ∉ never_triggered)
               (EventLoopManager._toBeTriggeredEventsQueue (f m))) ->
  safe w (update_manager f w).
Proof.
  intros Hf. split; [|auto]. unfold events_ok, pending.
  change (manager (update_manager f w)) with (f (manager w)). apply Hf.
Qed.

Lemma keeps_update_manager (f : EventLoopManager.t -> EventLoopManager.t) (w : World) :
  (forall m, EventLoopManager._emptyLoopCounter (f m) = EventLoopManager._emptyLoopCounter m) ->
  (forall m, Forall (fun pe => PageEvent.eventName pe ∉ never_triggered)
               (EventLoopManager._toBeTriggeredEventsQueue m) ->
             Forall (fun pe => PageEvent.eventName pe ∉ never_triggered)
               (EventLoopManager._toBeTriggeredEventsQueue (f m))) ->
  keeps w (update_manager f w).
Proof.
  intros Hc Hf. split; auto.
  - change (manager (update_manager f w)) with (f (manager w)). apply Hc.
  - unfold events_ok, pending.
    change (manager (update_manager f w)) with (f (manager w)). apply Hf.
Qed.

Lemma Forall_removelast {A : Type} (P : A -> Prop) (l : list A) :
  Forall P l -> Forall P (removelast l).
Proof.
  induction 1 as [|x l Hx Hl IH]; simpl; [constructor|].
  destruct l; [constructor|]. constructor; assumption.
Qed.

Lemma keeps_emit (e : Effect) (w : World) : is_plain e = true -> keeps w (emit e w).
Proof. intros He. apply preserves_keeps, preserves_emit, He. Qed.

Lemma scheduleDOMAssessment_events (el : Node) (m : EventLoopManager.t) :
  EventLoopManager._toBeTriggeredEventsQueue (EventLoopManager.scheduleDOMAssessment el m)
  = EventLoopManager._toBeTriggeredEventsQueue m.
Proof. unfold EventLoopManager.scheduleDOMAssessment. destruct (_ <? 0); reflexivity. Qed.

Lemma sentXHR_events (x : nat) (m : EventLoopManager.t) :
  EventLoopManager._toBeTriggeredEventsQueue (EventLoopManager.sentXHR x m)
  = EventLoopManager._toBeTriggeredEventsQueue m.
Proof. unfold EventLoopManager.sentXHR. destruct (_ <? 0); reflexivity. Qed.

Lemma doneXHR_events (x : nat) (m : EventLoopManager.t) :
  EventLoopManager._toBeTriggeredEventsQueue (EventLoopManager.doneXHR x m)
  = EventLoopManager._toBeTriggeredEventsQueue m.
Proof.
  unfold EventLoopManager.doneXHR. destruct (_ <? 0); [|reflexivity].
  destruct (0 <=? _); reflexivity.
Qed.

Lemma keeps_set_events (q : list PageEvent.t) (w : World) :
  (events_ok w -> Forall (fun pe => PageEvent.eventName pe ∉ never_triggered) q) ->
  keeps w (update_manager (EventLoopManager.set_toBeTriggeredEventsQueue q) w).
Proof. intros Hq. split; auto. Qed.

Section Scheduler.

Variable browser : Browser.
Variable options : Options.
Variable constants : Constants.

Lemma keeps_originalSetTimeout (callback : Callback) (delay : Z) (w : World) :
  keeps w (originalSetTimeout options callback delay w).
Proof.
  unfold originalSetTimeout.
  destruct (overrideTimeoutFunctions options); [apply keeps_emit; reflexivity | apply keeps_refl].
Qed.

(** What [trigger] comes to: the event is dispatched, or nothing is. *)
Lemma PageEvent_trigger_cases (pe : PageEvent.t) (w : World) :
  (exists eventType,
     PageEvent.event_type pe = JS.Ok eventType
     /\ PageEvent_trigger pe w
        = JS.Ok (emit (dispatchEvent (PageEvent.element pe) eventType
                         (PageEvent.eventName pe)) w))
  \/ (exists e, PageEvent.event_type pe = JS.Throw e /\ PageEvent_trigger pe w = JS.Throw e).
Proof.
  unfold PageEvent_trigger. destruct (PageEvent.event_type pe) as [ty|e]; simpl.
  - left. exists ty. split; reflexivity.
  - right. exists e. split; reflexivity.
Qed.

(** After its entry is recorded, an action keeps the counter, starts no
    further action, and keeps both invariants. *)
Lemma doNextAction_keeps (w : World) :
  keeps (emit entered_doNextAction w) (_doNextAction browser options constants w).
Proof.
  unfold _doNextAction. cbv zeta.
  set (w0 := emit entered_doNextAction w).
  destruct (0 <? Array.length (EventLoopManager._sentXHRQueue (manager w0))).
  { eapply keeps_trans; [|apply keeps_emit; reflexivity].
    apply keeps_update_manager; auto. }
  destruct (0 <? Array.length (EventLoopManager._doneXHRQueue (manager w0))).
  { eapply keeps_trans; [|apply keeps_originalSetTimeout].
    eapply keeps_trans; [|apply keeps_update_manager; auto].
    apply keeps_update_manager; auto. }
  destruct (0 <? Array.length (EventLoopManager._DOMAssessmentQueue (manager w0))).
  { destruct (Array.shift (EventLoopManager._DOMAssessmentQueue (manager w0))) as [[el|] rest].
    - eapply keeps_trans; [|apply keeps_emit; reflexivity].
      eapply keeps_trans; [|apply preserves_keeps, preserves_analyzeDOMElement].
      eapply keeps_trans; [|apply keeps_update_manager; auto].
      apply keeps_update_manager; auto.
    - apply keeps_update_manager; auto. }
  destruct (0 <? Array.length (EventLoopManager._toBeTriggeredEventsQueue (manager w0))).
  { unfold Array.pop.
    destruct (List.last (List.map Some (EventLoopManager._toBeTriggeredEventsQueue (manager w0))) None)
      as [pe|].
    - match goal with
      | |- keeps _ (match PageEvent_trigger _ ?w1 with _ => _ end) =>
          assert (Hpopped : keeps w0 w1);
          [|destruct (PageEvent_trigger_cases pe w1) as [(ty & _ & E)|(e & _ & E)]; rewrite E]
      end.
      + eapply keeps_trans;
          [|apply preserves_keeps, (preserves_set_currentPageEvent (Some pe))].
        eapply keeps_trans.
        * apply (keeps_update_manager (EventLoopManager.set_isReadyToClose false)); auto.
        * apply keeps_set_events. intros Hev. apply Forall_removelast. exact Hev.
      + eapply keeps_trans; [|apply keeps_originalSetTimeout].
        eapply keeps_trans; [exact Hpopped | apply keeps_emit; reflexivity].
      + exact Hpopped.
    - apply keeps_update_manager; auto. }
  destruct (EventLoopManager._isReadyToClose (manager w0));
    [apply keeps_emit; reflexivity | apply keeps_originalSetTimeout].
Qed.

Lemma doNextAction_counter (w : World) :
  EventLoopManager._emptyLoopCounter (manager (_doNextAction browser options constants w))
  = EventLoopManager._emptyLoopCounter (manager w).
Proof. apply (keeps_counter _ _ (doNextAction_keeps w)). Qed.

(** Every call of [_doNextAction] is recorded once. *)
Lemma doNextAction_calls (w : World) :
  calls (_doNextAction browser options constants w) = S (calls w).
Proof.
  rewrite (keeps_calls _ _ (doNextAction_keeps w)), calls_emit. simpl. lia.
Qed.

(** C2. When the sent-request queue is not empty, [_doNextAction] takes
    nothing from any queue: the sent-request, completed-request,
    DOM-assessment and pending-event queues are as before, and the one
    thing it does is to post the tick message again.  (It also clears
    the closing flag; nothing else of the probe, the page or the XHR
    objects changes.) *)
Theorem doNextAction_waits_while_requests_are_sent (w : World) :
  EventLoopManager._sentXHRQueue (manager w) <> [] ->
  let w' := _doNextAction browser options constants w in
  EventLoopManager._sentXHRQueue (manager w') = EventLoopManager._sentXHRQueue (manager w)
  /\ EventLoopManager._doneXHRQueue (manager w') = EventLoopManager._doneXHRQueue (manager w)
  /\ EventLoopManager._DOMAssessmentQueue (manager w')
     = EventLoopManager._DOMAssessmentQueue (manager w)
  /\ EventLoopManager._toBeTriggeredEventsQueue (manager w')
     = EventLoopManager._toBeTriggeredEventsQueue (manager w)
  /\ effects w' = (effects w ++ [entered_doNextAction; postMessage])%list
  /\ probe w' = Probe.set_eventLoopManager
                  (EventLoopManager.set_isReadyToClose false (manager w)) (probe w)
  /\ page w' = page w /\ xhrs w' = xhrs w /\ allocated w' = allocated w.
Proof.
  intros Hsent. unfold _doNextAction. cbv zeta.
  assert (Hlen : (0 <? Array.length
                         (EventLoopManager._sentXHRQueue (manager (emit entered_doNextAction w))))
                 = true).
  { change (manager (emit entered_doNextAction w)) with (manager w).
    destruct (EventLoopManager._sentXHRQueue (manager w)); [congruence|].
    unfold Array.length. simpl. apply Z.ltb_lt. lia. }
  rewrite Hlen. simpl. rewrite <- app_assoc. simpl. repeat split; reflexivity.
Qed.

(** C9. With [bufferCycleSize] 2 and the empty-loop counter at 0, three
    tick messages in a row start exactly one action: the first and the
    second only post a tick again and add one to the counter, the third
    sets the counter back to 0 and runs [_doNextAction], once. *)
Theorem three_idle_ticks_start_one_action (w : World) (tick : MessageEvent) :
  bufferCycleSize (config constants) = 2 ->
  EventLoopManager._emptyLoopCounter (manager w) = 0 ->
  source_is_window tick = true ->
  Message.from (data tick) = Message.from (messageEvent (config constants)) ->
  Message.name (data tick) = Message.name (messageEvent (config constants)) ->
  let w1 := eventMessageHandler browser options constants tick w in
  let w2 := eventMessageHandler browser options constants tick w1 in
  let w3 := eventMessageHandler browser options constants tick w2 in
  (w1 = update_manager (EventLoopManager.set_emptyLoopCounter 1) (emit postMessage w)
   /\ calls w1 = calls w)
  /\ (w2 = update_manager (EventLoopManager.set_emptyLoopCounter 2) (emit postMessage w1)
      /\ calls w2 = calls w)
  /\ (w3 = _doNextAction browser options constants
             (update_manager (EventLoopManager.set_emptyLoopCounter 0) w2)
      /\ EventLoopManager._emptyLoopCounter (manager w3) = 0
      /\ calls w3 = S (calls w)).
Proof.
  intros Hbuf Hzero Hsrc Hfrom Hname. cbv zeta.
  assert (Htick : forall v,
    eventMessageHandler browser options constants tick v =
    if EventLoopManager._emptyLoopCounter (manager v) <? 2 then
      update_manager
        (fun m => EventLoopManager.set_emptyLoopCounter
                    (EventLoopManager._emptyLoopCounter m + 1) m) (emit postMessage v)
    else _doNextAction browser options constants
           (update_manager (EventLoopManager.set_emptyLoopCounter 0) v)).
  { intros v. unfold eventMessageHandler. rewrite Hsrc, Hfrom, Hname, !String.eqb_refl, Hbuf.
    reflexivity. }
  assert (H1 : eventMessageHandler browser options constants tick w
               = update_manager (EventLoopManager.set_emptyLoopCounter 1) (emit postMessage w)).
  { rewrite Htick, Hzero. simpl. unfold update_manager. simpl.
    change (manager (emit postMessage w)) with (manager w). rewrite Hzero. reflexivity. }
  rewrite H1.
  set (w1 := update_manager (EventLoopManager.set_emptyLoopCounter 1) (emit postMessage w)).
  assert (H2 : eventMessageHandler browser options constants tick w1
               = update_manager (EventLoopManager.set_emptyLoopCounter 2) (emit postMessage w1)).
  { rewrite Htick. reflexivity. }
  rewrite H2.
  set (w2 := update_manager (EventLoopManager.set_emptyLoopCounter 2) (emit postMessage w1)).
  assert (Hc1 : calls w1 = calls w).
  { unfold w1, calls. simpl. rewrite List.filter_app, List.length_app. simpl. lia. }
  assert (Hc2 : calls w2 = calls w).
  { rewrite <- Hc1. unfold w2, calls. simpl. rewrite !List.filter_app, !List.length_app.
    simpl. lia. }
  assert (H3 : eventMessageHandler browser options constants tick w2
               = _doNextAction browser options constants
                   (update_manager (EventLoopManager.set_emptyLoopCounter 0) w2)).
  { rewrite Htick. reflexivity. }
  rewrite H3. repeat split; try assumption.
  - rewrite doNextAction_counter. reflexivity.
  - rewrite doNextAction_calls. f_equal. exact Hc2.
Qed.

End Scheduler.

(** ** Every input keeps the invariants *)

Lemma preserves_safe (w w' : World) : preserves w w' -> safe w w'.
Proof. intros []. split; assumption. Qed.

Lemma safe_emit_entered (w : World) : safe w (emit entered_doNextAction w).
Proof.
  split; [auto|]. unfold dedup_ok, reported_keys, reported, emit. simpl.
  rewrite reports_app. simpl. rewrite app_nil_r. auto.
Qed.

Lemma safe_scheduleDOMAssessment (el : Node) (w : World) :
  safe w (update_manager (EventLoopManager.scheduleDOMAssessment el) w).
Proof.
  apply safe_update_manager. intros m Hm. rewrite scheduleDOMAssessment_events. exact Hm.
Qed.

Lemma safe_iter (f : World -> World) (n : nat) (w : World) :
  (forall w, safe w (f w)) -> safe w (Nat.iter n f w).
Proof.
  intros Hf. induction n as [|n IH]; simpl.
  - apply safe_refl.
  - eapply safe_trans; [apply IH | apply Hf].
Qed.

Section Inputs.

Variable browser : Browser.
Variable options : Options.
Variable constants : Constants.

Lemma safe_doNextAction (w : World) : safe w (_doNextAction browser options constants w).
Proof.
  eapply safe_trans; [apply safe_emit_entered | apply keeps_safe, doNextAction_keeps].
Qed.

Lemma safe_eventMessageHandler (m : MessageEvent) (w : World) :
  safe w (eventMessageHandler browser options constants m w).
Proof.
  unfold eventMessageHandler.
  destruct (_ && _); [|apply safe_refl].
  destruct (String.eqb _ _).
  - destruct (_ <? _).
    + cbv zeta. eapply safe_trans; [|apply safe_update_manager; auto].
      apply preserves_safe, preserves_emit. reflexivity.
    + cbv zeta. eapply safe_trans; [|apply safe_doNextAction].
      apply safe_update_manager. auto.
  - destruct (String.eqb _ _); [apply preserves_safe, preserves_printLink | apply safe_refl].
Qed.

Lemma safe_run_callback (cb : Callback) (w : World) : safe w (run_callback cb w).
Proof.
  destruct cb; simpl.
  - apply preserves_safe, preserves_emit. reflexivity.
  - eapply safe_trans; [|apply preserves_safe, preserves_emit; reflexivity].
    apply safe_update_manager. auto.
Qed.

Lemma safe_startAnalysis (w : World) : safe w (startAnalysis w).
Proof.
  unfold startAnalysis, start. cbv zeta.
  eapply safe_trans; [|apply preserves_safe, preserves_emit; reflexivity].
  apply safe_fold_left. intros w' el. apply safe_scheduleDOMAssessment.
Qed.

Lemma safe_nodeMutated (ms : list MutationRecord) (w : World) : safe w (nodeMutated ms w).
Proof.
  unfold nodeMutated. apply safe_fold_left. intros w' [added|el attr|el].
  - apply safe_fold_left. intros w'' n.
    destruct (_ =? _); [apply safe_scheduleDOMAssessment | apply safe_refl].
  - cbv zeta. eapply safe_trans; [|apply safe_scheduleDOMAssessment].
    apply preserves_safe, preserves_set_triggered.
  - apply safe_refl.
Qed.

Lemma safe_hook_XHR_open (x : nat) (method url : string) (w : World) :
  safe w (hook_XHR_open browser x method url w).
Proof.
  unfold hook_XHR_open. cbv zeta.
  eapply safe_trans; [|apply preserves_safe, preserves_emit; reflexivity].
  destruct (Request_new _ _ _ _ _ _ _); [apply preserves_safe, preserves_set_xhrs | apply safe_refl].
Qed.

Lemma safe_on_readystatechange (x : nat) (readyState : Z) (w : World) :
  safe w (on_readystatechange x readyState w).
Proof.
  unfold on_readystatechange. apply safe_iter. intros w'.
  unfold readystatechange_listener.
  destruct (_ && _).
  - apply safe_update_manager. intros m Hm. rewrite sentXHR_events. exact Hm.
  - destruct (_ =? _); [|apply safe_refl].
    apply safe_update_manager. intros m Hm. rewrite doneXHR_events. exact Hm.
Qed.

Lemma safe_hook_XHR_send (x : nat) (d : option string) (w : World) :
  safe w (hook_XHR_send browser options x d w).
Proof.
  unfold hook_XHR_send. cbv zeta.
  destruct (XHR.__request (xhr_at w x)) as [r|]; [|apply safe_refl].
  match goal with
  | |- safe _ (if ?c then _ else _) => destruct c
  end.
  - apply preserves_safe, preserves_set_xhrs.
  - match goal with
    | |- safe _ (if ?c then _ else _) => destruct c
    end.
    + eapply safe_trans; [|apply preserves_safe, preserves_emit; reflexivity].
      eapply safe_trans; [|apply preserves_safe, preserves_printRequest].
      eapply safe_trans; [|apply preserves_safe, preserves_set_sentXHRs].
      apply preserves_safe, preserves_set_xhrs.
    + eapply safe_trans; [|apply preserves_safe, preserves_printRequest].
      eapply safe_trans; [|apply preserves_safe, preserves_set_sentXHRs].
      apply preserves_safe, preserves_set_xhrs.
Qed.

Lemma safe_handle (i : Input) (w : World) : safe w (handle browser options constants i w).
Proof.
  destruct i; simpl.
  - apply safe_eventMessageHandler.
  - apply safe_run_callback.
  - apply safe_startAnalysis.
  - apply safe_nodeMutated.
  - unfold hook_Node_addEventListener.
    destruct (negb _); [apply preserves_safe, preserves_addEventToMap | apply safe_refl].
  - unfold hook_window_addEventListener.
    destruct (negb _); [apply preserves_safe, preserves_addEventToMap | apply safe_refl].
  - apply safe_hook_XHR_open.
  - apply safe_on_readystatechange.
  - apply safe_hook_XHR_send.
  - apply preserves_safe, preserves_printJSONP.
  - apply preserves_safe, preserves_printWebsocket.
  - apply preserves_safe, preserves_print_or_warn.
  - apply preserves_safe, preserves_printLink.
  - apply preserves_safe, preserves_set_page.
Qed.

Lemma safe_run (inputs : list Input) (w : World) :
  safe w (run browser options constants inputs w).
Proof.
  unfold run. apply safe_fold_left. intros w' i. apply safe_handle.
Qed.

Lemma initial_events_ok (pg : Page) : events_ok (initial pg).
Proof. constructor. Qed.

Lemma initial_dedup_ok (pg : Page) : dedup_ok (initial pg).
Proof.
  split; [constructor|]. split; [|constructor]. intros k Hk. inversion Hk.
Qed.

(** C6. Whatever the page and whatever the inputs of the crawl, no
    PageEvent named load, unload or beforeunload is in the pending-event
    queue. *)
Theorem load_events_are_never_pending (pg : Page) (inputs : list Input) :
  Forall (fun pe => PageEvent.eventName pe ∉ ["load"; "unload"; "beforeunload"])
    (EventLoopManager._toBeTriggeredEventsQueue
       (manager (run browser options constants inputs (initial pg)))).
Proof.
  apply (proj1 (safe_run inputs (initial pg))). apply initial_events_ok.
Qed.

End Inputs.

(** ** Urls *)

Lemma append_nil_l (t : string) : EmptyString +:+ t = t.
Proof. reflexivity. Qed.

Lemma append_cons (a : ascii) (s t : string) : String a s +:+ t = String a (s +:+ t).
Proof. reflexivity. Qed.

Lemma append_assoc (a b c : string) : (a +:+ b) +:+ c = a +:+ (b +:+ c).
Proof.
  induction a as [|x a IH]; [reflexivity|].
  rewrite !append_cons, IH. reflexivity.
Qed.

Lemma contains_char_app (c : ascii) (a b : string) :
  JS.contains_char c (a +:+ b) = JS.contains_char c a || JS.contains_char c b.
Proof.
  induction a as [|d a IH]; [reflexivity|].
  rewrite append_cons. cbn [JS.contains_char].
  rewrite IH. apply orb_assoc.
Qed.

Lemma prefix_cons (a c : ascii) (p s : string) :
  String.prefix (String a p) (String c s) = if ascii_dec a c then String.prefix p s else false.
Proof. reflexivity. Qed.

(** A scheme followed by its colon starts with [p:] only when it is [p]. *)
Lemma prefix_up_to_colon (p s : string) :
  JS.contains_char ":" p = false -> JS.contains_char ":" s = false ->
  String.prefix (p +:+ ":") (s +:+ ":") = true -> s = p.
Proof.
  revert s. induction p as [|a p IH]; intros s Hp Hs Hpre.
  - destruct s as [|c s]; [reflexivity|].
    rewrite append_nil_l, append_cons, prefix_cons in Hpre.
    destruct (ascii_dec ":" c) as [<-|Hne]; [|discriminate].
    simpl in Hs. discriminate.
  - cbn [JS.contains_char] in Hp. apply orb_false_elim in Hp as [Ha Hp].
    destruct s as [|c s]; rewrite ?append_nil_l, ?append_cons, prefix_cons in Hpre.
    + destruct (ascii_dec a ":") as [->|Hne]; [|discriminate].
      simpl in Ha. discriminate.
    + destruct (ascii_dec a c) as [<-|Hne]; [|discriminate].
      cbn [JS.contains_char] in Hs. apply orb_false_elim in Hs as [_ Hs].
      f_equal. apply IH; assumption.
Qed.

Lemma protocol_allowed_scheme (s : string) :
  JS.contains_char ":" s = false ->
  protocol_allowed (s +:+ ":") = true <-> s ∈ allowed_schemes.
Proof.
  intros Hs. split.
  - unfold protocol_allowed, JS.startsWith. intros H.
    repeat (apply orb_prop in H as [H|H]);
      (first [ apply (prefix_up_to_colon "http" s) in H
             | apply (prefix_up_to_colon "https" s) in H
             | apply (prefix_up_to_colon "ftp" s) in H
             | apply (prefix_up_to_colon "sftp" s) in H
             | apply (prefix_up_to_colon "javascript" s) in H ];
       [subst s|reflexivity|exact Hs]);
      apply (bool_decide_unpack _); reflexivity.
  - unfold allowed_schemes. intros H.
    repeat (apply elem_of_cons in H as [->|H]; [reflexivity|]).
    inversion H.
Qed.

Section Urls.

Variable browser : Browser.

(** What the constructor does, by cases on the parse of the url. *)
Lemma Request_new_cases (pg : Page) (type method urlString : string)
    (d : option string) (t : option PageEvent.t) :
  Request_new browser pg type method urlString d t =
  match URL_new browser urlString (location_href pg) with
  | None => JS.Throw (JS.TypeError "Invalid URL")
  | Some u =>
      if protocol_allowed (URL.protocol u) then
        JS.Ok {| Request.type := type; Request.method := method;
                 Request.url := URL.href (URL.clear_hash u);
                 Request.data := Request.or_null d; Request.triggerer := t |}
      else JS.Throw (JS.TypeError ("Wrong protocol type: " +:+ URL.protocol u))
  end.
Proof.
  unfold Request_new, _getAbsoluteUrl.
  destruct (URL_new browser urlString (location_href pg)) as [u|]; [|reflexivity].
  destruct (protocol_allowed (URL.protocol u)); reflexivity.
Qed.

Lemma append_nil_r (s : string) : s +:+ EmptyString = s.
Proof. induction s as [|a s IH]; [reflexivity|]. rewrite append_cons, IH. reflexivity. Qed.

(** C5. The construction of a Request from a url string throws exactly
    when the scheme of the url, resolved against the current document
    location, is not one of http, https, ftp, sftp and javascript (a
    string that does not resolve has no scheme, and throws as well); and
    the url kept by a constructed Request is the absolute form of the
    url string: the serialisation of the URL that the string resolves
    to, whose scheme is one of the five, up to its fragment. *)
Theorem Request_new_throws_iff_scheme_not_allowed (pg : Page) (type method urlString : string)
    (d : option string) (t : option PageEvent.t) :
  parsed_wf browser pg urlString = true ->
  ((exists e, Request_new browser pg type method urlString d t = JS.Throw e)
   <-> ~ (exists s, resolved_scheme browser pg urlString = Some s /\ s ∈ allowed_schemes))
  /\ (forall r, Request_new browser pg type method urlString d t = JS.Ok r ->
        absolute_form browser pg urlString = Some (Request.url r)
        /\ exists u, URL_new browser urlString (location_href pg) = Some u
                     /\ URL.scheme u ∈ allowed_schemes
                     /\ Request.url r = URL.href (URL.clear_hash u)).
Proof.
  unfold parsed_wf, resolved_scheme, absolute_form. intros Hwf. rewrite Request_new_cases.
  destruct (URL_new browser urlString (location_href pg)) as [u|]; simpl.
  - assert (Hcolon : JS.contains_char ":" (URL.scheme u) = false).
    { unfold URL.wf in Hwf. destruct (JS.contains_char ":" (URL.scheme u)); [discriminate|reflexivity]. }
    pose proof (protocol_allowed_scheme (URL.scheme u) Hcolon) as Hallowed.
    unfold URL.protocol in *.
    destruct (protocol_allowed (URL.scheme u +:+ ":")) eqn:E.
    + split.
      * split.
        -- intros [e He]. discriminate.
        -- intros Hno. exfalso. apply Hno. exists (URL.scheme u). split; [reflexivity|].
           apply Hallowed. reflexivity.
      * intros r Hr. injection Hr as <-. simpl. split.
        -- unfold URL.href, URL.protocol, URL.fragment_part. simpl.
           change (URL.query_part (URL.clear_hash u)) with (URL.query_part u).
           rewrite append_nil_r, append_assoc. reflexivity.
        -- exists u. split; [reflexivity|]. split; [apply Hallowed; reflexivity | reflexivity].
    + split.
      * split.
        -- intros _ [s [Hs Hin]]. injection Hs as <-.
           apply Hallowed in Hin. congruence.
        -- intros _. eexists. reflexivity.
      * intros r Hr. discriminate.
  - split.
    + split.
      * intros _ [s [Hs _]]. discriminate.
      * intros _. eexists. reflexivity.
    + intros r Hr. discriminate.
Qed.

(** C10. The url kept by a constructed Request has no fragment: it is
    the serialisation of the parsed url with its hash emptied, and it
    holds no hash sign, whatever the url string given, with or without a
    fragment. *)
Theorem Request_url_has_no_fragment (pg : Page) (type method urlString : string)
    (d : option string) (t : option PageEvent.t) (r : Request.t) :
  parsed_wf browser pg urlString = true ->
  Request_new browser pg type method urlString d t = JS.Ok r ->
  JS.contains_char "#" (Request.url r) = false
  /\ exists u, URL_new browser urlString (location_href pg) = Some u
               /\ Request.url r = URL.href (URL.clear_hash u)
               /\ URL.hash (URL.clear_hash u) = EmptyString.
Proof.
  unfold parsed_wf. intros Hwf. rewrite Request_new_cases.
  destruct (URL_new browser urlString (location_href pg)) as [u|]; [|discriminate].
  destruct (protocol_allowed (URL.protocol u)); [|discriminate].
  intros Hr. injection Hr as <-. simpl. split.
  - unfold URL.wf in Hwf.
    apply andb_prop in Hwf as [Hwf Hq]. apply andb_prop in Hwf as [Hwf Hb].
    apply andb_prop in Hwf as [_ Hs].
    apply negb_true_iff in Hq, Hb, Hs.
    unfold URL.href, URL.protocol, URL.fragment_part. simpl.
    rewrite !contains_char_app.
    change (URL.query_part (URL.clear_hash u)) with (URL.query_part u).
    rewrite Hs, Hb, Hq. reflexivity.
  - exists u. repeat split.
Qed.

End Urls.

(** ** The network queues *)

(** Removing the place where [x] is found removes [x] from a list that
    holds it once. *)
Lemma splice_indexOf_removes (x : nat) (l : list nat) :
  NoDup l -> x ∈ l -> x ∉ Array.splice1 (Z.to_nat (Array.indexOf x l)) l.
Proof.
  intros Hnd Hin. unfold Array.splice1.
  pose proof (indexOf_lookup x l Hin) as Hl.
  rewrite delete_take_drop.
  rewrite <- (take_drop_middle l _ x Hl) in Hnd.
  apply NoDup_app in Hnd as (_ & Hdisj & Hnd).
  apply NoDup_cons in Hnd as [Hx _].
  intros Hx'. apply elem_of_app in Hx' as [Hx'|Hx'].
  - apply (Hdisj x Hx'). left.
  - apply Hx, Hx'.
Qed.

Lemma NoDup_push (x : nat) (l : list nat) : NoDup l -> x ∉ l -> NoDup (Array.push x l).
Proof.
  intros Hnd Hx. unfold Array.push. apply NoDup_app. split; [exact Hnd|]. split.
  - intros y Hy Hy'. apply list_elem_of_singleton in Hy'. subst y. contradiction.
  - apply NoDup_singleton.
Qed.

Lemma sentXHR_ok (request : nat) (m : EventLoopManager.t) :
  request ∉ EventLoopManager._doneXHRQueue m ->
  network_queues_ok m -> network_queues_ok (EventLoopManager.sentXHR request m).
Proof.
  intros Hfresh (Hs & Hd & Hdisj). unfold EventLoopManager.sentXHR.
  destruct (Array.indexOf request (EventLoopManager._sentXHRQueue m) <? 0) eqn:E;
    [|repeat split; assumption].
  apply indexOf_negative in E.
  split; [|split]; simpl.
  - apply NoDup_push; assumption.
  - exact Hd.
  - intros x [Hx Hx']. simpl in Hx, Hx'. unfold Array.push in Hx.
    apply elem_of_app in Hx as [Hx|Hx].
    + apply (Hdisj x). split; assumption.
    + apply list_elem_of_singleton in Hx. subst x. contradiction.
Qed.

(** What [doneXHR] does with a request that is not yet in the completed
    queue: out of the sent queue, into the completed queue. *)
Lemma doneXHR_moves (request : nat) (m : EventLoopManager.t) :
  NoDup (EventLoopManager._sentXHRQueue m) ->
  request ∉ EventLoopManager._doneXHRQueue m ->
  let m' := EventLoopManager.doneXHR request m in
  (request ∉ EventLoopManager._sentXHRQueue m')
  /\ (request ∈ EventLoopManager._doneXHRQueue m')
  /\ (forall x, x ∈ EventLoopManager._sentXHRQueue m' -> x ∈ EventLoopManager._sentXHRQueue m)
  /\ NoDup (EventLoopManager._sentXHRQueue m')
  /\ EventLoopManager._doneXHRQueue m' = (EventLoopManager._doneXHRQueue m ++ [request])%list.
Proof.
  intros Hs Hfresh. cbv zeta. unfold EventLoopManager.doneXHR.
  apply indexOf_negative in Hfresh. rewrite Hfresh.
  destruct (0 <=? Array.indexOf request (EventLoopManager._sentXHRQueue m)) eqn:E; simpl.
  - assert (Hin : request ∈ EventLoopManager._sentXHRQueue m).
    { apply indexOf_not_negative. apply Z.leb_le in E. apply Z.ltb_ge. exact E. }
    split; [apply splice_indexOf_removes; assumption|].
    split; [unfold Array.push; apply elem_of_app; right; left|].
    split; [intros x Hx; eapply list_elem_of_delete_inv; exact Hx|].
    split; [|reflexivity].
    eapply sublist_NoDup; [exact Hs | apply sublist_delete].
  - assert (Hout : request ∉ EventLoopManager._sentXHRQueue m).
    { apply indexOf_negative. apply Z.leb_gt in E. apply Z.ltb_lt. exact E. }
    split; [exact Hout|].
    split; [unfold Array.push; apply elem_of_app; right; left|].
    auto.
Qed.

Lemma doneXHR_ok (request : nat) (m : EventLoopManager.t) :
  network_queues_ok m -> network_queues_ok (EventLoopManager.doneXHR request m).
Proof.
  intros (Hs & Hd & Hdisj).
  destruct (decide (request ∈ EventLoopManager._doneXHRQueue m)) as [Hin|Hout].
  - unfold EventLoopManager.doneXHR.
    apply indexOf_not_negative in Hin. rewrite Hin. repeat split; assumption.
  - destruct (doneXHR_moves request m Hs Hout) as (Hgone & _ & Hsub & Hs' & Hd').
    split; [exact Hs'|]. split.
    + rewrite Hd'. apply NoDup_push; assumption.
    + intros x [Hx Hx']. rewrite Hd' in Hx'. apply elem_of_app in Hx' as [Hx'|Hx'].
      * apply (Hdisj x). split; [apply Hsub, Hx | exact Hx'].
      * apply list_elem_of_singleton in Hx'. subst x. contradiction.
Qed.

Lemma run_calls_sent_NoDup (cs : list XHRCall) (m : EventLoopManager.t) :
  NoDup (EventLoopManager._sentXHRQueue m) ->
  NoDup (EventLoopManager._sentXHRQueue (run_calls cs m)).
Proof.
  revert m. induction cs as [|c cs IH]; intros m Hs; simpl; [exact Hs|].
  apply IH. destruct c as [r|r]; simpl.
  - unfold EventLoopManager.sentXHR.
    destruct (Array.indexOf r (EventLoopManager._sentXHRQueue m) <? 0) eqn:E; [|exact Hs].
    simpl. apply NoDup_push; [exact Hs|]. apply indexOf_negative. exact E.
  - unfold EventLoopManager.doneXHR.
    destruct (Array.indexOf r (EventLoopManager._doneXHRQueue m) <? 0); [|exact Hs].
    destruct (0 <=? _); simpl; [|exact Hs].
    eapply sublist_NoDup; [exact Hs | apply sublist_delete].
Qed.

Lemma run_calls_ok (cs : list XHRCall) (m : EventLoopManager.t) :
  never_resent cs m = true -> network_queues_ok m -> network_queues_ok (run_calls cs m).
Proof.
  revert m. induction cs as [|c cs IH]; intros m Hcs Hm; simpl; [exact Hm|].
  simpl in Hcs. apply andb_prop in Hcs as [Hc Hcs].
  apply IH; [exact Hcs|].
  destruct c as [r|r]; simpl.
  - apply sentXHR_ok; [|exact Hm].
    apply negb_true_iff, bool_decide_eq_false in Hc. exact Hc.
  - apply doneXHR_ok. exact Hm.
Qed.

Lemma new_queues_ok : network_queues_ok EventLoopManager.new.
Proof.
  split; [constructor|]. split; [constructor|].
  intros r [Hr _]. inversion Hr.
Qed.

(** As long as no [sentXHR] comes for a request that is in the completed
    queue at that moment, no request is in the sent-request queue and in
    the completed-request queue at once; and, whatever the sequence, a
    [doneXHR] for a request that is not yet in the completed queue takes
    it out of the sent queue and puts it into the completed queue. *)
Lemma network_queues_disjoint_unless_resent (cs : list XHRCall) :
  (never_resent cs EventLoopManager.new = true ->
   forall request, ~ in_both_queues request (run_calls cs EventLoopManager.new))
  /\ (forall request,
        request ∉ EventLoopManager._doneXHRQueue (run_calls cs EventLoopManager.new) ->
        let m' := EventLoopManager.doneXHR request (run_calls cs EventLoopManager.new) in
        (request ∉ EventLoopManager._sentXHRQueue m')
        /\ (request ∈ EventLoopManager._doneXHRQueue m')).
Proof.
  split.
  - intros Hcs. apply (run_calls_ok cs EventLoopManager.new Hcs new_queues_ok).
  - intros request Hfresh.
    destruct (doneXHR_moves request (run_calls cs EventLoopManager.new)) as (H1 & H2 & _).
    + apply run_calls_sent_NoDup. constructor.
    + exact Hfresh.
    + split; assumption.
Qed.

(** C7, where the code departs from it.  [doneXHR] takes the request out
    of the sent queue before it puts it into the completed queue, but
    [sentXHR] looks at the sent queue only: a request that completed and
    is sent again before the scheduler took it from the completed queue
    (an XMLHttpRequest object that is opened and sent a second time) is
    pushed to the sent queue while it stays in the completed queue.  It
    is then in both queues, and the [doneXHR] that follows the second
    send finds it in the completed queue and changes nothing, so that it
    stays in the sent queue. *)
Theorem sentXHR_puts_a_completed_request_in_both_queues :
  let m1 := run_calls [call_sentXHR 1; call_doneXHR 1] EventLoopManager.new in
  let m := EventLoopManager.sentXHR 1 m1 in
  EventLoopManager._sentXHRQueue m1 = []
  /\ EventLoopManager._doneXHRQueue m1 = [1%nat]
  /\ EventLoopManager._sentXHRQueue m = [1%nat]
  /\ EventLoopManager._doneXHRQueue m = [1%nat]
  /\ in_both_queues 1 m
  /\ EventLoopManager.doneXHR 1 m = m.
Proof.
  cbv zeta. repeat split; try reflexivity; apply (bool_decide_unpack _); reflexivity.
Qed.

(** ** Filling number inputs *)

Section Values.

Variable browser : Browser.
Variable options : Options.
Variable constants : Constants.

(** The value [_setVal] gives to a number or range input. *)
Lemma setVal_number_cases (n : nat) (w : World) :
  let e := element_at (page w) (node n) in
  let e' := element_at (page (_setVal browser options constants (node n) w)) (node n) in
  JS.toLowerCase (Element.tagName e) = "input" ->
  JS.toLowerCase (Element.type e) = "number" \/ JS.toLowerCase (Element.type e) = "range" ->
  (* a min and a step property: min + step *)
  (forall min step, Element.min e = Some min -> JS.truthy min = true ->
     Element.step e = Some step ->
     Element.value e' = JS.Number_toString (JS.add (JS.parseInt min) (JS.parseInt step)))
  (* a min and no step property in the object: min + 1 *)
  /\ (forall min, Element.min e = Some min -> JS.truthy min = true ->
        Element.step e = None ->
        Element.value e' = JS.Number_toString (JS.add (JS.parseInt min) (Some 1)))
  (* no min, or an empty one: the number of the configured values *)
  /\ (Element.min e = None \/ Element.min e = Some EmptyString ->
      Element.value e'
      = JS.Number_toString (JS.parseInt (to_DOMString (getRandomValue options "number")))).
Proof.
  cbv zeta. intros Htag Htype.
  assert (Hset : forall v,
    Element.value
      (element_at (page (triggerChange (node n) (assign_value (node n) v w))) (node n)) = v).
  { intros v. unfold triggerChange, assign_value, element_at. simpl.
    rewrite lookup_insert_eq. reflexivity. }
  assert (Hval : _setVal browser options constants (node n) w =
    triggerChange (node n)
      (assign_value (node n)
         (JS.Number_toString
            match Element.min (element_at (page w) (node n)) with
            | Some min =>
                if JS.truthy min then
                  JS.add (JS.parseInt min)
                    (JS.parseInt
                       match Element.step (element_at (page w) (node n)) with
                       | Some step => step
                       | None => "1"
                       end)
                else JS.parseInt (to_DOMString (getRandomValue options "number"))
            | None => JS.parseInt (to_DOMString (getRandomValue options "number"))
            end) w)).
  { unfold _setVal. cbv zeta. rewrite Htag. destruct Htype as [-> | ->]; reflexivity. }
  rewrite Hval, Hset. repeat split.
  - intros min step -> -> ->. reflexivity.
  - intros min -> -> ->. reflexivity.
  - intros [-> | ->]; reflexivity.
Qed.

End Values.

(** C4, where the code departs from it.  An input of type number with
    min 5 and no step attribute has the empty string as its [step]
    property, as every input element of a page has; [_setVal] then adds
    [parseInt('')], which is NaN, and the value it assigns is NaN, not
    the 6 that a default step of 1 gives. *)
Theorem setVal_number_without_step_assigns_NaN :
  let pg := Demo.page_of [(2%nat, Demo.number_input "5" (Some EmptyString))] in
  let w' := _setVal Demo.browser Demo.options Demo.constants (node 2) (initial pg) in
  Element.type (element_at pg (node 2)) = "number"
  /\ Element.min (element_at pg (node 2)) = Some "5"
  /\ Element.step (element_at pg (node 2)) = Some EmptyString
  /\ Element.value (element_at (page w') (node 2)) = "NaN"
  /\ JS.Number_toString (JS.add (JS.parseInt "5") (Some 1)) = "6".
Proof. vm_compute. repeat split. Qed.

(** ** Attribute mutations *)

Lemma purge_from_past_the_end (element : Node) (index remaining : nat)
    (array : list PageEvent.t) :
  (List.length array <= index)%nat -> purge_from element index remaining array = array.
Proof.
  revert index. induction remaining as [|n IH]; intros index Hlen; simpl; [reflexivity|].
  rewrite (proj2 (lookup_ge_None array index)) by lia.
  apply IH. lia.
Qed.

Lemma purge_from_result (element : Node) (remaining : nat) (done rest : list PageEvent.t) :
  (List.length rest <= remaining)%nat ->
  purge_from element (List.length done) remaining (done ++ rest)
  = (done ++ purge_result element rest)%list.
Proof.
  revert done rest. induction remaining as [|n IH]; intros done rest Hlen.
  - destruct rest; [reflexivity | simpl in Hlen; lia].
  - destruct rest as [|pageEvent rest].
    + cbn [purge_result]. rewrite !app_nil_r. apply purge_from_past_the_end. lia.
    + cbn [purge_from purge_result]. rewrite lookup_app_r by lia.
      rewrite Nat.sub_diag. cbn [lookup list_lookup].
      simpl in Hlen.
      destruct (bool_decide (PageEvent.element pageEvent = element)).
      * unfold Array.splice1. rewrite delete_take_drop.
        rewrite take_app_length. rewrite drop_app_ge by lia.
        replace (S (List.length done) - List.length done)%nat with 1%nat by lia.
        cbn [drop]. rewrite drop_0.
        destruct rest as [|next rest'].
        -- rewrite !app_nil_r. apply purge_from_past_the_end. lia.
        -- replace (done ++ next :: rest')%list with ((done ++ [next]) ++ rest')%list
             by (rewrite <- app_assoc; reflexivity).
           replace (S (List.length done)) with (List.length (done ++ [next]))
             by (rewrite List.length_app; simpl; lia).
           rewrite IH by (simpl in Hlen; lia).
           rewrite <- app_assoc. reflexivity.
      * replace (done ++ pageEvent :: rest)%list with ((done ++ [pageEvent]) ++ rest)%list
          by (rewrite <- app_assoc; reflexivity).
        replace (S (List.length done)) with (List.length (done ++ [pageEvent]))
          by (rewrite List.length_app; simpl; lia).
        rewrite IH by lia.
        rewrite <- app_assoc. reflexivity.
Qed.

(** The purge drops a record of the element and steps over the record
    after it. *)
Lemma purge_triggered_result (element : Node) (array : list PageEvent.t) :
  purge_triggered element array = purge_result element array.
Proof.
  unfold purge_triggered. apply (purge_from_result element (List.length array) [] array). lia.
Qed.

(** A single record of the element is removed. *)
Example purge_single_record :
  let click := {| PageEvent.oid := 0; PageEvent.element := node 1;
                  PageEvent.eventName := "click" |} in
  let other := {| PageEvent.oid := 1; PageEvent.element := node 2;
                  PageEvent.eventName := "click" |} in
  purge_triggered (node 1) [other; click] = [other].
Proof. reflexivity. Qed.

(** C3, where the code departs from it.  An element whose click and
    mouseover events were both triggered has two records, next to each
    other, in the trigger history.  An attribute mutation of the element
    removes the first; the [forEach] then moves on to the next index and
    never looks at the second, which stays.  The element is put into the
    DOM-assessment queue, but its mouseover event still counts as
    triggered. *)
Theorem attribute_mutation_keeps_a_trigger_record :
  let w := Demo.analysed in
  let w' := Demo.go [mutations [attributes (node 1) "onclick"]] w in
  let click := {| PageEvent.oid := 0; PageEvent.element := node 1;
                  PageEvent.eventName := "click" |} in
  let mouseover := {| PageEvent.oid := 2; PageEvent.element := node 1;
                      PageEvent.eventName := "mouseover" |} in
  Probe._triggeredPageEvents (probe w) = [click; mouseover]
  /\ Probe._triggeredPageEvents (probe w') = [mouseover]
  /\ EventLoopManager._DOMAssessmentQueue (manager w') = [node 1]
  /\ _isPageEventAlreadyTriggered
       {| PageEvent.oid := 3; PageEvent.element := node 1;
          PageEvent.eventName := "mouseover" |} w' = true.
Proof. vm_compute. repeat split. Qed.

(** ** Forms *)

Lemma upper_G (c : ascii) : Ascii.eqb (JS.upper_ascii c) "G" = Ascii.eqb (JS.lower_ascii c) "g".
Proof. destruct c as [[] [] [] [] [] [] [] []]; reflexivity. Qed.

Lemma upper_E (c : ascii) : Ascii.eqb (JS.upper_ascii c) "E" = Ascii.eqb (JS.lower_ascii c) "e".
Proof. destruct c as [[] [] [] [] [] [] [] []]; reflexivity. Qed.

Lemma upper_T (c : ascii) : Ascii.eqb (JS.upper_ascii c) "T" = Ascii.eqb (JS.lower_ascii c) "t".
Proof. destruct c as [[] [] [] [] [] [] [] []]; reflexivity. Qed.

(** The method is GET in capitals exactly when it is get in small
    letters. *)
Lemma toUpperCase_GET (m : string) :
  String.eqb (JS.toUpperCase m) "GET" = String.eqb (JS.toLowerCase m) "get".
Proof.
  destruct m as [|a [|b [|c [|d m]]]]; try reflexivity; simpl;
    rewrite ?upper_G, ?upper_E, ?upper_T; reflexivity.
Qed.

Lemma form_method_is_get (f : Element.t) : String.eqb (form_method f) "GET" = is_get_form f.
Proof.
  unfold form_method, is_get_form.
  destruct (Element.getAttribute "method" f) as [m|]; [|reflexivity].
  destruct m as [|a m]; [reflexivity|].
  cbn [JS.truthy String.eqb orb]. apply toUpperCase_GET.
Qed.

Lemma form_url_target (pg : Page) (f : Element.t) : form_url pg f = spec_target pg f.
Proof.
  unfold form_url, spec_target.
  destruct (Element.getAttribute "action" f) as [[|a s]|]; reflexivity.
Qed.

Lemma form_inputs_fields (pg : Page) (form : Node) : form_inputs pg form = fields pg form.
Proof.
  unfold form_inputs, fields.
  induction (List.map (element_at pg) (Element.descendants (element_at pg form))) as [|e l IH];
    [reflexivity|].
  simpl. rewrite IH.
  replace (is_form_control e) with (is_field e); [reflexivity|].
  unfold is_field, is_form_control. cbv zeta.
  destruct (String.eqb_spec (JS.toLowerCase (Element.tagName e)) "input") as [->|Hi];
    [reflexivity|].
  destruct (String.eqb_spec (JS.toLowerCase (Element.tagName e)) "select") as [->|Hs];
    [reflexivity|].
  destruct (String.eqb_spec (JS.toLowerCase (Element.tagName e)) "textarea") as [->|Ht];
    [reflexivity|].
  symmetry. apply bool_decide_eq_false_2.
  intros H. repeat (apply elem_of_cons in H as [H|H]; [congruence|]). inversion H.
Qed.

Lemma not_in_list (x : string) (l : list string) :
  forallb (fun y => negb (String.eqb x y)) l = true -> bool_decide (x ∈ l) = false.
Proof.
  intros H. apply bool_decide_eq_false_2. intros Hin.
  induction l as [|y l IH]; [inversion Hin|].
  simpl in H. apply andb_prop in H as [Hy Hl].
  apply elem_of_cons in Hin as [->|Hin].
  - rewrite String.eqb_refl in Hy. discriminate.
  - apply IH; assumption.
Qed.

(** Over controls of an HTML document with neither reset nor image
    buttons, the loop over the inputs collects the contributing fields,
    in order. *)
Lemma form_data_loop_contributes (inputs : list Element.t) (data : list string) :
  forallb plain_control inputs = true ->
  form_data_loop inputs data
  = (data ++ List.map pair_of (List.filter contributes inputs))%list.
Proof.
  revert data. induction inputs as [|input rest IH]; intros data Hplain; simpl.
  - rewrite app_nil_r. reflexivity.
  - simpl in Hplain. apply andb_prop in Hplain as [Hinput Hrest].
    specialize (fun data => IH data Hrest).
    assert (Hpush : forall data,
               form_data_loop rest (Array.push (form_par input) data)
               = (data ++ pair_of input :: List.map pair_of (List.filter contributes rest))%list).
    { intros data'. rewrite IH. unfold Array.push. rewrite <- app_assoc. reflexivity. }
    unfold contributes, is_named, is_button, is_checkbox_or_radio.
    destruct (Element.name input) as [|a nm] eqn:Ename; [apply IH|].
    cbn [JS.truthy negb String.eqb andb].
    unfold plain_control in Hinput.
    destruct (String.eqb (Element.tagName input) "INPUT") eqn:Etag.
    + apply String.eqb_eq in Etag. unfold is_input in *. rewrite Etag in *.
      change (String.eqb (JS.toLowerCase "INPUT") "input") with true in *.
      cbn [andb] in *. apply negb_true_iff in Hinput.
      destruct (JS.toLowerCase (Element.type input) =? "button")%string eqn:Eb;
        [apply String.eqb_eq in Eb; rewrite Eb; simpl; apply IH|].
      destruct (JS.toLowerCase (Element.type input) =? "submit")%string eqn:Es;
        [apply String.eqb_eq in Es; rewrite Es; simpl; apply IH|].
      apply bool_decide_eq_false in Hinput.
      apply String.eqb_neq in Eb, Es.
      rewrite (bool_decide_eq_false_2 (_ ∈ ["button"; "submit"; "reset"; "image"])).
      2:{ intros H. apply elem_of_cons in H as [H|H]; [congruence|].
          apply elem_of_cons in H as [H|H]; [congruence|]. contradiction. }
      cbn [negb orb].
      destruct (JS.toLowerCase (Element.type input) =? "checkbox")%string eqn:Ec.
      { apply String.eqb_eq in Ec. rewrite Ec. simpl.
        destruct (Element.checked input); simpl; [apply Hpush | apply IH]. }
      destruct (JS.toLowerCase (Element.type input) =? "radio")%string eqn:Er.
      { apply String.eqb_eq in Er. rewrite Er. simpl.
        destruct (Element.checked input); simpl; [apply Hpush | apply IH]. }
      apply String.eqb_neq in Ec, Er.
      rewrite (bool_decide_eq_false_2 (_ ∈ ["checkbox"; "radio"]));
        [|intros H; repeat (apply elem_of_cons in H as [H|H]; [congruence|]); inversion H].
      simpl. apply Hpush.
    + destruct (is_input input) eqn:Ei; [discriminate|].
      simpl. apply Hpush.
Qed.

Section Forms.

Variable browser : Browser.

Lemma form_data_spec (pg : Page) (form : Node) :
  forallb plain_control (fields pg form) = true ->
  form_data pg form = spec_form_data pg form.
Proof.
  intros Hplain. unfold form_data, spec_form_data.
  rewrite form_inputs_fields, form_data_loop_contributes by exact Hplain. reflexivity.
Qed.

(** The Request made of a form of an HTML document that has neither
    reset nor image buttons: its target is the action attribute, and
    the current document location when that attribute is absent; its
    data is made of the named input, select and textarea descendants
    that are not buttons, a checkbox or radio button counting only when
    checked; a GET form - and a form is one when its method attribute
    is absent - has the data as the query of the target url and no
    body; any other form has method POST and the data as its body.  The
    url kept is the target as the Request constructor normalises it. *)
Lemma getFormAsRequest_without_reset_or_image (pg : Page) (form : Node) (r : Request.t) :
  forallb plain_control (fields pg form) = true ->
  getFormAsRequest browser pg form = JS.Ok r ->
  let f := element_at pg form in
  let data := spec_form_data pg form in
  Request.type r = "form"
  /\ exists u, URL_new browser (spec_target pg f) (location_href pg) = Some u
     /\ if is_get_form f then
          Request.method r = "GET"
          /\ Request.data r = None
          /\ exists u', URL_new browser (URL.href (URL.set_search data u)) (location_href pg)
                        = Some u'
                        /\ Request.url r = URL.href (URL.clear_hash u')
        else
          Request.method r = "POST"
          /\ Request.data r = Request.or_null (Some data)
          /\ Request.url r = URL.href (URL.clear_hash u).
Proof.
  intros Hplain. cbv zeta. unfold getFormAsRequest.
  rewrite form_data_spec, form_method_is_get, form_url_target by exact Hplain.
  set (f := element_at pg form). set (target := spec_target pg f).
  set (data := spec_form_data pg form).
  destruct (is_get_form f).
  - unfold _getAbsoluteUrl.
    destruct (URL_new browser target (location_href pg)) as [u|]; [|discriminate].
    destruct (negb (protocol_allowed (URL.protocol u))); [discriminate|].
    simpl. rewrite Request_new_cases.
    destruct (URL_new browser (URL.href (URL.set_search data u)) (location_href pg))
      as [u'|] eqn:Eu'; [|discriminate].
    destruct (protocol_allowed (URL.protocol u')); [|discriminate].
    intros Hr. injection Hr as <-. simpl.
    split; [reflexivity|]. exists u. split; [reflexivity|].
    split; [reflexivity|]. split; [reflexivity|].
    exists u'. split; [first [exact Eu' | reflexivity] | reflexivity].
  - rewrite Request_new_cases.
    destruct (URL_new browser target (location_href pg)) as [u|]; [|discriminate].
    destruct (protocol_allowed (URL.protocol u)); [|discriminate].
    intros Hr. injection Hr as <-. simpl.
    split; [reflexivity|]. exists u. split; [reflexivity|]. repeat split.
Qed.

End Forms.

(** A form with neither method nor action: a GET to the document
    location, with the text field and the checked radio button as the
    query; the checkbox that is not checked and the submit button are
    left out. *)
Example getFormAsRequest_get_form :
  spec_form_data Demo.get_form_page (node 1) = "q=a%20b&r=x"
  /\ getFormAsRequest Demo.browser Demo.get_form_page (node 1)
     = JS.Ok {| Request.type := "form"; Request.method := "GET";
                Request.url := "http://x/p?q=a%20b&r=x";
                Request.data := None; Request.triggerer := None |}.
Proof. split; reflexivity. Qed.

(** A form with method post and action /s: a POST to /s of the
    document's site, with the data as body. *)
Example getFormAsRequest_post_form :
  spec_form_data Demo.post_form_page (node 1) = "a=1"
  /\ is_get_form (element_at Demo.post_form_page (node 1)) = false
  /\ getFormAsRequest Demo.browser Demo.post_form_page (node 1)
     = JS.Ok {| Request.type := "form"; Request.method := "POST"; Request.url := "http://x/s";
                Request.data := Some "a=1"; Request.triggerer := None |}.
Proof. repeat split. Qed.

(** A form with method get in small letters and action /s: a GET to /s
    with the data as the query. *)
Example getFormAsRequest_get_in_small_letters :
  let pg := Demo.page_of [(1%nat, Demo.form [("method", "get"); ("action", "/s")] [node 2]);
                          (2%nat, Demo.input "text" "a" "1" false)] in
  is_get_form (element_at pg (node 1)) = true
  /\ getFormAsRequest Demo.browser pg (node 1)
     = JS.Ok {| Request.type := "form"; Request.method := "GET"; Request.url := "http://x/s?a=1";
                Request.data := None; Request.triggerer := None |}.
Proof. repeat split. Qed.

(** C8, where the code departs from it.  Of the inputs of a form the
    code leaves out those of type button and submit only: a reset
    button and an image button with a name are serialised like any
    field.  For a form with a text field q, a reset button r and an
    image button img, the data made of the named fields that are not
    buttons is q=a; the Request of the code has q=a&r=Reset&img= as the
    query of its url. *)
Theorem getFormAsRequest_serialises_reset_and_image_buttons :
  let pg := Demo.reset_form_page in
  fields pg (node 1) = [element_at pg (node 2); element_at pg (node 3); element_at pg (node 4)]
  /\ is_button (element_at pg (node 2)) = false
  /\ is_button (element_at pg (node 3)) = true
  /\ is_button (element_at pg (node 4)) = true
  /\ spec_form_data pg (node 1) = "q=a"
  /\ form_data pg (node 1) = "q=a&r=Reset&img="
  /\ getFormAsRequest Demo.browser pg (node 1)
     = JS.Ok {| Request.type := "form"; Request.method := "GET";
                Request.url := "http://x/p?q=a&r=Reset&img=";
                Request.data := None; Request.triggerer := None |}.
Proof. vm_compute. repeat split. Qed.

(** ** Reports *)

Lemma lookup_map {A B : Type} (f : A -> B) (l : list A) (i : nat) :
  List.map f l !! i = option_map f (l !! i).
Proof.
  revert i. induction l as [|x l IH]; intros [|i]; simpl; try reflexivity. apply IH.
Qed.

Section Reports.

Variable browser : Browser.
Variable options : Options.
Variable constants : Constants.

Lemma run_dedup_ok (pg : Page) (inputs : list Input) :
  dedup_ok (run browser options constants inputs (initial pg)).
Proof.
  apply (proj2 (safe_run browser options constants inputs (initial pg))).
  apply initial_dedup_ok.
Qed.

(** C1, as the code has it.  Over a whole crawl, of the requests with
    identical type, method, url and data whose trigger is rendered alike
    in the reported object (no trigger for either, or the same element
    string and event name), at most one is handed to the result sink. *)
Theorem one_report_per_request_and_trigger (pg : Page) (inputs : list Input)
    (i j : nat) (r1 r2 : Request.t) (o1 o2 : Request.json) :
  let w := run browser options constants inputs (initial pg) in
  reported w !! i = Some (r1, o1) ->
  reported w !! j = Some (r2, o2) ->
  same_request r1 r2 ->
  Request.j_trigger o1 = Request.j_trigger o2 ->
  i = j.
Proof.
  cbv zeta. intros H1 H2 (Htype & Hmethod & Hurl & Hdata) Htrigger.
  destruct (run_dedup_ok pg inputs) as (Hnd & _ & Hjson).
  assert (Ho1 : exists pg1, o1 = Request.toJSON pg1 r1).
  { apply (proj1 (Forall_forall _ _) Hjson (r1, o1)). apply list_elem_of_lookup. eauto. }
  assert (Ho2 : exists pg2, o2 = Request.toJSON pg2 r2).
  { apply (proj1 (Forall_forall _ _) Hjson (r2, o2)). apply list_elem_of_lookup. eauto. }
  destruct Ho1 as [pg1 Ho1], Ho2 as [pg2 Ho2].
  assert (Heq : o1 = o2).
  { destruct o1 as [t1 m1 u1 d1 g1], o2 as [t2 m2 u2 d2 g2].
    unfold Request.toJSON in Ho1, Ho2. injection Ho1 as -> -> -> -> _.
    injection Ho2 as -> -> -> -> _. simpl in Htrigger.
    rewrite Htype, Hmethod, Hurl, Hdata, Htrigger. reflexivity. }
  apply (NoDup_lookup _ i j (Request.stringify o1) Hnd).
  - unfold reported_keys. rewrite lookup_map, H1. reflexivity.
  - unfold reported_keys. rewrite lookup_map, H2, Heq. reflexivity.
Qed.

End Reports.

(** C1 as stated does not hold: the link of the page is reported when
    the page is analysed, with no trigger, and again when the handler of
    its mouseover event opens it, with that event as its trigger; the
    two requests have the same type, method, url and data. *)
Lemma same_link_reported_twice : ~ one_report_per_request Demo.opened_again.
Proof.
  intros H.
  assert (E : 0%nat = 1%nat); [|discriminate E].
  eapply (H 0%nat 1%nat); [vm_compute; reflexivity | vm_compute; reflexivity |].
  repeat split.
Qed.

(** ** Reachable states *)

Section Reachable.

Variable browser : Browser.
Variable options : Options.
Variable constants : Constants.

Lemma reachable_events_ok (w : World) :
  reachable browser options constants w -> events_ok w.
Proof.
  intros (pg & inputs & ->).
  apply (proj1 (safe_run browser options constants inputs (initial pg))), initial_events_ok.
Qed.

Lemma reachable_dedup_ok (w : World) :
  reachable browser options constants w -> dedup_ok w.
Proof.
  intros (pg & inputs & ->).
  apply (proj2 (safe_run browser options constants inputs (initial pg))), initial_dedup_ok.
Qed.

End Reachable.

(** ** The scenarios of the specification, run on the demo page *)

(** A link is reported once, as a link request with its url. *)
Example scenario_link :
  reported Demo.analysed
  = [({| Request.type := "link"; Request.method := "GET"; Request.url := "http://x/y";
         Request.data := None; Request.triggerer := None |},
      {| Request.j_type := "link"; Request.j_method := "GET"; Request.j_url := "http://x/y";
         Request.j_data := None; Request.j_trigger := None |})].
Proof. reflexivity. Qed.

(** The load handler of the link is in the map of events, yet only its
    click and mouseover events are pending. *)
Example scenario_link_events :
  Probe._eventsMap (probe Demo.analysed) = [(node 1, ["click"; "load"; "mouseover"])]
  /\ List.map PageEvent.eventName (pending Demo.analysed) = ["click"; "mouseover"].
Proof. split; reflexivity. Qed.

(** A link with a scheme that is not allowed makes no Request. *)
Example scenario_mailto :
  Request_new Demo.browser Demo.link_page "link" "GET" "mailto:a@b" None None
  = JS.Throw (JS.TypeError "Wrong protocol type: mailto:")
  /\ resolved_scheme Demo.browser Demo.link_page "mailto:a@b" = Some "mailto".
Proof. split; reflexivity. Qed.

(** A post form with one field. *)
Example scenario_post_form :
  getFormAsRequest Demo.browser Demo.post_form_page (node 1)
  = JS.Ok {| Request.type := "form"; Request.method := "POST"; Request.url := "http://x/s";
             Request.data := Some "a=1"; Request.triggerer := None |}.
Proof. reflexivity. Qed.

(** A number input with a min and a step. *)
Example scenario_number_with_step :
  let pg := Demo.page_of [(2%nat, Demo.number_input "5" (Some "10"))] in
  Element.value
    (element_at (page (_setVal Demo.browser Demo.options Demo.constants (node 2) (initial pg)))
       (node 2)) = "15".
Proof. reflexivity. Qed.

(** The scheduler at rest arms the closing timer, then asks to end. *)
Example scenario_end_of_crawl :
  effects (Demo.go (Demo.three_ticks ++ [timeout close_then_tick] ++ Demo.three_ticks)
             (initial (Demo.page_of [])))
  = [postMessage; postMessage; entered_doNextAction; setTimeout close_then_tick 500;
     postMessage; postMessage; postMessage; entered_doNextAction; PROBE_FN_REQUEST_END].
Proof. reflexivity. Qed.

Example parseInt_examples :
  JS.parseInt "5" = Some 5 /\ JS.parseInt " -12px" = Some (-12) /\ JS.parseInt "0x1F" = Some 31
  /\ JS.parseInt "1.5" = Some 1 /\ JS.parseInt EmptyString = None /\ JS.parseInt "any" = None.
Proof. repeat split. Qed.

(** ** The theorems at work on the demo page *)

Lemma doNextAction_waits_witness :
  EventLoopManager._sentXHRQueue (manager Demo.waiting) <> []
  /\ (let w := Demo.waiting in
      let w' := _doNextAction Demo.browser Demo.options Demo.constants w in
      EventLoopManager._sentXHRQueue (manager w') = EventLoopManager._sentXHRQueue (manager w)
      /\ EventLoopManager._doneXHRQueue (manager w') = EventLoopManager._doneXHRQueue (manager w)
      /\ EventLoopManager._DOMAssessmentQueue (manager w')
         = EventLoopManager._DOMAssessmentQueue (manager w)
      /\ EventLoopManager._toBeTriggeredEventsQueue (manager w')
         = EventLoopManager._toBeTriggeredEventsQueue (manager w)
      /\ effects w' = (effects w ++ [entered_doNextAction; postMessage])%list
      /\ probe w' = Probe.set_eventLoopManager
                      (EventLoopManager.set_isReadyToClose false (manager w)) (probe w)
      /\ page w' = page w /\ xhrs w' = xhrs w /\ allocated w' = allocated w).
Proof.
  assert (H : EventLoopManager._sentXHRQueue (manager Demo.waiting) <> [])
    by (vm_compute; discriminate).
  split; [exact H|].
  exact (doNextAction_waits_while_requests_are_sent
           Demo.browser Demo.options Demo.constants Demo.waiting H).
Defined.

Lemma three_idle_ticks_witness :
  bufferCycleSize (config Demo.constants) = 2
  /\ EventLoopManager._emptyLoopCounter (manager Demo.analysed) = 0
  /\ source_is_window Demo.tick = true
  /\ (let w := Demo.analysed in
      let w1 := eventMessageHandler Demo.browser Demo.options Demo.constants Demo.tick w in
      let w2 := eventMessageHandler Demo.browser Demo.options Demo.constants Demo.tick w1 in
      let w3 := eventMessageHandler Demo.browser Demo.options Demo.constants Demo.tick w2 in
      (w1 = update_manager (EventLoopManager.set_emptyLoopCounter 1) (emit postMessage w)
       /\ calls w1 = calls w)
      /\ (w2 = update_manager (EventLoopManager.set_emptyLoopCounter 2) (emit postMessage w1)
          /\ calls w2 = calls w)
      /\ (w3 = _doNextAction Demo.browser Demo.options Demo.constants
                 (update_manager (EventLoopManager.set_emptyLoopCounter 0) w2)
          /\ EventLoopManager._emptyLoopCounter (manager w3) = 0
          /\ calls w3 = S (calls w))).
Proof.
  split; [reflexivity|]. split; [reflexivity|]. split; [reflexivity|].
  apply (three_idle_ticks_start_one_action Demo.browser Demo.options Demo.constants
           Demo.analysed Demo.tick); reflexivity.
Defined.

Lemma Request_new_throws_witness :
  let r := {| Request.type := "link"; Request.method := "GET";
              Request.url := "http://x/search?q=1";
              Request.data := None; Request.triggerer := None |} in
  parsed_wf Demo.browser Demo.link_page "/search?q=1#top" = true
  /\ Request_new Demo.browser Demo.link_page "link" "GET" "/search?q=1#top" None None = JS.Ok r
  /\ ((exists e, Request_new Demo.browser Demo.link_page "link" "GET" "/search?q=1#top" None None
                 = JS.Throw e)
      <-> ~ (exists s, resolved_scheme Demo.browser Demo.link_page "/search?q=1#top" = Some s
                       /\ s ∈ allowed_schemes))
  /\ (forall r, Request_new Demo.browser Demo.link_page "link" "GET" "/search?q=1#top" None None
                = JS.Ok r ->
                absolute_form Demo.browser Demo.link_page "/search?q=1#top"
                = Some (Request.url r)
                /\ exists u, URL_new Demo.browser "/search?q=1#top"
                               (location_href Demo.link_page) = Some u
                             /\ URL.scheme u ∈ allowed_schemes
                             /\ Request.url r = URL.href (URL.clear_hash u)).
Proof.
  cbv zeta. split; [reflexivity|]. split; [reflexivity|].
  apply (Request_new_throws_iff_scheme_not_allowed Demo.browser Demo.link_page
           "link" "GET" "/search?q=1#top" None None).
  reflexivity.
Defined.

Lemma Request_url_has_no_fragment_witness :
  let r := {| Request.type := "link"; Request.method := "GET"; Request.url := "http://x/y?k=v";
              Request.data := None; Request.triggerer := None |} in
  parsed_wf Demo.browser Demo.link_page "/y?k=v#section-2" = true
  /\ Request_new Demo.browser Demo.link_page "link" "GET" "/y?k=v#section-2" None None = JS.Ok r
  /\ JS.contains_char "#" (Request.url r) = false
  /\ exists u, URL_new Demo.browser "/y?k=v#section-2" (location_href Demo.link_page) = Some u
               /\ Request.url r = URL.href (URL.clear_hash u)
               /\ URL.hash (URL.clear_hash u) = EmptyString.
Proof.
  cbv zeta. split; [reflexivity|]. split; [reflexivity|].
  apply (Request_url_has_no_fragment Demo.browser Demo.link_page
           "link" "GET" "/y?k=v#section-2" None None); reflexivity.
Defined.

Example getFormAsRequest_without_reset_or_image_get :
  let pg := Demo.get_form_page in
  exists r, getFormAsRequest Demo.browser pg (node 1) = JS.Ok r
    /\ Request.type r = "form"
    /\ exists u, URL_new Demo.browser (spec_target pg (element_at pg (node 1))) (location_href pg)
                 = Some u
       /\ Request.method r = "GET"
       /\ Request.data r = None
       /\ exists u', URL_new Demo.browser
                       (URL.href (URL.set_search (spec_form_data pg (node 1)) u))
                       (location_href pg) = Some u'
                     /\ Request.url r = URL.href (URL.clear_hash u').
Proof.
  cbv zeta. eexists. split; [reflexivity|].
  exact (getFormAsRequest_without_reset_or_image Demo.browser Demo.get_form_page (node 1) _
           eq_refl eq_refl).
Qed.

Lemma one_report_witness :
  let r := {| Request.type := "link"; Request.method := "GET"; Request.url := "http://x/y";
              Request.data := None; Request.triggerer := None |} in
  let o := {| Request.j_type := "link"; Request.j_method := "GET"; Request.j_url := "http://x/y";
              Request.j_data := None; Request.j_trigger := None |} in
  let inputs := start_analysis :: Demo.three_ticks in
  reported (run Demo.browser Demo.options Demo.constants inputs (initial Demo.link_page)) !! 0%nat
  = Some (r, o)
  /\ same_request r r
  /\ 0%nat = 0%nat.
Proof.
  intros r o inputs.
  assert (H : reported (run Demo.browser Demo.options Demo.constants inputs
                          (initial Demo.link_page)) !! 0%nat = Some (r, o))
    by (vm_compute; reflexivity).
  assert (Hsame : same_request r r) by (repeat split).
  split; [exact H|]. split; [exact Hsame|].
  exact (one_report_per_request_and_trigger Demo.browser Demo.options Demo.constants
           Demo.link_page inputs 0 0 r r o o H H Hsame eq_refl).
Defined.

(** * More of the probe: what its state keeps true *)

(** ** Lists *)

Lemma NoDup_snoc {A : Type} (x : A) (l : list A) : NoDup l -> x ∉ l -> NoDup (l ++ [x]).
Proof.
  intros Hnd Hx. apply NoDup_app. split; [exact Hnd|]. split.
  - intros y Hy Hy'. apply list_elem_of_singleton in Hy'. subst y. contradiction.
  - apply NoDup_singleton.
Qed.

Lemma removelast_sublist {A : Type} (l : list A) : removelast l `sublist_of` l.
Proof.
  induction l as [|x l IH]; simpl; [constructor|].
  destruct l as [|y l]; [apply sublist_nil_l|]. apply sublist_skip, IH.
Qed.

Lemma fmap_removelast {A B : Type} (f : A -> B) (l : list A) :
  f <$> removelast l = removelast (f <$> l).
Proof.
  induction l as [|x l IH]; [reflexivity|].
  destruct l as [|y l]; [reflexivity|].
  change (f <$> removelast (x :: y :: l)) with (f x :: (f <$> removelast (y :: l))).
  rewrite IH. reflexivity.
Qed.

Lemma last_snoc {A : Type} (l : list A) (x : A) :
  List.last (List.map Some (l ++ [x])) None = Some x.
Proof.
  induction l as [|y l IH]; [reflexivity|].
  simpl. rewrite IH. destruct (l ++ [x])%list eqn:E; [|reflexivity].
  destruct l; discriminate.
Qed.

Lemma removelast_snoc {A : Type} (l : list A) (x : A) : removelast (l ++ [x]) = l.
Proof.
  induction l as [|y l IH]; [reflexivity|].
  simpl. rewrite IH. destruct (l ++ [x])%list eqn:E; [|reflexivity].
  destruct l; discriminate.
Qed.

(** ** The queues of the manager *)

Section ManagerFacts.

Variables (buffer : Z) (created : nat).

Lemma manager_ok_new : manager_ok buffer created EventLoopManager.new.
Proof.
  split; simpl; try constructor. lia. lia.
Qed.

Lemma manager_ok_scheduleDOMAssessment (el : Node) (m : EventLoopManager.t) :
  manager_ok buffer created m ->
  manager_ok buffer created (EventLoopManager.scheduleDOMAssessment el m).
Proof.
  intros []. unfold EventLoopManager.scheduleDOMAssessment.
  destruct (Array.indexOf el (EventLoopManager._DOMAssessmentQueue m) <? 0) eqn:E;
    [|split; assumption].
  apply indexOf_negative in E. split; simpl; try assumption.
  apply NoDup_snoc; assumption.
Qed.

Lemma manager_ok_sentXHR (x : nat) (m : EventLoopManager.t) :
  manager_ok buffer created m -> manager_ok buffer created (EventLoopManager.sentXHR x m).
Proof.
  intros []. unfold EventLoopManager.sentXHR.
  destruct (Array.indexOf x (EventLoopManager._sentXHRQueue m) <? 0) eqn:E;
    [|split; assumption].
  apply indexOf_negative in E. split; simpl; try assumption.
  apply NoDup_snoc; assumption.
Qed.

Lemma manager_ok_doneXHR (x : nat) (m : EventLoopManager.t) :
  manager_ok buffer created m -> manager_ok buffer created (EventLoopManager.doneXHR x m).
Proof.
  intros []. unfold EventLoopManager.doneXHR.
  destruct (Array.indexOf x (EventLoopManager._doneXHRQueue m) <? 0) eqn:E;
    [|split; assumption].
  apply indexOf_negative in E.
  destruct (0 <=? Array.indexOf x (EventLoopManager._sentXHRQueue m)); split; simpl;
    try assumption; try (apply NoDup_snoc; assumption).
  eapply sublist_NoDup; [exact ok_sent0 | apply sublist_delete].
Qed.

Lemma manager_ok_set_isReadyToClose (b : bool) (m : EventLoopManager.t) :
  manager_ok buffer created m ->
  manager_ok buffer created (EventLoopManager.set_isReadyToClose b m).
Proof. intros []. split; assumption. Qed.

Lemma manager_ok_set_emptyLoopCounter (c : Z) (m : EventLoopManager.t) :
  0 <= c <= Z.max 0 buffer ->
  manager_ok buffer created m ->
  manager_ok buffer created (EventLoopManager.set_emptyLoopCounter c m).
Proof. intros Hc []. split; assumption. Qed.

Lemma manager_ok_shift_done (m : EventLoopManager.t) :
  manager_ok buffer created m ->
  manager_ok buffer created
    (EventLoopManager.set_doneXHRQueue (snd (Array.shift (EventLoopManager._doneXHRQueue m))) m).
Proof.
  intros []. split; simpl; try assumption.
  destruct (EventLoopManager._doneXHRQueue m) as [|x q]; simpl; [constructor|].
  apply NoDup_cons in ok_done0 as [_ H]. exact H.
Qed.

Lemma manager_ok_shift_dom (m : EventLoopManager.t) :
  manager_ok buffer created m ->
  manager_ok buffer created
    (EventLoopManager.set_DOMAssessmentQueue
       (snd (Array.shift (EventLoopManager._DOMAssessmentQueue m))) m).
Proof.
  intros []. split; simpl; try assumption.
  destruct (EventLoopManager._DOMAssessmentQueue m) as [|x q]; simpl; [constructor|].
  apply NoDup_cons in ok_dom0 as [_ H]. exact H.
Qed.

Lemma manager_ok_pop_events (m : EventLoopManager.t) :
  manager_ok buffer created m ->
  manager_ok buffer created
    (EventLoopManager.set_toBeTriggeredEventsQueue
       (snd (Array.pop (EventLoopManager._toBeTriggeredEventsQueue m))) m).
Proof.
  intros []. split; simpl; try assumption.
  - apply Forall_removelast. assumption.
  - rewrite fmap_removelast. eapply sublist_NoDup; [exact ok_distinct0 | apply removelast_sublist].
Qed.

End ManagerFacts.

Lemma manager_ok_created (buffer : Z) (n n' : nat) (m : EventLoopManager.t) :
  (n <= n')%nat -> manager_ok buffer n m -> manager_ok buffer n' m.
Proof.
  intros Hn []. split; try assumption.
  eapply Forall_impl; [eassumption|]. simpl. intros pe Hpe. lia.
Qed.

(** A new event object is queued, at the end. *)
Lemma manager_ok_scheduleEventTriggering (buffer : Z) (created : nat)
    (pe : PageEvent.t) (m : EventLoopManager.t) :
  PageEvent.oid pe = created ->
  manager_ok buffer created m ->
  manager_ok buffer (S created) (EventLoopManager.scheduleEventTriggering pe m)
  /\ EventLoopManager._toBeTriggeredEventsQueue (EventLoopManager.scheduleEventTriggering pe m)
     = (EventLoopManager._toBeTriggeredEventsQueue m ++ [pe])%list.
Proof.
  intros Hoid Hm.
  assert (Hfresh : PageEvent.oid pe ∉ PageEvent.oid <$> EventLoopManager._toBeTriggeredEventsQueue m).
  { intros Hin. apply list_elem_of_fmap in Hin as (pe' & Heq & Hin).
    pose proof (proj1 (Forall_forall _ _) (ok_created _ _ _ Hm) pe' Hin) as Hlt.
    simpl in Hlt. lia. }
  assert (Hnew : pe ∉ EventLoopManager._toBeTriggeredEventsQueue m).
  { intros Hin. apply Hfresh. apply list_elem_of_fmap. exists pe. split; [reflexivity|exact Hin]. }
  unfold EventLoopManager.scheduleEventTriggering.
  rewrite (proj2 (indexOf_negative pe _) Hnew). simpl. split; [|reflexivity].
  destruct Hm. split; simpl; try assumption.
  - unfold Array.push. apply Forall_app. split.
    + eapply Forall_impl; [eassumption|]. simpl. intros pe' Hpe'. lia.
    + constructor; [lia|constructor].
  - unfold Array.push. rewrite fmap_app. apply NoDup_snoc; assumption.
Qed.

(** ** The state of the probe *)

Lemma reported_emit_other (e : Effect) (w : World) :
  match e with PROBE_FN_RETURN_REQUEST _ _ => False | _ => True end ->
  reported (emit e w) = reported w.
Proof.
  intros He. unfold reported, emit. simpl. rewrite reports_app.
  destruct e; simpl in *; try contradiction; apply app_nil_r.
Qed.

Lemma existsb_same_keys_false (pe : PageEvent.t) (l : list PageEvent.t) :
  existsb (fun recorded => PageEvent.same_keys recorded pe) l = false ->
  trigger_key pe ∉ trigger_key <$> l.
Proof.
  intros Hex Hin. apply list_elem_of_fmap in Hin as (recorded & Heq & Hin).
  assert (Htrue : existsb (fun recorded => PageEvent.same_keys recorded pe) l = true).
  { apply existsb_exists. exists recorded. split; [apply list_elem_of_In; exact Hin|].
    unfold trigger_key in Heq. injection Heq as He Hn.
    unfold PageEvent.same_keys. rewrite He, Hn, String.eqb_refl.
    rewrite bool_decide_eq_true_2 by reflexivity. reflexivity. }
  congruence.
Qed.

Lemma addEventToMap_loop_keys (el : Node) (ev : string) (map : list (Node * list string)) :
  match addEventToMap_loop el ev map with
  | Some map' => fst <$> map' = fst <$> map
  | None => el ∉ fst <$> map
  end.
Proof.
  induction map as [|[el' events] rest IH]; simpl.
  - intros H. inversion H.
  - destruct (bool_decide (el' = el)) eqn:E; [reflexivity|].
    apply bool_decide_eq_false in E.
    destruct (addEventToMap_loop el ev rest) as [rest'|].
    + change (fst <$> (el', events) :: rest') with (el' :: (fst <$> rest')).
      rewrite IH. reflexivity.
    + change (fst <$> (el', events) :: rest) with (el' :: (fst <$> rest)).
      intros H. apply elem_of_cons in H as [H|H]; [congruence|contradiction].
Qed.

Lemma purge_from_sublist (el : Node) (index remaining : nat) (array : list PageEvent.t) :
  purge_from el index remaining array `sublist_of` array.
Proof.
  revert index array. induction remaining as [|n IH]; intros index array; simpl; [reflexivity|].
  destruct (array !! index) as [pe|]; [|apply IH].
  destruct (bool_decide (PageEvent.element pe = el)); [|apply IH].
  etransitivity; [apply IH|]. apply sublist_delete.
Qed.

Section Consistency.

Variable browser : Browser.
Variable options : Options.
Variable constants : Constants.

Local Abbreviation consistent := (consistent browser constants).
Local Abbreviation constructed := (constructed browser).

Lemma consistent_update_manager (f : EventLoopManager.t -> EventLoopManager.t) (w : World) :
  (manager_ok (bufferCycleSize (eventLoopConfig constants)) (allocated w) (manager w) ->
   manager_ok (bufferCycleSize (eventLoopConfig constants)) (allocated w) (f (manager w))) ->
  consistent w -> consistent (update_manager f w).
Proof.
  intros Hf [Hm [] [] Hx]. split.
  - apply Hf, Hm.
  - split; assumption.
  - split; assumption.
  - exact Hx.
Qed.

Lemma consistent_emit (e : Effect) (w : World) :
  match e with PROBE_FN_RETURN_REQUEST _ _ => False | _ => True end ->
  consistent w -> consistent (emit e w).
Proof.
  intros He [Hm Hp [Hseen Hrep] Hx]. split; try assumption.
  split.
  - unfold reported_keys. rewrite (reported_emit_other e w He). exact Hseen.
  - rewrite (reported_emit_other e w He). exact Hrep.
Qed.

Lemma consistent_set_page (pg : Page) (w : World) : consistent w -> consistent (set_page pg w).
Proof. intros [Hm Hp [] Hx]. split; try assumption. split; assumption. Qed.

Lemma consistent_PageEvent_new (el : Node) (ev : string) (w : World) :
  consistent w -> consistent (snd (PageEvent_new el ev w)).
Proof.
  intros [Hm Hp [] Hx]. split; try assumption.
  - apply (manager_ok_created _ (allocated w)); [simpl; lia | exact Hm].
  - split; assumption.
Qed.

Lemma consistent_set_eventsMap (l : list (Node * list string)) (w : World) :
  NoDup (fst <$> l) -> consistent w -> consistent (update_probe (Probe.set_eventsMap l) w).
Proof.
  intros Hl [Hm [] [] Hx]. split; try assumption; split; assumption.
Qed.

Lemma consistent_set_triggered (l : list PageEvent.t) (w : World) :
  NoDup (trigger_key <$> l) ->
  consistent w ->
  consistent (update_probe (fun p => Probe.set_triggeredPageEvents l p) w).
Proof.
  intros Hl [Hm [] [] Hx]. split; try assumption; split; assumption.
Qed.

Lemma consistent_set_currentPageEvent (e : option PageEvent.t) (w : World) :
  consistent w -> consistent (update_probe (Probe.set_currentPageEvent e) w).
Proof.
  intros [Hm [] [] Hx]. split; try assumption; split; assumption.
Qed.

Lemma consistent_printRequest (r : Request.t) (w : World) :
  Request.type r ∈ request_types -> constructed r ->
  consistent w -> consistent (printRequest r w).
Proof.
  intros Hty Hr Hw. unfold printRequest.
  destruct (Array.indexOf (Request.key (page w) r) (Probe.seenRequest (probe w)) <? 0);
    [|exact Hw].
  destruct Hw as [Hm [] [Hseen Hrep] Hx]. split; try assumption.
  - split; assumption.
  - split.
    + unfold reported_keys, reported. simpl. rewrite reports_app, List.map_app. simpl.
      unfold Array.push. rewrite Hseen. reflexivity.
    + unfold reported. simpl. rewrite reports_app. apply Forall_app. split; [exact Hrep|].
      constructor; [|constructor]. simpl. split; assumption.
Qed.

Lemma Request_new_constructed (pg : Page) (type method urlString : string)
    (d : option string) (t : option PageEvent.t) (r : Request.t) :
  Request_new browser pg type method urlString d t = JS.Ok r ->
  Request.type r = type /\ Request.method r = method /\ constructed r.
Proof.
  rewrite Request_new_cases.
  destruct (URL_new browser urlString (location_href pg)) as [u|] eqn:Eu; [|discriminate].
  destruct (protocol_allowed (URL.protocol u)) eqn:E; [|discriminate].
  intros Hr. injection Hr as <-. simpl. split; [reflexivity|]. split; [reflexivity|].
  exists urlString, (location_href pg), u. repeat split; assumption.
Qed.

Lemma getFormAsRequest_constructed (pg : Page) (form : Node) (r : Request.t) :
  getFormAsRequest browser pg form = JS.Ok r ->
  Request.type r = "form" /\ (Request.method r = "GET" \/ Request.method r = "POST")
  /\ constructed r.
Proof.
  unfold getFormAsRequest.
  destruct (String.eqb (form_method (element_at pg form)) "GET").
  - destruct (_getAbsoluteUrl browser pg (form_url pg (element_at pg form)) false);
      [|discriminate].
    simpl. intros Hr. apply Request_new_constructed in Hr as (H1 & H2 & H3). auto.
  - intros Hr. apply Request_new_constructed in Hr as (H1 & H2 & H3). auto.
Qed.

Lemma consistent_print_new (type method urlString : string) (d : option string)
    (t : option PageEvent.t) (w : World) :
  type ∈ request_types ->
  consistent w ->
  consistent (print_or_warn (Request_new browser (page w) type method urlString d t) w).
Proof.
  intros Hty Hw.
  destruct (Request_new browser (page w) type method urlString d t) as [r|] eqn:E;
    [|exact Hw].
  apply Request_new_constructed in E as (H1 & _ & H3). simpl.
  apply consistent_printRequest; [rewrite H1; exact Hty | exact H3 | exact Hw].
Qed.

Lemma consistent_printLink (url : string) (w : World) :
  consistent w -> consistent (printLink browser url w).
Proof.
  apply consistent_print_new. apply (bool_decide_unpack _). reflexivity.
Qed.

Lemma consistent_printWebsocket (url : string) (w : World) :
  consistent w -> consistent (printWebsocket browser url w).
Proof.
  apply consistent_print_new. apply (bool_decide_unpack _). reflexivity.
Qed.

Lemma consistent_printJSONP (n : Node) (w : World) :
  consistent w -> consistent (printJSONP browser n w).
Proof.
  intros Hw. unfold printJSONP.
  destruct (_ && _); [|exact Hw].
  destruct (_getAbsoluteUrl _ _ _ _); [|exact Hw].
  destruct (JS.truthy _); [|exact Hw].
  apply consistent_print_new; [|exact Hw]. apply (bool_decide_unpack _). reflexivity.
Qed.

Lemma consistent_print_form (form : Node) (w : World) :
  consistent w -> consistent (print_or_warn (getFormAsRequest browser (page w) form) w).
Proof.
  intros Hw.
  destruct (getFormAsRequest browser (page w) form) as [r|] eqn:E; [|exact Hw].
  apply getFormAsRequest_constructed in E as (H1 & _ & H3). simpl.
  apply consistent_printRequest; [|exact H3|exact Hw].
  rewrite H1. apply (bool_decide_unpack _). reflexivity.
Qed.

Lemma consistent_fold_left {B : Type} (f : World -> B -> World) (l : list B) (w : World) :
  (forall w x, consistent w -> consistent (f w x)) ->
  consistent w -> consistent (fold_left f l w).
Proof.
  intros Hf. revert w. induction l as [|x l IH]; intros w Hw; simpl; [exact Hw|].
  apply IH, Hf, Hw.
Qed.

Lemma consistent_addEventToMap (el : Node) (ev : string) (w : World) :
  consistent w -> consistent (addEventToMap el ev w).
Proof.
  intros Hw. unfold addEventToMap.
  pose proof (addEventToMap_loop_keys el ev (Probe._eventsMap (probe w))) as Hloop.
  pose proof (ok_map _ (ok_probe _ _ _ Hw)) as Hmap.
  destruct (addEventToMap_loop el ev (Probe._eventsMap (probe w))) as [map'|].
  - apply consistent_set_eventsMap; [|exact Hw]. rewrite Hloop. exact Hmap.
  - apply consistent_set_eventsMap; [|exact Hw].
    unfold Array.push. rewrite fmap_app. apply NoDup_snoc; assumption.
Qed.

Lemma consistent_mapElementEvents (el : Node) (w : World) :
  consistent w -> consistent (_mapElementEvents constants el w).
Proof.
  unfold _mapElementEvents. apply consistent_fold_left. intros w' ev Hw'.
  destruct (bool_decide _); [apply consistent_addEventToMap|]; exact Hw'.
Qed.

(** Scheduling an event object that was just created. *)
Lemma consistent_trigger_new (el : Node) (ev : string) (w : World) :
  consistent w ->
  consistent (_trigger (fst (PageEvent_new el ev w)) (snd (PageEvent_new el ev w))).
Proof.
  intros [Hm [] [] Hx]. split; try assumption; try (split; assumption).
  apply (manager_ok_scheduleEventTriggering _ (allocated w)); [reflexivity | exact Hm].
Qed.

Lemma consistent_triggerChange (el : Node) (w : World) :
  consistent w -> consistent (triggerChange el w).
Proof. apply consistent_trigger_new. Qed.

Lemma consistent_triggerElementEvents (el : Node) (w : World) :
  consistent w -> consistent (_triggerElementEvents constants el w).
Proof.
  unfold _triggerElementEvents. apply consistent_fold_left. intros w' ev Hw'. simpl.
  destruct (negb (bool_decide (ev ∈ never_triggered))); simpl;
    [|apply (consistent_PageEvent_new el ev w' Hw')].
  destruct (_isPageEventAlreadyTriggered _ _) eqn:E; simpl;
    [apply (consistent_PageEvent_new el ev w' Hw')|].
  apply existsb_same_keys_false in E. simpl in E.
  destruct Hw' as [Hm [Hmap Htrig Hsx] [] Hx]. split; try assumption; try (split; assumption).
  - apply (manager_ok_scheduleEventTriggering _ (allocated w')); [reflexivity | exact Hm].
  - split; simpl; try assumption.
    unfold Array.push. rewrite fmap_app. apply NoDup_snoc; assumption.
Qed.

Lemma consistent_setVal (el : Node) (w : World) :
  consistent w -> consistent (_setVal browser options constants el w).
Proof.
  intros Hw. unfold _setVal.
  repeat match goal with
         | |- consistent (if ?c then _ else _) => destruct c
         | |- consistent (triggerChange _ _) => apply consistent_triggerChange
         | |- consistent (assign_value _ _ _) => apply consistent_set_page
         | |- consistent (set_page _ _) => apply consistent_set_page
         | |- consistent w => exact Hw
         end.
Qed.

Lemma consistent_analyzeDOMElement (el : Node) (w : World) :
  consistent w -> consistent (_analyzeDOMElement browser options constants el w).
Proof.
  intros Hw. unfold _analyzeDOMElement. cbv zeta.
  assert (Hfill : consistent
            (if fillValues options
             then fold_left (fun w0 el0 => _setVal browser options constants el0 w0)
                    (Element.descendants
                       (element_at (page (_mapElementEvents constants el w)) el))
                    (_mapElementEvents constants el w)
             else _mapElementEvents constants el w)).
  { destruct (fillValues options).
    - apply consistent_fold_left; [intros w' x; apply consistent_setVal|].
      apply consistent_mapElementEvents, Hw.
    - apply consistent_mapElementEvents, Hw. }
  assert (Hprint : forall v, consistent v ->
            consistent (_printRequestFromATag browser el (_printRequestFromForm browser el v))).
  { intros v Hv. unfold _printRequestFromATag.
    assert (Hform : consistent (_printRequestFromForm browser el v)).
    { unfold _printRequestFromForm. destruct (String.eqb _ _); [|exact Hv].
      apply consistent_print_form, Hv. }
    destruct (_ && _); [apply consistent_printLink|]; exact Hform. }
  destruct (triggerEvents options).
  - apply consistent_triggerElementEvents, Hprint, Hfill.
  - apply Hprint, Hfill.
Qed.

End Consistency.

Section ConsistentRuns.

Variable browser : Browser.
Variable options : Options.
Variable constants : Constants.

Local Abbreviation consistent := (consistent browser constants).
Local Abbreviation constructed := (constructed browser).
Local Abbreviation buffer := (bufferCycleSize (eventLoopConfig constants)).

Lemma consistent_originalSetTimeout (callback : Callback) (delay : Z) (w : World) :
  consistent w -> consistent (originalSetTimeout options callback delay w).
Proof.
  intros Hw. unfold originalSetTimeout.
  destruct (overrideTimeoutFunctions options); [|exact Hw].
  apply consistent_emit; [exact I | exact Hw].
Qed.

Lemma consistent_doNextAction (w : World) :
  consistent w -> consistent (_doNextAction browser options constants w).
Proof.
  intros Hw. unfold _doNextAction. cbv zeta.
  assert (H0 : consistent (emit entered_doNextAction w))
    by (apply consistent_emit; [exact I | exact Hw]).
  set (w0 := emit entered_doNextAction w) in *.
  assert (Hflag : consistent (update_manager (EventLoopManager.set_isReadyToClose false) w0))
    by (apply consistent_update_manager;
        [apply manager_ok_set_isReadyToClose | exact H0]).
  destruct (0 <? Array.length (EventLoopManager._sentXHRQueue (manager w0))).
  { apply consistent_emit; [exact I | exact Hflag]. }
  destruct (0 <? Array.length (EventLoopManager._doneXHRQueue (manager w0))).
  { apply consistent_originalSetTimeout.
    apply consistent_update_manager; [apply manager_ok_shift_done | exact Hflag]. }
  destruct (0 <? Array.length (EventLoopManager._DOMAssessmentQueue (manager w0))).
  { destruct (Array.shift (EventLoopManager._DOMAssessmentQueue (manager w0)))
      as [[el|] rest] eqn:E; [|exact Hflag].
    apply consistent_emit; [exact I|].
    apply consistent_analyzeDOMElement.
    apply consistent_update_manager; [|exact Hflag].
    intros Hm. replace rest with (snd (Array.shift (EventLoopManager._DOMAssessmentQueue
                                          (manager (update_manager
                                             (EventLoopManager.set_isReadyToClose false) w0)))))
      by (change (manager (update_manager (EventLoopManager.set_isReadyToClose false) w0))
            with (EventLoopManager.set_isReadyToClose false (manager w0));
          simpl; rewrite E; reflexivity).
    apply manager_ok_shift_dom, Hm. }
  destruct (0 <? Array.length (EventLoopManager._toBeTriggeredEventsQueue (manager w0))).
  { destruct (Array.pop (EventLoopManager._toBeTriggeredEventsQueue (manager w0)))
      as [[pe|] rest] eqn:E; [|exact Hflag].
    match goal with
    | |- consistent (match PageEvent_trigger _ ?w1 with _ => _ end) =>
        assert (Hpopped : consistent w1);
        [|destruct (PageEvent_trigger_cases pe w1) as [(ty & _ & Et)|(e & _ & Et)];
          rewrite Et;
          [apply consistent_originalSetTimeout, consistent_emit; [exact I | exact Hpopped]
          |exact Hpopped]]
    end.
    apply consistent_set_currentPageEvent.
    apply consistent_update_manager; [|exact Hflag].
    intros Hm. replace rest with (snd (Array.pop (EventLoopManager._toBeTriggeredEventsQueue
                                          (manager (update_manager
                                             (EventLoopManager.set_isReadyToClose false) w0)))))
      by (change (manager (update_manager (EventLoopManager.set_isReadyToClose false) w0))
            with (EventLoopManager.set_isReadyToClose false (manager w0));
          simpl EventLoopManager._toBeTriggeredEventsQueue; rewrite E; reflexivity).
    apply manager_ok_pop_events, Hm. }
  destruct (EventLoopManager._isReadyToClose (manager w0));
    [apply consistent_emit; [exact I | exact H0]
    |apply consistent_originalSetTimeout; exact H0].
Qed.

Lemma consistent_eventMessageHandler (m : MessageEvent) (w : World) :
  consistent w -> consistent (eventMessageHandler browser options constants m w).
Proof.
  intros Hw. unfold eventMessageHandler.
  destruct (_ && _); [|exact Hw].
  destruct (String.eqb _ _).
  - destruct (EventLoopManager._emptyLoopCounter (manager w) <? bufferCycleSize (config constants))
      eqn:E; cbv zeta.
    + apply consistent_update_manager; [|apply consistent_emit; [exact I | exact Hw]].
      intros Hm. apply manager_ok_set_emptyLoopCounter; [|exact Hm].
      apply Z.ltb_lt in E. pose proof (ok_counter _ _ _ Hm) as Hc.
      change (manager (emit postMessage w)) with (manager w) in *.
      unfold config in E. lia.
    + apply consistent_doNextAction.
      apply consistent_update_manager; [|exact Hw].
      intros Hm. apply manager_ok_set_emptyLoopCounter; [lia | exact Hm].
  - destruct (String.eqb _ _); [apply consistent_printLink|]; exact Hw.
Qed.

Lemma consistent_run_callback (cb : Callback) (w : World) :
  consistent w -> consistent (run_callback cb w).
Proof.
  intros Hw. destruct cb; simpl.
  - apply consistent_emit; [exact I | exact Hw].
  - apply consistent_emit; [exact I|].
    apply consistent_update_manager; [apply manager_ok_set_isReadyToClose | exact Hw].
Qed.

Lemma consistent_scheduleDOMAssessment (el : Node) (w : World) :
  consistent w -> consistent (update_manager (EventLoopManager.scheduleDOMAssessment el) w).
Proof. apply consistent_update_manager, manager_ok_scheduleDOMAssessment. Qed.

Lemma consistent_startAnalysis (w : World) : consistent w -> consistent (startAnalysis w).
Proof.
  intros Hw. unfold startAnalysis, start. cbv zeta.
  apply consistent_emit; [exact I|].
  apply consistent_fold_left; [|exact Hw].
  intros w' el. apply consistent_scheduleDOMAssessment.
Qed.

Lemma consistent_nodeMutated (ms : list MutationRecord) (w : World) :
  consistent w -> consistent (nodeMutated ms w).
Proof.
  unfold nodeMutated. apply consistent_fold_left. intros w' [added|el attr|el] Hw'.
  - revert Hw'. apply consistent_fold_left. intros w'' n Hw''.
    destruct (_ =? _); [apply consistent_scheduleDOMAssessment|]; exact Hw''.
  - cbv zeta. apply consistent_scheduleDOMAssessment.
    apply (consistent_set_triggered browser constants
             (purge_triggered el (Probe._triggeredPageEvents (probe w')))); [|exact Hw'].
    eapply sublist_NoDup; [apply (ok_triggered _ (ok_probe _ _ _ Hw'))|].
    apply fmap_sublist, purge_from_sublist.
  - exact Hw'.
Qed.

Lemma consistent_hook_XHR_open (x : nat) (method url : string) (w : World) :
  consistent w -> consistent (hook_XHR_open browser x method url w).
Proof.
  intros Hw. unfold hook_XHR_open. cbv zeta. apply consistent_emit; [exact I|].
  destruct (Request_new browser (page w) "xhr" method url None None) as [r|] eqn:E;
    [|exact Hw].
  apply Request_new_constructed in E as (H1 & _ & H3).
  destruct Hw as [Hm Hp [] Hx]. split; try assumption; [split; assumption|].
  intros y o r' Hy Hr'. simpl in Hy.
  destruct (decide (x = y)) as [<-|Hne].
  - rewrite lookup_insert_eq in Hy. injection Hy as <-. simpl in Hr'.
    injection Hr' as <-. split; assumption.
  - rewrite lookup_insert_ne in Hy by exact Hne. apply (Hx y o r' Hy Hr').
Qed.

Lemma consistent_on_readystatechange (x : nat) (readyState : Z) (w : World) :
  consistent w -> consistent (on_readystatechange x readyState w).
Proof.
  unfold on_readystatechange. generalize (XHR.listeners (xhr_at w x)) as n.
  induction n as [|n IH]; intros Hw; simpl; [exact Hw|].
  unfold readystatechange_listener at 1.
  destruct (_ && _).
  - apply consistent_update_manager; [apply manager_ok_sentXHR | apply IH, Hw].
  - destruct (_ =? _); [|apply IH, Hw].
    apply consistent_update_manager; [apply manager_ok_doneXHR | apply IH, Hw].
Qed.

Lemma constructed_set_data_triggerer (d : option string) (t : option PageEvent.t)
    (r : Request.t) :
  constructed r -> constructed (Request.set_data_triggerer d t r).
Proof. intros (u & H). exists u. exact H. Qed.

Lemma consistent_hook_XHR_send (x : nat) (d : option string) (w : World) :
  consistent w -> consistent (hook_XHR_send browser options x d w).
Proof.
  intros Hw. unfold hook_XHR_send. cbv zeta.
  destruct (XHR.__request (xhr_at w x)) as [r|] eqn:Er; [|exact Hw].
  assert (Hr : Request.type r = "xhr" /\ constructed r).
  { unfold xhr_at in Er. destruct (xhrs w !! x) as [o|] eqn:Eo; simpl in Er; [|discriminate].
    apply (ok_xhrs _ _ _ Hw x o r Eo Er). }
  destruct Hr as [Hty Hr].
  set (r' := Request.set_data_triggerer d (getLastTriggerPageEvent w) r).
  match goal with
  | |- consistent (if negb (Array.indexOf ?k ?l =? -1) then ?a else ?b) =>
      set (key := k); assert (Ha : consistent a)
  end.
  { destruct Hw as [Hm Hp [] Hx]. split; try assumption; [split; assumption|].
    intros y o r'' Hy Hr''. simpl in Hy.
    destruct (decide (x = y)) as [<-|Hne].
    - rewrite lookup_insert_eq in Hy. injection Hy as <-. simpl in Hr''.
      injection Hr'' as <-. split; [exact Hty | apply constructed_set_data_triggerer, Hr].
    - rewrite lookup_insert_ne in Hy by exact Hne. apply (Hx y o r'' Hy Hr''). }
  match goal with
  | |- consistent (if ?c then _ else _) => destruct c eqn:Ekey
  end; [exact Ha|].
  assert (Hprint : forall v, consistent v -> consistent (printRequest r' v)).
  { intros v Hv. apply consistent_printRequest; [| |exact Hv].
    - unfold r'. simpl. rewrite Hty. apply (bool_decide_unpack _). reflexivity.
    - apply constructed_set_data_triggerer, Hr. }
  assert (Hpush : consistent
            (update_probe
               (fun p => Probe.set_sentXHRs (Array.push key (Probe.sentXHRs p)) p)
               (set_xhrs
                  (<[x:={| XHR.__request := Some r';
                           XHR.__skipped :=
                             match _getAbsoluteUrl browser (page w) (Request.url r') false with
                             | JS.Ok u =>
                                 fold_left
                                   (fun skipped url =>
                                      if RegExp_match browser url EmptyString (URL.href u)
                                      then true else skipped)
                                   (excludedUrls options) (XHR.__skipped (xhr_at w x))
                             | JS.Throw _ => true
                             end;
                           XHR.listeners := XHR.listeners (xhr_at w x) |}]> (xhrs w)) w))).
  { destruct Ha as [Hm [Hmap Htrig Hsx] [] Hx]. split; try assumption; [|split; assumption].
    split; try assumption. simpl. apply NoDup_snoc; [exact Hsx|].
    apply negb_false_iff, Z.eqb_eq in Ekey.
    intros Hin. apply indexOf_not_negative in Hin. apply Z.ltb_ge in Hin.
    assert (Hidx : Array.indexOf key (Probe.sentXHRs (probe w)) = -1) by exact Ekey.
    assert (Hpos : 0 <= Array.indexOf key (Probe.sentXHRs (probe w))) by exact Hin.
    lia. }
  match goal with
  | |- consistent (if ?c then _ else _) => destruct c
  end; [apply consistent_emit; [exact I|]|]; apply Hprint, Hpush.
Qed.

Lemma consistent_handle (i : Input) (w : World) :
  consistent w -> consistent (handle browser options constants i w).
Proof.
  intros Hw. destruct i; simpl.
  - apply consistent_eventMessageHandler, Hw.
  - apply consistent_run_callback, Hw.
  - apply consistent_startAnalysis, Hw.
  - apply consistent_nodeMutated, Hw.
  - unfold hook_Node_addEventListener.
    destruct (negb _); [apply consistent_addEventToMap|]; exact Hw.
  - unfold hook_window_addEventListener.
    destruct (negb _); [apply consistent_addEventToMap|]; exact Hw.
  - apply consistent_hook_XHR_open, Hw.
  - apply consistent_on_readystatechange, Hw.
  - apply consistent_hook_XHR_send, Hw.
  - apply consistent_printJSONP, Hw.
  - apply consistent_printWebsocket, Hw.
  - apply consistent_print_form, Hw.
  - apply consistent_printLink, Hw.
  - apply consistent_set_page, Hw.
Qed.

Lemma consistent_initial (pg : Page) : consistent (initial pg).
Proof.
  split.
  - apply manager_ok_new.
  - split; constructor.
  - split; [reflexivity | constructor].
  - intros x o r Hx. simpl in Hx. rewrite lookup_empty in Hx. discriminate.
Qed.

Lemma consistent_run (pg : Page) (inputs : list Input) :
  consistent (run browser options constants inputs (initial pg)).
Proof.
  unfold run. apply consistent_fold_left; [|apply consistent_initial].
  intros w i. apply consistent_handle.
Qed.

End ConsistentRuns.

(** ** What holds all along a crawl *)

Section AlongTheCrawl.

Variable browser : Browser.
Variable options : Options.
Variable constants : Constants.

(** X1. All along a crawl no element is twice in the DOM-assessment
    queue, and no request is twice in the sent-request queue or twice in
    the completed-request queue. *)
Theorem nothing_is_queued_twice (pg : Page) (inputs : list Input) :
  let m := manager (run browser options constants inputs (initial pg)) in
  NoDup (EventLoopManager._DOMAssessmentQueue m)
  /\ NoDup (EventLoopManager._sentXHRQueue m)
  /\ NoDup (EventLoopManager._doneXHRQueue m).
Proof.
  destruct (ok_manager _ _ _ (consistent_run browser options constants pg inputs)) as [].
  repeat split; assumption.
Qed.

(** X2. All along a crawl the empty-loop counter is at least 0 and at
    most [bufferCycleSize] (or 0, when that is negative). *)
Theorem emptyLoopCounter_within_buffer (pg : Page) (inputs : list Input) :
  let m := manager (run browser options constants inputs (initial pg)) in
  0 <= EventLoopManager._emptyLoopCounter m
       <= Z.max 0 (bufferCycleSize (eventLoopConfig constants)).
Proof.
  apply (ok_counter _ _ _ (ok_manager _ _ _ (consistent_run browser options constants pg inputs))).
Qed.

(** X3. All along a crawl the map of events has one entry per element. *)
Theorem eventsMap_has_one_entry_per_element (pg : Page) (inputs : list Input) :
  NoDup (fst <$> Probe._eventsMap (probe (run browser options constants inputs (initial pg)))).
Proof.
  apply (ok_map _ (ok_probe _ _ _ (consistent_run browser options constants pg inputs))).
Qed.

(** X4. All along a crawl the trigger history holds one record per
    element and event name: no two of its PageEvents have the same
    element and the same event name. *)
Theorem trigger_history_has_no_equal_records (pg : Page) (inputs : list Input)
    (i j : nat) (a b : PageEvent.t) :
  let history := Probe._triggeredPageEvents
                   (probe (run browser options constants inputs (initial pg))) in
  history !! i = Some a -> history !! j = Some b ->
  PageEvent.element a = PageEvent.element b ->
  PageEvent.eventName a = PageEvent.eventName b ->
  i = j.
Proof.
  cbv zeta. intros Ha Hb He Hn.
  pose proof (ok_triggered _ (ok_probe _ _ _ (consistent_run browser options constants pg inputs)))
    as Hnd.
  apply (NoDup_lookup _ i j (trigger_key a) Hnd).
  - rewrite list_lookup_fmap, Ha. reflexivity.
  - rewrite list_lookup_fmap, Hb. unfold trigger_key. rewrite He, Hn. reflexivity.
Qed.

(** X5. All along a crawl the keys remembered in [seenRequest] are the
    keys of the requests handed to the result sink, one for one and in
    the same order; so no key is remembered twice. *)
Theorem seenRequest_is_the_keys_reported (pg : Page) (inputs : list Input) :
  let w := run browser options constants inputs (initial pg) in
  Probe.seenRequest (probe w) = List.map (fun p => Request.stringify (snd p)) (reported w)
  /\ NoDup (Probe.seenRequest (probe w)).
Proof.
  cbv zeta.
  pose proof (ok_seen _ _ (ok_reports _ _ _ (consistent_run browser options constants pg inputs)))
    as Hseen.
  split; [exact Hseen|]. rewrite Hseen.
  apply (run_dedup_ok browser options constants pg inputs).
Qed.

Lemma href_without_hash (u : URL.t) :
  URL.wf u = true -> JS.contains_char "#" (URL.href (URL.clear_hash u)) = false.
Proof.
  unfold URL.wf. intros Hwf.
  apply andb_prop in Hwf as [Hwf Hq]. apply andb_prop in Hwf as [Hwf Hb].
  apply andb_prop in Hwf as [_ Hs].
  apply negb_true_iff in Hq, Hb, Hs.
  unfold URL.href, URL.protocol, URL.fragment_part. simpl.
  rewrite !contains_char_app.
  change (URL.query_part (URL.clear_hash u)) with (URL.query_part u).
  rewrite Hs, Hb, Hq. reflexivity.
Qed.

(** X6. Every request handed to the result sink, by whatever path, has
    one of the types xhr, form, link, jsonp and websocket, and its url
    is what the constructor makes of a url string: the URL that the
    browser parsed from the string, with an allowed protocol, serialised
    after its hash was emptied; so it holds no hash sign when the parsed
    URL is well formed. *)
Theorem reported_requests_are_constructed (pg : Page) (inputs : list Input)
    (i : nat) (r : Request.t) (o : Request.json) :
  reported (run browser options constants inputs (initial pg)) !! i = Some (r, o) ->
  Request.type r ∈ ["xhr"; "form"; "link"; "jsonp"; "websocket"]
  /\ exists urlString base u,
       URL_new browser urlString base = Some u
       /\ protocol_allowed (URL.protocol u) = true
       /\ Request.url r = URL.href (URL.clear_hash u)
       /\ (URL.wf u = true -> JS.contains_char "#" (Request.url r) = false).
Proof.
  intros Hi.
  pose proof (ok_reported _ _ (ok_reports _ _ _ (consistent_run browser options constants pg inputs)))
    as Hrep.
  assert (Hin : (r, o) ∈ reported (run browser options constants inputs (initial pg))).
  { apply list_elem_of_lookup. exists i. exact Hi. }
  destruct (proj1 (Forall_forall _ _) Hrep (r, o) Hin) as [Hty (urlString & base & u & Hu & Hp & Hr)].
  split; [exact Hty|]. exists urlString, base, u.
  split; [exact Hu|]. split; [exact Hp|]. split; [exact Hr|].
  intros Hwf. simpl in Hr. rewrite Hr. apply href_without_hash, Hwf.
Qed.

(** X7. All along a crawl a new event is always queued: [triggerChange]
    puts the input event it creates at the end of the pending-event
    queue, also when an input event of the same element is pending
    already (the queue tells event objects apart, not their content). *)
Theorem triggerChange_always_queues (pg : Page) (inputs : list Input) (el : Node) :
  let w := run browser options constants inputs (initial pg) in
  pending (triggerChange el w)
  = (pending w ++ [{| PageEvent.oid := allocated w; PageEvent.element := el;
                      PageEvent.eventName := "input" |}])%list.
Proof.
  cbv zeta.
  pose proof (ok_manager _ _ _ (consistent_run browser options constants pg inputs)) as Hm.
  set (w := run browser options constants inputs (initial pg)) in *.
  apply (proj2 (manager_ok_scheduleEventTriggering _ (allocated w)
                  {| PageEvent.oid := allocated w; PageEvent.element := el;
                     PageEvent.eventName := "input" |} (manager w) eq_refl Hm)).
Qed.

End AlongTheCrawl.

(** ** A key determines its type, method and url *)

Lemma Reader_chars_escape_char (c : ascii) (rest : string) :
  Reader.chars (JS.json_escape_char c +:+ rest) = Reader.cons_char c (Reader.chars rest).
Proof.
  destruct c as [[] [] [] [] [] [] [] []]; reflexivity.
Qed.

Lemma Reader_chars_escape (s rest : string) :
  Reader.chars (JS.json_escape s +:+ JS.dquote +:+ rest) = Some (s, rest).
Proof.
  induction s as [|c s IH]; [reflexivity|].
  cbn [JS.json_escape]. rewrite append_assoc, Reader_chars_escape_char, IH. reflexivity.
Qed.

Lemma Reader_json_string (s rest : string) :
  Reader.json_string (JS.json_string s +:+ rest) = Some (s, rest).
Proof.
  unfold JS.json_string. rewrite !append_assoc.
  change (Reader.json_string (JS.dquote +:+ JS.json_escape s +:+ JS.dquote +:+ rest))
    with (Reader.chars (JS.json_escape s +:+ JS.dquote +:+ rest)).
  apply Reader_chars_escape.
Qed.

Lemma Reader_expect (text rest : string) : Reader.expect text (text +:+ rest) = Some rest.
Proof.
  induction text as [|a text IH]; [reflexivity|].
  rewrite append_cons. cbn [Reader.expect]. rewrite Ascii.eqb_refl. exact IH.
Qed.

(** The head is read back whatever follows it: nothing is asked of the
    way the data and the trigger are written. *)
Lemma Reader_head_written (type method url rest : string) :
  Reader.head (Reader.before_type +:+ JS.json_string type +:+
               Reader.before_method +:+ JS.json_string method +:+
               Reader.before_url +:+ JS.json_string url +:+
               Reader.before_data +:+ rest)
  = Some (type, method, url, rest).
Proof.
  unfold Reader.head.
  rewrite Reader_expect, Reader_json_string, Reader_expect, Reader_json_string,
    Reader_expect, Reader_json_string, Reader_expect.
  reflexivity.
Qed.

(** The key, written out. *)
Lemma stringify_written_out (o : Request.json) :
  Request.stringify o =
  Reader.before_type +:+ JS.json_string (Request.j_type o) +:+
  Reader.before_method +:+ JS.json_string (Request.j_method o) +:+
  Reader.before_url +:+ JS.json_string (Request.j_url o) +:+
  Reader.before_data +:+ Request.json_value (Request.j_data o) +:+
  match Request.j_trigger o with
  | Some (el, ev) =>
      "," +:+ JS.json_string "trigger" +:+ ":{" +:+ JS.json_string "element" +:+ ":" +:+
      JS.json_string el +:+ "," +:+ JS.json_string "event" +:+ ":" +:+
      JS.json_string ev +:+ "}}"
  | None => "}"
  end.
Proof.
  unfold Request.stringify, Request.json_member.
  unfold Reader.before_type, Reader.before_method, Reader.before_url, Reader.before_data.
  destruct (Request.j_trigger o) as [[el ev]|]; cbn [app JS.join];
    rewrite !append_assoc; reflexivity.
Qed.

Lemma stringify_head (o1 o2 : Request.json) :
  Request.stringify o1 = Request.stringify o2 ->
  Request.j_type o1 = Request.j_type o2
  /\ Request.j_method o1 = Request.j_method o2
  /\ Request.j_url o1 = Request.j_url o2.
Proof.
  intros Hkey.
  assert (H : Reader.head (Request.stringify o1) = Reader.head (Request.stringify o2))
    by (rewrite Hkey; reflexivity).
  rewrite !stringify_written_out, !Reader_head_written in H.
  injection H as H1 H2 H3 _. repeat split; assumption.
Qed.

(** X8. Two requests with the same key have the same type, the same
    method and the same url, whatever their data and their trigger: the
    key begins with the three, each written as a JSON string, and a
    JSON string can be read back. *)
Theorem key_determines_type_method_and_url (pg1 pg2 : Page) (r1 r2 : Request.t) :
  Request.key pg1 r1 = Request.key pg2 r2 ->
  Request.type r1 = Request.type r2
  /\ Request.method r1 = Request.method r2
  /\ Request.url r1 = Request.url r2.
Proof.
  unfold Request.key. intros Hkey. apply (stringify_head _ _ Hkey).
Qed.

(** * What the steps of the probe leave alone *)

Lemma emits_only_refl (P : Effect -> bool) (w : World) : emits_only P w w.
Proof. exists []. rewrite app_nil_r. split; [reflexivity | constructor]. Qed.

Lemma emits_only_same (P : Effect -> bool) (w w' : World) :
  effects w' = effects w -> emits_only P w w'.
Proof. intros E. exists []. rewrite app_nil_r. split; [exact E | constructor]. Qed.

Lemma emits_only_trans (P : Effect -> bool) (w1 w2 w3 : World) :
  emits_only P w1 w2 -> emits_only P w2 w3 -> emits_only P w1 w3.
Proof.
  intros [es1 [E1 F1]] [es2 [E2 F2]]. exists (es1 ++ es2)%list. split.
  - rewrite E2, E1, app_assoc. reflexivity.
  - apply Forall_app. split; assumption.
Qed.

Lemma emits_only_weaken (P Q : Effect -> bool) (w w' : World) :
  (forall e, P e = true -> Q e = true) -> emits_only P w w' -> emits_only Q w w'.
Proof.
  intros HPQ [es [E F]]. exists es. split; [exact E|].
  eapply Forall_impl; [exact F|]. exact HPQ.
Qed.

Lemma emits_only_emit (P : Effect -> bool) (e : Effect) (w : World) :
  P e = true -> emits_only P w (emit e w).
Proof. intros He. exists [e]. split; [reflexivity|]. constructor; [exact He | constructor]. Qed.

Lemma emits_only_fold_left {B : Type} (P : Effect -> bool) (f : World -> B -> World)
    (l : list B) (w : World) :
  (forall w x, emits_only P w (f w x)) -> emits_only P w (fold_left f l w).
Proof.
  intros Hf. revert w. induction l as [|x l IH]; intros w; simpl.
  - apply emits_only_refl.
  - eapply emits_only_trans; [apply Hf | apply IH].
Qed.

Lemma emits_only_iter (P : Effect -> bool) (f : World -> World) (n : nat) (w : World) :
  (forall w, emits_only P w (f w)) -> emits_only P w (Nat.iter n f w).
Proof.
  intros Hf. induction n as [|n IH]; simpl.
  - apply emits_only_refl.
  - eapply emits_only_trans; [apply IH | apply Hf].
Qed.

Lemma report_is_quiet (e : Effect) : is_report e = true -> is_quiet e = true.
Proof. destruct e; simpl; congruence. Qed.

Lemma quiet_is_not_end (e : Effect) : is_quiet e = true -> is_not_end e = true.
Proof. destruct e; simpl; congruence. Qed.

Lemma analysis_step_refl (w : World) : analysis_step w w.
Proof.
  split; try reflexivity; try (exists []; rewrite app_nil_r; reflexivity).
  apply emits_only_refl.
Qed.

Lemma analysis_step_trans (w1 w2 w3 : World) :
  analysis_step w1 w2 -> analysis_step w2 w3 -> analysis_step w1 w3.
Proof.
  intros [e1 x1 s1 c1 [p1 P1] [t1 T1] l1 a1] [e2 x2 s2 c2 [p2 P2] [t2 T2] l2 a2].
  split; try congruence.
  - eapply emits_only_trans; eassumption.
  - exists (p1 ++ p2)%list. rewrite P2, P1, app_assoc. reflexivity.
  - exists (t1 ++ t2)%list. rewrite T2, T1, app_assoc. reflexivity.
Qed.

Lemma analysis_step_fold_left {B : Type} (f : World -> B -> World) (l : list B) (w : World) :
  (forall w x, analysis_step w (f w x)) -> analysis_step w (fold_left f l w).
Proof.
  intros Hf. revert w. induction l as [|x l IH]; intros w; simpl.
  - apply analysis_step_refl.
  - eapply analysis_step_trans; [apply Hf | apply IH].
Qed.

(** A step that touches neither the log nor what the record names. *)
Lemma analysis_step_silent (w w' : World) :
  effects w' = effects w -> xhrs w' = xhrs w ->
  Probe.sentXHRs (probe w') = Probe.sentXHRs (probe w) ->
  Probe._currentPageEvent (probe w') = Probe._currentPageEvent (probe w) ->
  pending w' = pending w -> triggered w' = triggered w ->
  location_href (page w') = location_href (page w) ->
  all_elements (page w') = all_elements (page w) ->
  analysis_step w w'.
Proof.
  intros He Hx Hs Hc Hp Ht Hl Ha. split; try assumption.
  - apply emits_only_same, He.
  - exists []. rewrite app_nil_r. exact Hp.
  - exists []. rewrite app_nil_r. exact Ht.
Qed.

Lemma analysis_step_PageEvent_new (el : Node) (ev : string) (w : World) :
  analysis_step w (snd (PageEvent_new el ev w)).
Proof. apply analysis_step_silent; reflexivity. Qed.

Lemma analysis_step_set_eventsMap (l : list (Node * list string)) (w : World) :
  analysis_step w (update_probe (Probe.set_eventsMap l) w).
Proof. apply analysis_step_silent; reflexivity. Qed.

Lemma analysis_step_assign (el : Node) (e : Element.t) (w : World) :
  analysis_step w (set_page (set_element el e (page w)) w).
Proof. apply analysis_step_silent; try reflexivity; destruct el; reflexivity. Qed.

Section Footprint.

Variable browser : Browser.
Variable options : Options.
Variable constants : Constants.

Lemma analysis_step_printRequest (r : Request.t) (w : World) :
  analysis_step w (printRequest r w).
Proof.
  unfold printRequest.
  destruct (Array.indexOf _ _ <? 0); [|apply analysis_step_refl].
  split; try reflexivity; try (exists []; rewrite app_nil_r; reflexivity).
  eexists [_]. split; [reflexivity|]. constructor; [reflexivity | constructor].
Qed.

Lemma analysis_step_print_or_warn (req : JS.result Request.t) (w : World) :
  analysis_step w (print_or_warn req w).
Proof. destruct req; simpl; [apply analysis_step_printRequest | apply analysis_step_refl]. Qed.

Lemma analysis_step_printLink (url : string) (w : World) :
  analysis_step w (printLink browser url w).
Proof. apply analysis_step_print_or_warn. Qed.

Lemma analysis_step_printWebsocket (url : string) (w : World) :
  analysis_step w (printWebsocket browser url w).
Proof. apply analysis_step_print_or_warn. Qed.

Lemma analysis_step_printJSONP (n : Node) (w : World) :
  analysis_step w (printJSONP browser n w).
Proof.
  unfold printJSONP.
  destruct (_ && _); [|apply analysis_step_refl].
  destruct (_getAbsoluteUrl _ _ _ _); [|apply analysis_step_refl].
  destruct (JS.truthy _); [apply analysis_step_print_or_warn | apply analysis_step_refl].
Qed.

Lemma analysis_step_addEventToMap (el : Node) (ev : string) (w : World) :
  analysis_step w (addEventToMap el ev w).
Proof.
  unfold addEventToMap. destruct (addEventToMap_loop _ _ _); apply analysis_step_set_eventsMap.
Qed.

Lemma analysis_step_mapElementEvents (el : Node) (w : World) :
  analysis_step w (_mapElementEvents constants el w).
Proof.
  unfold _mapElementEvents. apply analysis_step_fold_left. intros w' ev.
  destruct (bool_decide _); [apply analysis_step_addEventToMap | apply analysis_step_refl].
Qed.

Lemma analysis_step_trigger (pe : PageEvent.t) (w : World) : analysis_step w (_trigger pe w).
Proof.
  unfold _trigger, update_manager, EventLoopManager.scheduleEventTriggering.
  destruct (Array.indexOf _ _ <? 0).
  - split; try reflexivity; try (exists []; rewrite app_nil_r; reflexivity).
    + apply emits_only_same. reflexivity.
    + exists [pe]. reflexivity.
  - apply analysis_step_silent; reflexivity.
Qed.

Lemma analysis_step_record (pe : PageEvent.t) (w : World) :
  analysis_step w
    (update_probe (fun p => Probe.set_triggeredPageEvents
                              (Array.push pe (Probe._triggeredPageEvents p)) p) w).
Proof.
  split; try reflexivity; try (exists []; rewrite app_nil_r; reflexivity).
  - apply emits_only_same. reflexivity.
  - exists [pe]. reflexivity.
Qed.

Lemma analysis_step_triggerElementEvents (el : Node) (w : World) :
  analysis_step w (_triggerElementEvents constants el w).
Proof.
  unfold _triggerElementEvents. apply analysis_step_fold_left. intros w' ev.
  simpl. destruct (_ && _).
  - eapply analysis_step_trans; [apply (analysis_step_PageEvent_new el ev w')|].
    eapply analysis_step_trans; [apply analysis_step_record | apply analysis_step_trigger].
  - apply (analysis_step_PageEvent_new el ev w').
Qed.

Lemma analysis_step_assign_value (el : Node) (v : string) (w : World) :
  analysis_step w (assign_value el v w).
Proof. apply analysis_step_assign. Qed.

Lemma analysis_step_triggerChange (el : Node) (w : World) :
  analysis_step w (triggerChange el w).
Proof.
  unfold triggerChange. simpl.
  eapply analysis_step_trans; [apply (analysis_step_PageEvent_new el "input" w)|].
  apply analysis_step_trigger.
Qed.

Lemma analysis_step_setVal (el : Node) (w : World) :
  analysis_step w (_setVal browser options constants el w).
Proof.
  unfold _setVal.
  repeat match goal with
         | |- analysis_step _ (if ?c then _ else _) => destruct c
         | |- analysis_step ?w ?w => apply analysis_step_refl
         | |- analysis_step _ (triggerChange _ _) =>
             eapply analysis_step_trans; [|apply analysis_step_triggerChange]
         | |- analysis_step _ (assign_value _ _ _) => apply analysis_step_assign_value
         | |- analysis_step _ (set_page (set_element _ _ _) _) => apply analysis_step_assign
         end.
Qed.

Lemma analysis_step_printRequestFromForm (el : Node) (w : World) :
  analysis_step w (_printRequestFromForm browser el w).
Proof.
  unfold _printRequestFromForm.
  destruct (String.eqb _ _); [apply analysis_step_print_or_warn | apply analysis_step_refl].
Qed.

Lemma analysis_step_printRequestFromATag (el : Node) (w : World) :
  analysis_step w (_printRequestFromATag browser el w).
Proof.
  unfold _printRequestFromATag.
  destruct (_ && _); [apply analysis_step_printLink | apply analysis_step_refl].
Qed.

Lemma analysis_step_analyzeDOMElement (el : Node) (w : World) :
  analysis_step w (_analyzeDOMElement browser options constants el w).
Proof.
  unfold _analyzeDOMElement. cbv zeta.
  eapply analysis_step_trans; [apply (analysis_step_mapElementEvents el w)|].
  match goal with
  | |- analysis_step ?a (if _ then _triggerElementEvents _ _ ?b else ?b) =>
      assert (H : analysis_step a b)
  end.
  { eapply analysis_step_trans; [|apply analysis_step_printRequestFromATag].
    eapply analysis_step_trans; [|apply analysis_step_printRequestFromForm].
    destruct (fillValues options); [|apply analysis_step_refl].
    apply analysis_step_fold_left. intros w' el'. apply analysis_step_setVal. }
  destruct (triggerEvents options); [|exact H].
  eapply analysis_step_trans; [exact H | apply analysis_step_triggerElementEvents].
Qed.

End Footprint.

(** * The scheduler, branch by branch *)

Lemma positive_length {A : Type} (l : list A) :
  (0 <? Array.length l) = match l with [] => false | _ :: _ => true end.
Proof.
  destruct l; [reflexivity|]. apply Z.ltb_lt. unfold Array.length. simpl. lia.
Qed.

Lemma update_manager_same (f : EventLoopManager.t -> EventLoopManager.t) (w : World) :
  f (manager w) = manager w -> update_manager f w = w.
Proof.
  intros E. unfold update_manager. rewrite E. destruct w as [p pg x e a]. destruct p.
  reflexivity.
Qed.

Lemma update_manager_ext (f g : EventLoopManager.t -> EventLoopManager.t) (w : World) :
  f (manager w) = g (manager w) -> update_manager f w = update_manager g w.
Proof. intros E. unfold update_manager. rewrite E. reflexivity. Qed.

Lemma set_emptyLoopCounter_same (m : EventLoopManager.t) :
  EventLoopManager.set_emptyLoopCounter (EventLoopManager._emptyLoopCounter m) m = m.
Proof. destruct m. reflexivity. Qed.

Lemma iter_emit_update_manager (f : EventLoopManager.t -> EventLoopManager.t) (e : Effect)
    (n : nat) (w : World) :
  Nat.iter n (emit e) (update_manager f w) = update_manager f (Nat.iter n (emit e) w).
Proof.
  induction n as [|n IH]; [reflexivity|]. simpl. rewrite IH. reflexivity.
Qed.

Lemma iter_emit_manager (e : Effect) (n : nat) (w : World) :
  manager (Nat.iter n (emit e) w) = manager w.
Proof. induction n as [|n IH]; [reflexivity|]. simpl. exact IH. Qed.

Lemma iter_emit_effects (e : Effect) (n : nat) (w : World) :
  effects (Nat.iter n (emit e) w) = (effects w ++ replicate n e)%list.
Proof.
  induction n as [|n IH]; simpl.
  - rewrite app_nil_r. reflexivity.
  - rewrite IH. rewrite <- app_assoc. f_equal.
    clear IH. induction n as [|n IH]; [reflexivity|]. simpl. rewrite <- IH. reflexivity.
Qed.

Lemma iter_succ_inside {A : Type} (f : A -> A) (n : nat) (x : A) :
  Nat.iter n f (f x) = f (Nat.iter n f x).
Proof. induction n as [|n IH]; [reflexivity|]. simpl. rewrite IH. reflexivity. Qed.

Section Scheduling.

Variable browser : Browser.
Variable options : Options.
Variable constants : Constants.

Local Abbreviation buffer := (bufferCycleSize (eventLoopConfig constants)).
Local Abbreviation action := (_doNextAction browser options constants).
Local Abbreviation started w :=
  (update_manager (EventLoopManager.set_isReadyToClose false) (emit entered_doNextAction w)).

Lemma doNextAction_sent (w : World) :
  EventLoopManager._sentXHRQueue (manager w) <> [] ->
  action w = emit postMessage (started w).
Proof.
  intros Hsent. unfold _doNextAction. cbv zeta.
  change (manager (emit entered_doNextAction w)) with (manager w).
  rewrite !positive_length.
  destruct (EventLoopManager._sentXHRQueue (manager w)); [congruence | reflexivity].
Qed.

Lemma doNextAction_done (w : World) (x : nat) (rest : list nat) :
  EventLoopManager._sentXHRQueue (manager w) = [] ->
  EventLoopManager._doneXHRQueue (manager w) = x :: rest ->
  action w = originalSetTimeout options post_tick
               (afterDoneXHRTimeout (eventLoopConfig constants))
               (update_manager (EventLoopManager.set_doneXHRQueue rest) (started w)).
Proof.
  intros Hsent Hdone. unfold _doNextAction. cbv zeta.
  change (manager (emit entered_doNextAction w)) with (manager w).
  rewrite !positive_length, Hsent, Hdone.
  unfold config. f_equal. apply update_manager_ext.
  change (EventLoopManager._doneXHRQueue (manager (started w)))
    with (EventLoopManager._doneXHRQueue (manager w)).
  rewrite Hdone. reflexivity.
Qed.

Lemma doNextAction_dom (w : World) (el : Node) (rest : list Node) :
  EventLoopManager._sentXHRQueue (manager w) = [] ->
  EventLoopManager._doneXHRQueue (manager w) = [] ->
  EventLoopManager._DOMAssessmentQueue (manager w) = el :: rest ->
  action w = emit postMessage
               (_analyzeDOMElement browser options constants el
                  (update_manager (EventLoopManager.set_DOMAssessmentQueue rest) (started w))).
Proof.
  intros Hsent Hdone Hdom. unfold _doNextAction. cbv zeta.
  change (manager (emit entered_doNextAction w)) with (manager w).
  rewrite !positive_length, Hsent, Hdone, Hdom. reflexivity.
Qed.

Lemma doNextAction_event (w : World) (q : list PageEvent.t) (pe : PageEvent.t) :
  EventLoopManager._sentXHRQueue (manager w) = [] ->
  EventLoopManager._doneXHRQueue (manager w) = [] ->
  EventLoopManager._DOMAssessmentQueue (manager w) = [] ->
  pending w = (q ++ [pe])%list ->
  let popped := update_probe (Probe.set_currentPageEvent (Some pe))
                  (update_manager (EventLoopManager.set_toBeTriggeredEventsQueue q)
                     (started w)) in
  action w = match PageEvent_trigger pe popped with
             | JS.Ok w' => originalSetTimeout options post_tick
                             (afterEventTriggeredTimeout (eventLoopConfig constants)) w'
             | JS.Throw _ => popped
             end.
Proof.
  intros Hsent Hdone Hdom Hev. unfold pending in Hev. unfold _doNextAction. cbv zeta.
  change (manager (emit entered_doNextAction w)) with (manager w).
  rewrite !positive_length, Hsent, Hdone, Hdom, Hev.
  unfold Array.pop. rewrite last_snoc, removelast_snoc.
  destruct q; reflexivity.
Qed.

Lemma doNextAction_idle (w : World) :
  idle (manager w) ->
  action w =
  if EventLoopManager._isReadyToClose (manager w)
  then emit PROBE_FN_REQUEST_END (emit entered_doNextAction w)
  else originalSetTimeout options close_then_tick
         (beforeClosingEventLoopManagerTimeout (eventLoopConfig constants))
         (emit entered_doNextAction w).
Proof.
  intros (Hsent & Hdone & Hdom & Hev). unfold _doNextAction. cbv zeta.
  change (manager (emit entered_doNextAction w)) with (manager w).
  rewrite !positive_length, Hsent, Hdone, Hdom, Hev. reflexivity.
Qed.

Lemma tick_counts (m : MessageEvent) (w : World) :
  is_tick constants m = true ->
  EventLoopManager._emptyLoopCounter (manager w) < buffer ->
  eventMessageHandler browser options constants m w
  = update_manager (fun m => EventLoopManager.set_emptyLoopCounter
                               (EventLoopManager._emptyLoopCounter m + 1) m)
      (emit postMessage w).
Proof.
  intros Htick Hlt. unfold is_tick in Htick. apply andb_prop in Htick as [Hfrom Hname].
  unfold eventMessageHandler, config. rewrite Hfrom, Hname.
  rewrite (proj2 (Z.ltb_lt _ _) Hlt). reflexivity.
Qed.

Lemma tick_acts (m : MessageEvent) (w : World) :
  is_tick constants m = true ->
  buffer <= EventLoopManager._emptyLoopCounter (manager w) ->
  eventMessageHandler browser options constants m w
  = action (update_manager (EventLoopManager.set_emptyLoopCounter 0) w).
Proof.
  intros Htick Hle. unfold is_tick in Htick. apply andb_prop in Htick as [Hfrom Hname].
  unfold eventMessageHandler, config. rewrite Hfrom, Hname.
  rewrite (proj2 (Z.ltb_ge _ _) Hle). reflexivity.
Qed.

Lemma ticks_count_down (m : MessageEvent) (k : nat) (w : World) :
  is_tick constants m = true ->
  (k <= Z.to_nat buffer)%nat ->
  EventLoopManager._emptyLoopCounter (manager w) = Z.max 0 buffer - Z.of_nat k ->
  run browser options constants (replicate (S k) (message m)) w
  = action (update_manager (EventLoopManager.set_emptyLoopCounter 0)
              (Nat.iter k (emit postMessage) w)).
Proof.
  intros Htick. revert w. induction k as [|k IH]; intros w Hk Hc.
  - simpl. apply tick_acts; [exact Htick | lia].
  - change (run browser options constants (replicate (S (S k)) (message m)) w)
      with (run browser options constants (replicate (S k) (message m))
              (eventMessageHandler browser options constants m w)).
    rewrite tick_counts; [|exact Htick | lia].
    rewrite IH; [| lia |].
    + rewrite iter_emit_update_manager, iter_succ_inside. reflexivity.
    + change (EventLoopManager._emptyLoopCounter (manager w) + 1
              = Z.max 0 buffer - Z.of_nat k). lia.
Qed.

(** X9. The debounce, for any buffer size: from a counter at zero, the
    ticks up to the buffer size are each answered by one more tick and
    nothing else, and the next tick runs one action. *)
Theorem ticks_until_the_next_action (m : MessageEvent) (w : World) :
  is_tick constants m = true ->
  EventLoopManager._emptyLoopCounter (manager w) = 0 ->
  run browser options constants (replicate (S (Z.to_nat buffer)) (message m)) w
  = action (Nat.iter (Z.to_nat buffer) (emit postMessage) w).
Proof.
  intros Htick Hc.
  rewrite (ticks_count_down m (Z.to_nat buffer) w Htick); [| lia | lia].
  f_equal. apply update_manager_same.
  rewrite iter_emit_manager, <- Hc. apply set_emptyLoopCounter_same.
Qed.

End Scheduling.

(** * What the crawl does and does not do *)

Lemma emits_only_emit_after (P : Effect -> bool) (e : Effect) (w w0 : World) :
  emits_only P w w0 -> P e = true -> emits_only P w (emit e w0).
Proof.
  intros H He. eapply emits_only_trans; [exact H | apply emits_only_emit, He].
Qed.

Lemma emits_only_update_manager (P : Effect -> bool)
    (f : EventLoopManager.t -> EventLoopManager.t) (w w0 : World) :
  emits_only P w w0 -> emits_only P w (update_manager f w0).
Proof. intros H. eapply emits_only_trans; [exact H | apply emits_only_same; reflexivity]. Qed.

Lemma emits_only_update_probe (P : Effect -> bool) (f : Probe.t -> Probe.t) (w w0 : World) :
  emits_only P w w0 -> emits_only P w (update_probe f w0).
Proof. intros H. eapply emits_only_trans; [exact H | apply emits_only_same; reflexivity]. Qed.

Lemma emits_only_set_xhrs (P : Effect -> bool) (x : gmap nat XHR.t) (w w0 : World) :
  emits_only P w w0 -> emits_only P w (set_xhrs x w0).
Proof. intros H. eapply emits_only_trans; [exact H | apply emits_only_same; reflexivity]. Qed.

Lemma emits_only_originalSetTimeout (P : Effect -> bool) (options : Options)
    (callback : Callback) (delay : Z) (w w0 : World) :
  emits_only P w w0 -> P (setTimeout callback delay) = true ->
  emits_only P w (originalSetTimeout options callback delay w0).
Proof.
  intros H HP. unfold originalSetTimeout.
  destruct (overrideTimeoutFunctions options); [|exact H].
  apply emits_only_emit_after; assumption.
Qed.

Ltac emits :=
  repeat first
    [ apply emits_only_refl
    | apply emits_only_emit_after; [|reflexivity]
    | apply emits_only_originalSetTimeout; [|reflexivity]
    | apply emits_only_update_manager
    | apply emits_only_update_probe
    | apply emits_only_set_xhrs ].

Lemma scheduleDOMAssessment_network (el : Node) (m : EventLoopManager.t) :
  EventLoopManager._sentXHRQueue (EventLoopManager.scheduleDOMAssessment el m)
  = EventLoopManager._sentXHRQueue m
  /\ EventLoopManager._doneXHRQueue (EventLoopManager.scheduleDOMAssessment el m)
     = EventLoopManager._doneXHRQueue m.
Proof. unfold EventLoopManager.scheduleDOMAssessment. destruct (_ <? 0); split; reflexivity. Qed.

Lemma same_network_and_log_fold_left {B : Type} (f : World -> B -> World) (l : list B)
    (w : World) :
  (forall w x, same_network_and_log w (f w x)) -> same_network_and_log w (fold_left f l w).
Proof.
  intros Hf. revert w. induction l as [|x l IH]; intros w; simpl.
  - repeat split.
  - destruct (Hf w x) as (a1 & b1 & c1). destruct (IH (f w x)) as (a2 & b2 & c2).
    repeat split; congruence.
Qed.

Lemma same_network_and_log_schedule (el : Node) (w : World) :
  same_network_and_log w (update_manager (EventLoopManager.scheduleDOMAssessment el) w).
Proof.
  destruct (scheduleDOMAssessment_network el (manager w)) as [Hs Hd].
  repeat split; assumption.
Qed.

Lemma same_network_and_log_nodeMutated (ms : list MutationRecord) (w : World) :
  same_network_and_log w (nodeMutated ms w).
Proof.
  unfold nodeMutated. apply same_network_and_log_fold_left. intros w' [added|el name|el].
  - apply same_network_and_log_fold_left. intros w'' n.
    destruct (_ =? _); [apply same_network_and_log_schedule | repeat split].
  - destruct (scheduleDOMAssessment_network el
                (manager (update_probe
                   (fun p => Probe.set_triggeredPageEvents
                               (purge_triggered el (Probe._triggeredPageEvents p)) p) w')))
      as [Hs Hd].
    repeat split; assumption.
  - repeat split.
Qed.

Lemma same_network_and_log_listener (x : nat) (readyState : Z) (w : World) :
  effects (readystatechange_listener x readyState w) = effects w.
Proof.
  unfold readystatechange_listener.
  destruct (_ && _); [reflexivity|]. destruct (_ =? _); reflexivity.
Qed.

Section Crawl.

Variable browser : Browser.
Variable options : Options.
Variable constants : Constants.

Local Abbreviation action := (_doNextAction browser options constants).
Local Abbreviation handle := (handle browser options constants).
Local Abbreviation run := (run browser options constants).
Local Abbreviation started w :=
  (update_manager (EventLoopManager.set_isReadyToClose false) (emit entered_doNextAction w)).
Local Abbreviation popped q pe w :=
  (update_probe (Probe.set_currentPageEvent (Some pe))
     (update_manager (EventLoopManager.set_toBeTriggeredEventsQueue q) (started w))).

(** What the event branch of an action emits. *)
Lemma emits_only_fired (P : Effect -> bool) (delay : Z) (pe : PageEvent.t) (w w0 : World) :
  emits_only P w w0 ->
  (forall eventType,
     P (dispatchEvent (PageEvent.element pe) eventType (PageEvent.eventName pe)) = true) ->
  P (setTimeout post_tick delay) = true ->
  emits_only P w
    match PageEvent_trigger pe w0 with
    | JS.Ok w' => originalSetTimeout options post_tick delay w'
    | JS.Throw _ => w0
    end.
Proof.
  intros H Hd Ht.
  destruct (PageEvent_trigger_cases pe w0) as [(ty & _ & E)|(e & _ & E)]; rewrite E.
  - apply emits_only_originalSetTimeout; [|exact Ht].
    apply emits_only_emit_after; [exact H | apply Hd].
  - exact H.
Qed.

(** The five branches of an action. *)
Lemma action_cases (w : World) :
  (EventLoopManager._sentXHRQueue (manager w) <> []
   /\ action w = emit postMessage (started w))
  \/ (EventLoopManager._sentXHRQueue (manager w) = []
      /\ exists x rest,
           EventLoopManager._doneXHRQueue (manager w) = x :: rest
           /\ action w
              = originalSetTimeout options post_tick
                  (afterDoneXHRTimeout (eventLoopConfig constants))
                  (update_manager (EventLoopManager.set_doneXHRQueue rest) (started w)))
  \/ (EventLoopManager._sentXHRQueue (manager w) = []
      /\ EventLoopManager._doneXHRQueue (manager w) = []
      /\ exists el rest,
           EventLoopManager._DOMAssessmentQueue (manager w) = el :: rest
           /\ action w
              = emit postMessage
                  (_analyzeDOMElement browser options constants el
                     (update_manager (EventLoopManager.set_DOMAssessmentQueue rest)
                        (started w))))
  \/ (EventLoopManager._sentXHRQueue (manager w) = []
      /\ EventLoopManager._doneXHRQueue (manager w) = []
      /\ EventLoopManager._DOMAssessmentQueue (manager w) = []
      /\ exists q pe,
           pending w = (q ++ [pe])%list
           /\ action w
              = match PageEvent_trigger pe (popped q pe w) with
                | JS.Ok w' => originalSetTimeout options post_tick
                                (afterEventTriggeredTimeout (eventLoopConfig constants)) w'
                | JS.Throw _ => popped q pe w
                end)
  \/ (idle (manager w)
      /\ action w
         = if EventLoopManager._isReadyToClose (manager w)
           then emit PROBE_FN_REQUEST_END (emit entered_doNextAction w)
           else originalSetTimeout options close_then_tick
                  (beforeClosingEventLoopManagerTimeout (eventLoopConfig constants))
                  (emit entered_doNextAction w)).
Proof.
  destruct (EventLoopManager._sentXHRQueue (manager w)) as [|s sent] eqn:Hsent.
  2: { left. split; [discriminate|]. apply doNextAction_sent. rewrite Hsent. discriminate. }
  right. destruct (EventLoopManager._doneXHRQueue (manager w)) as [|x rest] eqn:Hdone.
  2: { left. split; [reflexivity|]. exists x, rest. split; [reflexivity|].
       apply (doNextAction_done browser options constants w x rest); assumption. }
  right. destruct (EventLoopManager._DOMAssessmentQueue (manager w)) as [|el rest] eqn:Hdom.
  2: { left. split; [reflexivity|]. split; [reflexivity|]. exists el, rest.
       split; [reflexivity|]. apply (doNextAction_dom browser options constants w el rest); assumption. }
  right. destruct (pending w) as [|pe0 q0] eqn:Hev.
  2: { left. split; [reflexivity|]. split; [reflexivity|]. split; [reflexivity|].
       assert (Hne : pe0 :: q0 <> []) by discriminate.
       pose proof (app_removelast_last pe0 Hne) as Hsplit.
       exists (removelast (pe0 :: q0)), (List.last (pe0 :: q0) pe0).
       split; [exact Hsplit|].
       apply (doNextAction_event browser options constants w); try assumption.
       rewrite Hev. exact Hsplit. }
  right. assert (Hidle : idle (manager w)) by (repeat split; assumption).
  split; [exact Hidle|]. apply doNextAction_idle, Hidle.
Qed.

Lemma analysis_emits_quiet (w w' : World) : analysis_step w w' -> emits_only is_quiet w w'.
Proof.
  intros H. eapply emits_only_weaken; [apply report_is_quiet | apply (step_effects _ _ H)].
Qed.

(** Anything but a message: nothing is fired, no timer is set and the
    crawl is not ended. *)
Lemma handle_other_quiet (i : Input) (w : World) :
  is_message i = false -> emits_only is_quiet w (handle i w).
Proof.
  destruct i as [m|cb| |ms|this type|this type|x method url|x rs|x d|n|url|form|url|pg];
    simpl; intros Hi; try discriminate.
  - destruct cb; simpl; emits.
  - unfold startAnalysis, start. apply emits_only_emit_after; [|reflexivity].
    apply emits_only_same.
    apply (same_network_and_log_fold_left
             (fun w el => update_manager (EventLoopManager.scheduleDOMAssessment el) w)).
    intros w' el. apply same_network_and_log_schedule.
  - apply emits_only_same, same_network_and_log_nodeMutated.
  - unfold hook_Node_addEventListener. destruct (negb _); [|apply emits_only_refl].
    apply analysis_emits_quiet, analysis_step_addEventToMap.
  - unfold hook_window_addEventListener. destruct (negb _); [|apply emits_only_refl].
    apply analysis_emits_quiet, analysis_step_addEventToMap.
  - unfold hook_XHR_open. destruct (Request_new _ _ _ _ _ _ _); emits.
  - unfold on_readystatechange. apply emits_only_iter. intros w'.
    apply emits_only_same, same_network_and_log_listener.
  - unfold hook_XHR_send. destruct (XHR.__request _); [|apply emits_only_refl].
    cbv zeta. destruct (negb (_ =? -1)); [emits|].
    match goal with
    | |- emits_only _ _ (if ?c then _ else _) => destruct c
    end.
    + apply emits_only_emit_after; [|reflexivity].
      eapply emits_only_trans; [|apply analysis_emits_quiet, analysis_step_printRequest].
      emits.
    + eapply emits_only_trans; [|apply analysis_emits_quiet, analysis_step_printRequest].
      emits.
  - apply analysis_emits_quiet, analysis_step_printJSONP.
  - apply analysis_emits_quiet, analysis_step_printWebsocket.
  - apply analysis_emits_quiet, analysis_step_print_or_warn.
  - apply analysis_emits_quiet, analysis_step_printLink.
  - apply emits_only_same. reflexivity.
Qed.

(** What an action emits when not both idle and ready to close. *)
Lemma action_not_end (w : World) :
  (idle (manager w) -> EventLoopManager._isReadyToClose (manager w) = false) ->
  emits_only is_not_end w (action w).
Proof.
  intros Hnot.
  destruct (action_cases w)
    as [[_ E]|[(_ & x & rest & _ & E)|[(_ & _ & el & rest & _ & E)
       |[(_ & _ & _ & q & pe & _ & E)|[Hidle E]]]]]; rewrite E.
  - emits.
  - emits.
  - apply emits_only_emit_after; [|reflexivity].
    eapply emits_only_trans;
      [|eapply emits_only_weaken;
        [|apply (step_effects _ _ (analysis_step_analyzeDOMElement browser options constants el _))]].
    + emits.
    + intros e He. apply quiet_is_not_end, report_is_quiet, He.
  - apply emits_only_fired; [emits | reflexivity | reflexivity].
  - rewrite (Hnot Hidle). emits.
Qed.

(** What an action emits while a request or an element waits. *)
Lemma action_not_dispatch (w : World) :
  EventLoopManager._sentXHRQueue (manager w) <> []
  \/ EventLoopManager._doneXHRQueue (manager w) <> []
  \/ EventLoopManager._DOMAssessmentQueue (manager w) <> [] ->
  emits_only is_not_dispatch w (action w).
Proof.
  intros Hwaits.
  destruct (action_cases w)
    as [[_ E]|[(_ & x & rest & _ & E)|[(_ & _ & el & rest & _ & E)
       |[(Hs & Hd & Hq & _)|[Hidle E]]]]]; try rewrite E.
  - emits.
  - emits.
  - apply emits_only_emit_after; [|reflexivity].
    eapply emits_only_trans;
      [|eapply emits_only_weaken;
        [|apply (step_effects _ _ (analysis_step_analyzeDOMElement browser options constants el _))]].
    + emits.
    + intros e He. destruct e; simpl in *; congruence.
  - destruct Hwaits as [H|[H|H]]; congruence.
  - destruct Hidle as (Hs & Hd & Hq & _). destruct Hwaits as [H|[H|H]]; congruence.
Qed.

(** X10. The end of the crawl is signalled only from a state where
    nothing is queued and the closing delay has passed: in any other
    state, whatever the input, no PROBE_FN_REQUEST_END is emitted. *)
Theorem end_is_signalled_only_when_idle_and_ready (i : Input) (w : World) :
  (idle (manager w) -> EventLoopManager._isReadyToClose (manager w) = false) ->
  emits_only is_not_end w (handle i w).
Proof.
  intros Hnot. destruct (is_message i) eqn:Hi.
  2: { eapply emits_only_weaken; [apply quiet_is_not_end | apply handle_other_quiet, Hi]. }
  destruct i as [m| | | | | | | | | | | | |]; try discriminate. simpl.
  unfold eventMessageHandler.
  destruct (_ && _); [|apply emits_only_refl].
  destruct (String.eqb _ _).
  - destruct (_ <? _); [emits|].
    eapply emits_only_trans; [|apply action_not_end; exact Hnot]. emits.
  - destruct (String.eqb _ _); [|apply emits_only_refl].
    eapply emits_only_weaken; [|apply analysis_emits_quiet, analysis_step_printLink].
    apply quiet_is_not_end.
Qed.

(** X11. Only a message makes the probe fire an event, set a timer or
    end the crawl: the hooks, the mutation observer, [startAnalysis] and
    the expiry of a timer do none of these. *)
Theorem only_a_message_drives_the_crawl (i : Input) (w : World) :
  is_message i = false -> emits_only is_quiet w (handle i w).
Proof. apply handle_other_quiet. Qed.

(** X12. While a request is on the network, a completed request waits
    for its delay, or an element waits for its analysis, no input makes
    the probe fire an event. *)
Theorem no_event_is_fired_while_something_else_waits (i : Input) (w : World) :
  EventLoopManager._sentXHRQueue (manager w) <> []
  \/ EventLoopManager._doneXHRQueue (manager w) <> []
  \/ EventLoopManager._DOMAssessmentQueue (manager w) <> [] ->
  emits_only is_not_dispatch w (handle i w).
Proof.
  intros Hwaits. destruct (is_message i) eqn:Hi.
  2: { eapply emits_only_weaken; [|apply handle_other_quiet, Hi].
       intros e He. destruct e; simpl in *; congruence. }
  destruct i as [m| | | | | | | | | | | | |]; try discriminate. simpl.
  unfold eventMessageHandler.
  destruct (_ && _); [|apply emits_only_refl].
  destruct (String.eqb _ _).
  - destruct (_ <? _); [emits|].
    eapply emits_only_trans; [|apply action_not_dispatch; exact Hwaits]. emits.
  - destruct (String.eqb _ _); [|apply emits_only_refl].
    eapply emits_only_weaken; [|apply analysis_emits_quiet, analysis_step_printLink].
    intros e He. destruct e; simpl in *; congruence.
Qed.



(** X14. The analysis of an element reports requests and does nothing
    else to the surroundings; it leaves the queues of requests and of
    elements, the XHR objects and the current event as they are, and it
    only adds to the pending events and to the trigger history. *)
Theorem analysis_reports_and_queues_only (el : Node) (w : World) :
  let w' := _analyzeDOMElement browser options constants el w in
  emits_only is_report w w'
  /\ EventLoopManager._sentXHRQueue (manager w') = EventLoopManager._sentXHRQueue (manager w)
  /\ EventLoopManager._doneXHRQueue (manager w') = EventLoopManager._doneXHRQueue (manager w)
  /\ EventLoopManager._DOMAssessmentQueue (manager w')
     = EventLoopManager._DOMAssessmentQueue (manager w)
  /\ xhrs w' = xhrs w
  /\ getLastTriggerPageEvent w' = getLastTriggerPageEvent w
  /\ (exists new, pending w' = (pending w ++ new)%list)
  /\ (exists new, triggered w' = (triggered w ++ new)%list).
Proof.
  intros w'.
  pose proof (analysis_step_analyzeDOMElement browser options constants el w) as [].
  pose proof (preserves_analyzeDOMElement browser options constants el w) as [].
  repeat split; assumption.
Qed.

End Crawl.

(** * Requests in both queues, and the end of the crawl *)

Lemma elem_of_delete_other {A : Type} (l : list A) (i : nat) (x r : A) :
  l !! i = Some x -> r ∈ l -> r <> x -> r ∈ delete i l.
Proof.
  revert i. induction l as [|a l IH]; intros i Hl Hin Hne.
  - apply elem_of_nil in Hin. contradiction.
  - destruct i as [|i]; simpl in *.
    + injection Hl as ->. apply elem_of_cons in Hin as [Hin|Hin]; [contradiction | exact Hin].
    + apply elem_of_cons in Hin as [Hin|Hin].
      * subst. apply elem_of_cons. left. reflexivity.
      * apply elem_of_cons. right. apply (IH i Hl Hin Hne).
Qed.

Lemma in_both_sentXHR (r x : nat) (m : EventLoopManager.t) :
  in_both_queues r m -> in_both_queues r (EventLoopManager.sentXHR x m).
Proof.
  intros [Hs Hd]. unfold EventLoopManager.sentXHR.
  destruct (_ <? 0); [|split; assumption].
  split; simpl; [|exact Hd]. unfold Array.push. apply elem_of_app. left. exact Hs.
Qed.

Lemma in_both_doneXHR (r x : nat) (m : EventLoopManager.t) :
  in_both_queues r m -> in_both_queues r (EventLoopManager.doneXHR x m).
Proof.
  intros [Hs Hd]. unfold EventLoopManager.doneXHR.
  destruct (Array.indexOf x (EventLoopManager._doneXHRQueue m) <? 0) eqn:E; [|split; assumption].
  apply indexOf_negative in E.
  assert (Hne : r <> x) by (intros ->; contradiction).
  destruct (0 <=? Array.indexOf x (EventLoopManager._sentXHRQueue m)) eqn:Ei; simpl.
  - split.
    + unfold Array.splice1.
      assert (Hx : x ∈ EventLoopManager._sentXHRQueue m).
      { apply indexOf_not_negative. apply Z.ltb_ge. apply Z.leb_le in Ei. exact Ei. }
      apply (elem_of_delete_other _ _ x r (indexOf_lookup x _ Hx) Hs Hne).
    + unfold Array.push. apply elem_of_app. left. exact Hd.
  - split; [exact Hs|]. unfold Array.push. apply elem_of_app. left. exact Hd.
Qed.

Lemma in_both_preserves (r : nat) (w w' : World) :
  preserves w w' -> in_both_queues r (manager w) -> in_both_queues r (manager w').
Proof.
  intros Hp [Hs Hd]. unfold in_both_queues.
  rewrite (pres_sent _ _ Hp), (pres_done _ _ Hp). split; assumption.
Qed.

Lemma in_both_same_network (r : nat) (w w' : World) :
  same_network_and_log w w' -> in_both_queues r (manager w) -> in_both_queues r (manager w').
Proof.
  intros (Hs' & Hd' & _) [Hs Hd]. unfold in_both_queues. rewrite Hs', Hd'. split; assumption.
Qed.

Section Stalled.

Variable browser : Browser.
Variable options : Options.
Variable constants : Constants.

Local Abbreviation action := (_doNextAction browser options constants).
Local Abbreviation handle := (handle browser options constants).
Local Abbreviation run := (run browser options constants).

Lemma run_app (a b : list Input) (w : World) : run (a ++ b) w = run b (run a w).
Proof. apply fold_left_app. Qed.

Lemma stalled_handle (r : nat) (i : Input) (w : World) :
  in_both_queues r (manager w) ->
  in_both_queues r (manager (handle i w)) /\ emits_only is_quiet w (handle i w).
Proof.
  intros Hboth.
  assert (Hsent : EventLoopManager._sentXHRQueue (manager w) <> []).
  { intros E. destruct Hboth as [Hs _]. rewrite E in Hs. apply elem_of_nil in Hs. exact Hs. }
  destruct (is_message i) eqn:Hi.
  - destruct i as [m| | | | | | | | | | | | |]; try discriminate. simpl.
    unfold eventMessageHandler.
    destruct (_ && _); [|split; [exact Hboth | apply emits_only_refl]].
    destruct (String.eqb _ _).
    + destruct (_ <? _); [split; [exact Hboth | emits]|].
      rewrite doNextAction_sent by exact Hsent.
      split; [exact Hboth | emits].
    + destruct (String.eqb _ _); [|split; [exact Hboth | apply emits_only_refl]].
      split.
      * apply (in_both_preserves r w _ (preserves_printLink browser _ w) Hboth).
      * apply analysis_emits_quiet, analysis_step_printLink.
  - split; [|apply handle_other_quiet, Hi].
    destruct i as [m|cb| |ms|this type|this type|x method url|x rs|x d|n|url|form|url|pg];
      simpl; try discriminate.
    + destruct cb; exact Hboth.
    + unfold startAnalysis, start.
      apply (in_both_same_network r w
               (fold_left (fun w el => update_manager
                                         (EventLoopManager.scheduleDOMAssessment el) w)
                  (all_elements (page w)) w)); [|exact Hboth].
      apply (same_network_and_log_fold_left
               (fun w el => update_manager (EventLoopManager.scheduleDOMAssessment el) w)).
      intros w' el. apply same_network_and_log_schedule.
    + apply (in_both_same_network r w _ (same_network_and_log_nodeMutated ms w) Hboth).
    + unfold hook_Node_addEventListener. destruct (negb _); [|exact Hboth].
      apply (in_both_preserves r w _ (preserves_addEventToMap _ _ w) Hboth).
    + unfold hook_window_addEventListener. destruct (negb _); [|exact Hboth].
      apply (in_both_preserves r w _ (preserves_addEventToMap _ _ w) Hboth).
    + unfold hook_XHR_open. destruct (Request_new _ _ _ _ _ _ _); exact Hboth.
    + unfold on_readystatechange.
      generalize (XHR.listeners (xhr_at w x)). intros n.
      induction n as [|n IH]; [exact Hboth|]. simpl.
      unfold readystatechange_listener at 1.
      destruct (_ && _); [apply in_both_sentXHR, IH|].
      destruct (_ =? _); [apply in_both_doneXHR, IH | exact IH].
    + unfold hook_XHR_send. destruct (XHR.__request _); [|exact Hboth].
      cbv zeta. destruct (negb (_ =? -1)); [exact Hboth|].
      match goal with
      | |- in_both_queues _ (manager (if ?c then emit ?e ?w1 else _)) =>
          assert (H1 : in_both_queues r (manager w1));
          [|destruct c; exact H1]
      end.
      eapply in_both_preserves; [apply preserves_printRequest | exact Hboth].
    + apply (in_both_preserves r w _ (preserves_printJSONP browser n w) Hboth).
    + apply (in_both_preserves r w _ (preserves_printWebsocket browser url w) Hboth).
    + apply (in_both_preserves r w _ (preserves_print_or_warn _ w) Hboth).
    + apply (in_both_preserves r w _ (preserves_printLink browser url w) Hboth).
    + exact Hboth.
Qed.

(** X15. A request that is in the sent queue and in the completed queue
    at once stays in both for the rest of the crawl, whatever happens;
    from then on the probe fires no event, sets no timer and never
    signals the end of the crawl. *)
Theorem a_request_in_both_queues_stalls_the_crawl (r : nat) (inputs : list Input) (w : World) :
  in_both_queues r (manager w) ->
  in_both_queues r (manager (run inputs w)) /\ emits_only is_quiet w (run inputs w).
Proof.
  revert w. induction inputs as [|i inputs IH]; intros w Hboth.
  - split; [exact Hboth | apply emits_only_refl].
  - destruct (stalled_handle r i w Hboth) as [Hboth' Hquiet].
    destruct (IH _ Hboth') as [Hboth'' Hquiet'].
    split; [exact Hboth''|]. eapply emits_only_trans; [exact Hquiet | exact Hquiet'].
Qed.

(** X16. How a crawl ends when the hooks keep the timer functions of
    the window ([overrideTimeoutFunctions]): in a state where nothing is
    queued, the ticks of one buffer cycle make the probe set the closing
    timer; when that timer expires and nothing else has come, the ticks
    of one more cycle make it signal the end of the crawl. *)
Theorem an_idle_probe_ends_the_crawl (m : MessageEvent) (w : World) :
  overrideTimeoutFunctions options = true ->
  is_tick constants m = true ->
  idle (manager w) ->
  EventLoopManager._emptyLoopCounter (manager w) = 0 ->
  EventLoopManager._isReadyToClose (manager w) = false ->
  let cycle := Z.to_nat (bufferCycleSize (eventLoopConfig constants)) in
  let ticks := replicate (S cycle) (message m) in
  effects (run (ticks ++ [timeout close_then_tick] ++ ticks) w)
  = (effects w ++ replicate cycle postMessage
       ++ [entered_doNextAction;
           setTimeout close_then_tick
             (beforeClosingEventLoopManagerTimeout (eventLoopConfig constants));
           postMessage]
       ++ replicate cycle postMessage
       ++ [entered_doNextAction; PROBE_FN_REQUEST_END])%list.
Proof.
  intros Hover Htick Hidle Hc Hflag cycle ticks.
  assert (Hticks : forall w0, EventLoopManager._emptyLoopCounter (manager w0) = 0 ->
            run ticks w0 = action (Nat.iter cycle (emit postMessage) w0)).
  { intros w0 Hc0. unfold ticks, cycle.
    rewrite (ticks_count_down browser options constants m _ w0 Htick); [| lia | lia].
    f_equal. apply update_manager_same.
    rewrite iter_emit_manager, <- Hc0. apply set_emptyLoopCounter_same. }
  rewrite !run_app. rewrite (Hticks w Hc).
  rewrite doNextAction_idle by (rewrite iter_emit_manager; exact Hidle).
  rewrite iter_emit_manager, Hflag.
  unfold originalSetTimeout. rewrite Hover.
  set (w1 := emit _ (emit entered_doNextAction (Nat.iter cycle (emit postMessage) w))).
  change (run [timeout close_then_tick] w1)
    with (emit postMessage (update_manager (EventLoopManager.set_isReadyToClose true) w1)).
  set (w2 := emit postMessage (update_manager (EventLoopManager.set_isReadyToClose true) w1)).
  assert (Hm2 : manager w2 = EventLoopManager.set_isReadyToClose true (manager w)).
  { unfold w2, w1.
    change (EventLoopManager.set_isReadyToClose true
              (manager (Nat.iter cycle (emit postMessage) w))
            = EventLoopManager.set_isReadyToClose true (manager w)).
    rewrite iter_emit_manager. reflexivity. }
  rewrite (Hticks w2) by (rewrite Hm2; exact Hc).
  rewrite doNextAction_idle by (rewrite iter_emit_manager, Hm2; exact Hidle).
  rewrite iter_emit_manager, Hm2.
  change (EventLoopManager._isReadyToClose
            (EventLoopManager.set_isReadyToClose true (manager w))) with true.
  cbv iota.
  change (effects (emit PROBE_FN_REQUEST_END
                     (emit entered_doNextAction (Nat.iter cycle (emit postMessage) w2))))
    with ((effects (Nat.iter cycle (emit postMessage) w2) ++ [entered_doNextAction])
            ++ [PROBE_FN_REQUEST_END])%list.
  rewrite iter_emit_effects.
  change (effects w2)
    with (((effects (Nat.iter cycle (emit postMessage) w) ++ [entered_doNextAction])
             ++ [setTimeout close_then_tick
                   (beforeClosingEventLoopManagerTimeout (eventLoopConfig constants))])
            ++ [postMessage])%list.
  rewrite iter_emit_effects.
  rewrite <- !app_assoc. reflexivity.
Qed.

End Stalled.

(** * Requests dropped as repeats *)

Section Repeats.

Variable browser : Browser.
Variable options : Options.
Variable constants : Constants.

(** X17. In every state of a crawl, [printRequest] drops a request for
    which [toJSON] gives an object that was reported before; and a
    request that it drops has the type, the method and the url of a
    request reported before. *)
Theorem a_dropped_request_was_reported_before (pg : Page) (inputs : list Input)
    (r : Request.t) :
  let w := run browser options constants inputs (initial pg) in
  (Request.toJSON (page w) r ∈ (snd <$> reported w) -> printRequest r w = w)
  /\ (printRequest r w = w ->
      exists r' o', (r', o') ∈ reported w
                    /\ Request.type r' = Request.type r
                    /\ Request.method r' = Request.method r
                    /\ Request.url r' = Request.url r).
Proof.
  intros w.
  pose proof (consistent_run browser options constants pg inputs) as Hc.
  fold w in Hc. destruct (ok_reports _ _ _ Hc) as [Hseen _].
  destruct (run_dedup_ok browser options constants pg inputs) as (_ & _ & Hjson).
  fold w in Hjson.
  unfold printRequest.
  destruct (Array.indexOf (Request.key (page w) r) (Probe.seenRequest (probe w)) <? 0) eqn:E.
  - apply indexOf_negative in E. split.
    + intros Hin. exfalso. apply E. rewrite Hseen. unfold reported_keys.
      apply list_elem_of_fmap in Hin as (p & Hp & Hin).
      apply list_elem_of_In, in_map_iff. exists p. split.
      * unfold Request.key. rewrite Hp. reflexivity.
      * apply list_elem_of_In, Hin.
    + intros Heq. apply (f_equal effects) in Heq. simpl in Heq.
      apply (f_equal (@List.length Effect)) in Heq. rewrite length_app in Heq.
      simpl in Heq. lia.
  - apply indexOf_not_negative in E. split; [reflexivity | intros _].
    rewrite Hseen in E. unfold reported_keys in E.
    apply list_elem_of_In, in_map_iff in E as ([r' o'] & Hp & Hin).
    apply list_elem_of_In in Hin.
    destruct (proj1 (Forall_forall _ _) Hjson (r', o') Hin) as [pg' Ho']. simpl in Ho'.
    apply stringify_head in Hp. rewrite Ho' in Hp. simpl in Hp.
    destruct Hp as (H1 & H2 & H3).
    exists r', o'. repeat split; assumption.
Qed.

End Repeats.

(** * The functions of the probe, one by one *)

(** ** Triggering the events of an element *)

Section Triggering.

Variable constants : Constants.

(** One turn of the loop of [_triggerElementEvents]. *)
Local Abbreviation turn el :=
  (fun w eventName =>
     let '(pageEvent, w) := PageEvent_new el eventName w in
     if negb (bool_decide (eventName ∈ never_triggered))
        && negb (_isPageEventAlreadyTriggered pageEvent w)
     then
       let w := update_probe
                  (fun p => Probe.set_triggeredPageEvents
                              (Array.push pageEvent (Probe._triggeredPageEvents p)) p) w in
       _trigger pageEvent w
     else w).

Lemma turn_frame (el : Node) (w : World) (ev : string) :
  page (turn el w ev) = page w
  /\ Probe._eventsMap (probe (turn el w ev)) = Probe._eventsMap (probe w)
  /\ effects (turn el w ev) = effects w.
Proof.
  simpl. destruct (_ && _); [|repeat split].
  unfold _trigger, update_manager, EventLoopManager.scheduleEventTriggering.
  destruct (_ <? 0); repeat split.
Qed.

Lemma turn_triggered (el : Node) (w : World) (ev : string) :
  exists new, triggered (turn el w ev) = (triggered w ++ new)%list.
Proof.
  simpl. destruct (_ && _).
  - eexists [_]. unfold _trigger, update_manager, EventLoopManager.scheduleEventTriggering.
    destruct (_ <? 0); reflexivity.
  - exists []. rewrite app_nil_r. reflexivity.
Qed.

Lemma fired_grows (el : Node) (ev : string) (w w' : World) :
  (exists new, triggered w' = (triggered w ++ new)%list) ->
  fired el ev w = true -> fired el ev w' = true.
Proof.
  intros [new E] H. unfold fired in *. rewrite E, existsb_app, H. reflexivity.
Qed.

Lemma turn_fires (el : Node) (w : World) (ev : string) :
  ev ∉ never_triggered -> fired el ev (turn el w ev) = true.
Proof.
  intros Hev. simpl. rewrite (bool_decide_eq_false_2 _ Hev). simpl.
  match goal with |- context [negb ?c] => destruct c eqn:E end; simpl.
  - exact E.
  - unfold fired.
    match goal with
    | |- existsb _ (triggered (_trigger ?pe ?w1)) = true =>
        assert (Ht : triggered (_trigger pe w1) = (triggered w ++ [pe])%list)
    end.
    { unfold _trigger, update_manager, EventLoopManager.scheduleEventTriggering.
      destruct (_ <? 0); reflexivity. }
    rewrite Ht, existsb_app. simpl.
    rewrite bool_decide_eq_true_2 by reflexivity. rewrite String.eqb_refl.
    apply orb_true_iff. right. reflexivity.
Qed.

Lemma turns_frame (el : Node) (evs : list string) (w : World) :
  page (fold_left (turn el) evs w) = page w
  /\ Probe._eventsMap (probe (fold_left (turn el) evs w)) = Probe._eventsMap (probe w)
  /\ effects (fold_left (turn el) evs w) = effects w
  /\ exists new, triggered (fold_left (turn el) evs w) = (triggered w ++ new)%list.
Proof.
  revert w. induction evs as [|ev evs IH]; intros w.
  - repeat split. exists []. rewrite app_nil_r. reflexivity.
  - change (fold_left (turn el) (ev :: evs) w) with (fold_left (turn el) evs (turn el w ev)).
    destruct (IH (turn el w ev)) as (Hp & Hm & He & new & Ht).
    destruct (turn_frame el w ev) as (Hp' & Hm' & He').
    destruct (turn_triggered el w ev) as [new' Ht'].
    repeat split; try congruence.
    exists (new' ++ new)%list. rewrite Ht, Ht', app_assoc. reflexivity.
Qed.

Lemma turns_fire (el : Node) (evs : list string) (w : World) (ev : string) :
  ev ∈ evs -> ev ∉ never_triggered -> fired el ev (fold_left (turn el) evs w) = true.
Proof.
  revert w. induction evs as [|ev0 evs IH]; intros w Hin Hev.
  - apply elem_of_nil in Hin. contradiction.
  - change (fold_left (turn el) (ev0 :: evs) w) with (fold_left (turn el) evs (turn el w ev0)).
    apply elem_of_cons in Hin as [->|Hin]; [|apply IH; assumption].
    destruct (turns_frame el evs (turn el w ev0)) as (_ & _ & _ & Hnew).
    apply (fired_grows el ev0 _ _ Hnew). apply turn_fires, Hev.
Qed.

Lemma turns_do_nothing (el : Node) (evs : list string) (w : World) :
  (forall ev, ev ∈ evs -> ev ∈ never_triggered \/ fired el ev w = true) ->
  probe (fold_left (turn el) evs w) = probe w.
Proof.
  revert w. induction evs as [|ev evs IH]; intros w Hall; [reflexivity|].
  change (fold_left (turn el) (ev :: evs) w) with (fold_left (turn el) evs (turn el w ev)).
  assert (Hturn : probe (turn el w ev) = probe w).
  { simpl. destruct (Hall ev) as [Hnever|Hfired]; [apply elem_of_cons; left; reflexivity| |].
    - rewrite (bool_decide_eq_true_2 _ Hnever). reflexivity.
    - match goal with |- context [negb (_isPageEventAlreadyTriggered ?pe ?w1)] =>
        change (_isPageEventAlreadyTriggered pe w1) with (fired el ev w)
      end.
      rewrite Hfired, andb_false_r. reflexivity. }
  rewrite IH; [exact Hturn|].
  intros ev' Hin. destruct (Hall ev') as [H|H]; [apply elem_of_cons; right; exact Hin| |].
  - left. exact H.
  - right. unfold fired, triggered in *. rewrite Hturn. exact H.
Qed.

(** X18. Triggering the events of an element twice in a row is the same
    as triggering them once: the second pass queues no event, adds no
    record to the trigger history and emits nothing. *)
Theorem triggerElementEvents_twice_is_once (el : Node) (w : World) :
  let once := _triggerElementEvents constants el w in
  probe (_triggerElementEvents constants el once) = probe once
  /\ effects (_triggerElementEvents constants el once) = effects once
  /\ page (_triggerElementEvents constants el once) = page once.
Proof.
  intros once.
  pose proof (turns_frame el (_getEventsForElement constants el once) once)
    as (Hp & _ & He & _).
  pose proof (turns_frame el (_getEventsForElement constants el w) w) as (Hpage & Hmap & _ & _).
  assert (Hsame : _getEventsForElement constants el once = _getEventsForElement constants el w).
  { unfold _getEventsForElement.
    replace (page once) with (page w) by (symmetry; exact Hpage).
    replace (Probe._eventsMap (probe once)) with (Probe._eventsMap (probe w))
      by (symmetry; exact Hmap).
    reflexivity. }
  split; [|split; [exact He | exact Hp]].
  refine (turns_do_nothing el (_getEventsForElement constants el once) once _).
  intros ev Hin. rewrite Hsame in Hin.
  destruct (decide (ev ∈ never_triggered)) as [Hnever|Hnever]; [left; exact Hnever|].
  right. exact (turns_fire el _ w ev Hin Hnever).
Qed.

End Triggering.

(** ** The map of events *)

Lemma addEventToMap_loop_events (el : Node) (ev : string) (map : list (Node * list string)) :
  match addEventToMap_loop el ev map with
  | Some map' =>
      forall el', events_in_map el' map'
                  = if bool_decide (el' = el) then (events_in_map el map ++ [ev])%list
                    else events_in_map el' map
  | None =>
      forall el', events_in_map el' (map ++ [(el, [ev])])
                  = if bool_decide (el' = el) then (events_in_map el map ++ [ev])%list
                    else events_in_map el' map
  end.
Proof.
  induction map as [|[e0 events] rest IH]; simpl; unfold Array.push.
  - intros el'. repeat case_bool_decide; first [reflexivity | congruence].
  - destruct (bool_decide (e0 = el)) eqn:E0.
    + apply bool_decide_eq_true in E0. subst e0. intros el'. simpl.
      repeat case_bool_decide; first [reflexivity | congruence].
    + apply bool_decide_eq_false in E0.
      destruct (addEventToMap_loop el ev rest) as [rest'|]; intros el'; simpl;
        rewrite (IH el'); repeat case_bool_decide; first [reflexivity | congruence].
Qed.

Lemma events_after_addEventToMap (el : Node) (ev : string) (w : World) (el' : Node) :
  events_in_map el' (Probe._eventsMap (probe (addEventToMap el ev w)))
  = if bool_decide (el' = el)
    then (events_in_map el (Probe._eventsMap (probe w)) ++ [ev])%list
    else events_in_map el' (Probe._eventsMap (probe w)).
Proof.
  unfold addEventToMap.
  pose proof (addEventToMap_loop_events el ev (Probe._eventsMap (probe w))) as H.
  destruct (addEventToMap_loop el ev (Probe._eventsMap (probe w))) as [map'|]; apply H.
Qed.

Lemma page_addEventToMap (el : Node) (ev : string) (w : World) :
  page (addEventToMap el ev w) = page w.
Proof. unfold addEventToMap. destruct (addEventToMap_loop _ _ _); reflexivity. Qed.

Section EventsMap.

Variable constants : Constants.

Lemma mapped_events_are_among_the_events (el : Node) (w : World) (ev : string) :
  ev ∈ events_in_map el (Probe._eventsMap (probe w)) ->
  ev ∈ _getEventsForElement constants el w.
Proof.
  unfold _getEventsForElement.
  generalize (events_in_map el (Probe._eventsMap (probe w))).
  induction (triggerableEvents constants) as [|entry l IH]; intros events Hin; simpl.
  - exact Hin.
  - apply IH. destruct (Element.webkitMatchesSelector _ _); [|exact Hin].
    apply elem_of_app. left. exact Hin.
Qed.

(** X19. A listener that the page registers through addEventListener on
    a node is, from then on, among the events that the probe fires on
    that node - unless it is one of the two content-loading events,
    which are not recorded. *)
Theorem a_registered_listener_is_among_the_events (this : Node) (type : string) (w : World) :
  type ∉ ["DOMContentLoaded"; "readystatechange"] ->
  type ∈ _getEventsForElement constants this (hook_Node_addEventListener this type w).
Proof.
  intros Htype. unfold hook_Node_addEventListener.
  rewrite (bool_decide_eq_false_2 _ Htype). simpl.
  apply mapped_events_are_among_the_events.
  rewrite events_after_addEventToMap, bool_decide_eq_true_2 by reflexivity.
  apply elem_of_app. right. apply elem_of_cons. left. reflexivity.
Qed.

(** X20. What [_mapElementEvents] records for an element: the mappable
    events for which the element has an on-handler property, in the
    order of the list of mappable events, after the events recorded
    before; the records of other elements are not touched. *)
Theorem mapElementEvents_records_the_handlers (el el' : Node) (w : World) :
  events_in_map el' (Probe._eventsMap (probe (_mapElementEvents constants el w)))
  = if bool_decide (el' = el)
    then (events_in_map el (Probe._eventsMap (probe w))
            ++ List.filter
                 (fun ev => bool_decide (("on" +:+ ev)
                                           ∈ Element.on_properties (element_at (page w) el)))
                 (mappableEvents constants))%list
    else events_in_map el' (Probe._eventsMap (probe w)).
Proof.
  unfold _mapElementEvents.
  generalize (mappableEvents constants). intros evs. revert w.
  induction evs as [|ev evs IH]; intros w; simpl.
  - case_bool_decide; [subst; rewrite app_nil_r|]; reflexivity.
  - destruct (bool_decide (("on" +:+ ev) ∈ Element.on_properties (element_at (page w) el))).
    + rewrite IH, page_addEventToMap, !events_after_addEventToMap.
      repeat case_bool_decide; try congruence.
      rewrite <- app_assoc. reflexivity.
    + apply IH.
Qed.

End EventsMap.

(** ** Mutations *)

Lemma scheduleDOMAssessment_elem_of (x el : Node) (m : EventLoopManager.t) :
  el ∈ EventLoopManager._DOMAssessmentQueue (EventLoopManager.scheduleDOMAssessment x m)
  <-> el ∈ EventLoopManager._DOMAssessmentQueue m \/ el = x.
Proof.
  unfold EventLoopManager.scheduleDOMAssessment.
  destruct (Array.indexOf x (EventLoopManager._DOMAssessmentQueue m) <? 0) eqn:E; simpl.
  - unfold Array.push. rewrite elem_of_app, elem_of_cons.
    split; intros [H|H]; auto. destruct H as [H|H]; [auto | apply elem_of_nil in H; contradiction].
  - apply indexOf_not_negative in E. split; [auto|]. intros [H|H]; [exact H | subst; exact E].
Qed.

Lemma added_nodes_elem_of (el : Node) (addedNodes : list (Node * Z)) (w : World) :
  el ∈ EventLoopManager._DOMAssessmentQueue
         (manager (fold_left
                     (fun w addedNode =>
                        if snd addedNode =? ELEMENT_NODE
                        then update_manager
                               (EventLoopManager.scheduleDOMAssessment (fst addedNode)) w
                        else w)
                     addedNodes w))
  <-> el ∈ EventLoopManager._DOMAssessmentQueue (manager w)
      \/ el ∈ List.map fst (List.filter (fun n => snd n =? ELEMENT_NODE) addedNodes).
Proof.
  revert w. induction addedNodes as [|n l IH]; intros w; simpl.
  - split; [auto|]. intros [H|H]; [exact H | apply elem_of_nil in H; contradiction].
  - rewrite IH. destruct (snd n =? ELEMENT_NODE); simpl.
    + change (manager (update_manager (EventLoopManager.scheduleDOMAssessment (fst n)) w))
        with (EventLoopManager.scheduleDOMAssessment (fst n) (manager w)).
      rewrite scheduleDOMAssessment_elem_of, elem_of_cons. tauto.
    + reflexivity.
Qed.

Lemma nodeMutated_queue (ms : list MutationRecord) (w : World) (el : Node) :
  el ∈ EventLoopManager._DOMAssessmentQueue (manager (nodeMutated ms w))
  <-> el ∈ EventLoopManager._DOMAssessmentQueue (manager w) \/ el ∈ mutated_elements ms.
Proof.
  unfold nodeMutated. revert w. induction ms as [|record ms IH]; intros w.
  - simpl. split; [auto|]. intros [H|H]; [exact H | apply elem_of_nil in H; contradiction].
  - cbn [fold_left mutated_elements]. rewrite IH. destruct record as [added|target name|target].
    + rewrite added_nodes_elem_of, elem_of_app. tauto.
    + change (manager (update_manager (EventLoopManager.scheduleDOMAssessment target)
                         (update_probe
                            (fun p => Probe.set_triggeredPageEvents
                                        (purge_triggered target (Probe._triggeredPageEvents p)) p)
                            w)))
        with (EventLoopManager.scheduleDOMAssessment target (manager w)).
      rewrite scheduleDOMAssessment_elem_of, elem_of_cons. tauto.
    + reflexivity.
Qed.

(** X21. The mutation observer only schedules: every element that
    waited for analysis still waits after [nodeMutated], and an element
    that waits afterwards waited before, or is an added node that is an
    element, or is the target of an attribute mutation of the batch;
    added text nodes and changes of character data schedule nothing. *)
Theorem nodeMutated_schedules_only_the_mutated_elements (ms : list MutationRecord)
    (w : World) (el : Node) :
  (el ∈ EventLoopManager._DOMAssessmentQueue (manager w) ->
   el ∈ EventLoopManager._DOMAssessmentQueue (manager (nodeMutated ms w)))
  /\ (el ∈ EventLoopManager._DOMAssessmentQueue (manager (nodeMutated ms w)) ->
      el ∈ EventLoopManager._DOMAssessmentQueue (manager w) \/ el ∈ mutated_elements ms).
Proof.
  split.
  - intros H. apply nodeMutated_queue. left. exact H.
  - apply nodeMutated_queue.
Qed.

(** X22. [startAnalysis] schedules every element of the document that
    does not wait already, keeps those that wait, and posts one tick. *)
Theorem startAnalysis_schedules_the_document (w : World) (el : Node) :
  (el ∈ EventLoopManager._DOMAssessmentQueue (manager (startAnalysis w))
   <-> el ∈ EventLoopManager._DOMAssessmentQueue (manager w) \/ el ∈ all_elements (page w))
  /\ effects (startAnalysis w) = (effects w ++ [postMessage])%list.
Proof.
  unfold startAnalysis, start. split.
  - change (manager (emit postMessage ?x)) with (manager x).
    generalize (all_elements (page w)). intros l. revert w.
    induction l as [|x l IH]; intros w; simpl.
    + split; [auto|]. intros [H|H]; [exact H | apply elem_of_nil in H; contradiction].
    + rewrite IH.
      change (manager (update_manager (EventLoopManager.scheduleDOMAssessment x) w))
        with (EventLoopManager.scheduleDOMAssessment x (manager w)).
      rewrite scheduleDOMAssessment_elem_of, elem_of_cons. tauto.
  - simpl. f_equal.
    apply (same_network_and_log_fold_left
             (fun w el => update_manager (EventLoopManager.scheduleDOMAssessment el) w)).
    intros w' x. apply same_network_and_log_schedule.
Qed.

(** ** The purge of the trigger history *)

Lemma purge_result_cons (el : Node) (a : PageEvent.t) (rest : list PageEvent.t) :
  purge_result el (a :: rest)
  = if bool_decide (PageEvent.element a = el)
    then match rest with
         | [] => []
         | next :: rest' => next :: purge_result el rest'
         end
    else a :: purge_result el rest.
Proof. reflexivity. Qed.

Lemma purge_result_spares_the_others (el : Node) (n : nat) (array : list PageEvent.t) :
  (List.length array <= n)%nat ->
  List.filter (fun pe => negb (is_record_of el pe)) (purge_result el array)
  = List.filter (fun pe => negb (is_record_of el pe)) array
  /\ existsb (is_record_of el) (purge_result el array) = has_adjacent_records el array.
Proof.
  unfold is_record_of. revert array. induction n as [|n IH]; intros array Hlen.
  - destruct array; [split; reflexivity | simpl in Hlen; lia].
  - destruct array as [|a [|b rest]].
    + split; reflexivity.
    + simpl. destruct (bool_decide (PageEvent.element a = el)) eqn:Ea; simpl; rewrite ?Ea;
        split; reflexivity.
    + rewrite (purge_result_cons el a (b :: rest)).
      destruct (bool_decide (PageEvent.element a = el)) eqn:Ea.
      * destruct (IH rest) as [IH1 IH2]; [simpl in Hlen; lia|].
        split.
        -- cbn [List.filter]. rewrite Ea. cbn [negb]. rewrite IH1. reflexivity.
        -- cbn [existsb has_adjacent_records]. rewrite IH2, Ea.
           destruct (bool_decide (PageEvent.element b = el)) eqn:Eb; [reflexivity|].
           destruct rest as [|c rest]; [reflexivity|].
           cbn [has_adjacent_records andb orb]. reflexivity.
      * destruct (IH (b :: rest)) as [IH1 IH2]; [simpl in Hlen; simpl; lia|].
        split.
        -- cbn [List.filter]. rewrite Ea. cbn [negb]. rewrite IH1. reflexivity.
        -- cbn [existsb]. rewrite IH2, Ea. cbn [has_adjacent_records]. rewrite Ea.
           reflexivity.
Qed.

(** X23. The purge that follows an attribute mutation keeps every
    record of the other elements, in order; and a record of the mutated
    element survives it exactly when two records of that element stand
    next to each other in the history. *)
Theorem purge_spares_a_record_next_to_another (el : Node) (array : list PageEvent.t) :
  List.filter (fun pe => negb (is_record_of el pe)) (purge_triggered el array)
  = List.filter (fun pe => negb (is_record_of el pe)) array
  /\ existsb (is_record_of el) (purge_triggered el array) = has_adjacent_records el array.
Proof.
  rewrite purge_triggered_result.
  apply (purge_result_spares_the_others el (List.length array)). lia.
Qed.

(** * XHR objects and excluded urls *)

Lemma report_is_not_send (x : nat) (e : Effect) : is_report e = true -> is_not_send_of x e = true.
Proof. destruct e; simpl; congruence. Qed.

Lemma fold_skipped (matches : string -> bool) (urls : list string) (skipped : bool) :
  fold_left (fun skipped url => if matches url then true else skipped) urls skipped
  = skipped || existsb matches urls.
Proof.
  revert skipped. induction urls as [|url urls IH]; intros skipped; simpl.
  - rewrite orb_false_r. reflexivity.
  - rewrite IH. destruct (matches url), skipped; reflexivity.
Qed.

Lemma xhr_at_same (w w' : World) (x : nat) : xhrs w' = xhrs w -> xhr_at w' x = xhr_at w x.
Proof. intros E. unfold xhr_at. rewrite E. reflexivity. Qed.

Lemma xhr_at_insert (w : World) (x : nat) (o : XHR.t) (m : gmap nat XHR.t) :
  xhrs w = <[x := o]> m -> xhr_at w x = o.
Proof. intros E. unfold xhr_at. rewrite E, lookup_insert_eq. reflexivity. Qed.

Section XHRObjects.

Variable browser : Browser.
Variable options : Options.
Variable constants : Constants.

Local Abbreviation action := (_doNextAction browser options constants).
Local Abbreviation handle := (handle browser options constants).
Local Abbreviation run := (run browser options constants).
Local Abbreviation send := (hook_XHR_send browser options).

(** A step that leaves the XHR objects alone and sends nothing. *)
Local Abbreviation aside x w w' := (xhrs w' = xhrs w /\ emits_only (is_not_send_of x) w w').

Lemma aside_analysis (x : nat) (w w' : World) : analysis_step w w' -> aside x w w'.
Proof.
  intros H. split; [apply (step_xhrs _ _ H)|].
  eapply emits_only_weaken; [apply report_is_not_send | apply (step_effects _ _ H)].
Qed.

Lemma xhrs_originalSetTimeout (callback : Callback) (delay : Z) (w : World) :
  xhrs (originalSetTimeout options callback delay w) = xhrs w.
Proof. unfold originalSetTimeout. destruct (overrideTimeoutFunctions options); reflexivity. Qed.

Lemma aside_action (x : nat) (w : World) : aside x w (action w).
Proof.
  destruct (action_cases browser options constants w)
    as [[_ E]|[(_ & y & rest & _ & E)|[(_ & _ & el & rest & _ & E)
       |[(_ & _ & _ & q & pe & _ & E)|[Hidle E]]]]]; rewrite E.
  - split; [reflexivity | emits].
  - split; [rewrite xhrs_originalSetTimeout; reflexivity | emits].
  - destruct (aside_analysis x _ _
                (analysis_step_analyzeDOMElement browser options constants el
                   (update_manager (EventLoopManager.set_DOMAssessmentQueue rest)
                      (update_manager (EventLoopManager.set_isReadyToClose false)
                         (emit entered_doNextAction w))))) as [Hx He].
    split; [exact Hx|].
    apply emits_only_emit_after; [|reflexivity].
    eapply emits_only_trans; [|exact He]. emits.
  - split; [|apply emits_only_fired; [emits | reflexivity | reflexivity]].
    match goal with
    | |- xhrs (match PageEvent_trigger _ ?w1 with _ => _ end) = _ =>
        destruct (PageEvent_trigger_cases pe w1) as [(ty & _ & Et)|(e & _ & Et)]; rewrite Et
    end; [rewrite xhrs_originalSetTimeout|]; reflexivity.
  - destruct (EventLoopManager._isReadyToClose (manager w));
      [split; [reflexivity | emits] | split; [rewrite xhrs_originalSetTimeout; reflexivity | emits]].
Qed.

Lemma aside_eventMessageHandler (x : nat) (m : MessageEvent) (w : World) :
  aside x w (eventMessageHandler browser options constants m w).
Proof.
  unfold eventMessageHandler.
  destruct (_ && _); [|split; [reflexivity | apply emits_only_refl]].
  destruct (String.eqb _ _).
  - destruct (_ <? _); [split; [reflexivity | emits]|].
    destruct (aside_action x (update_manager (EventLoopManager.set_emptyLoopCounter 0) w))
      as [Hx He].
    split; [exact Hx|]. eapply emits_only_trans; [|exact He]. emits.
  - destruct (String.eqb _ _); [|split; [reflexivity | apply emits_only_refl]].
    apply aside_analysis, analysis_step_printLink.
Qed.

Lemma skipped_aside (x : nat) (w w' : World) :
  XHR.__skipped (xhr_at w x) = true -> aside x w w' -> stays_skipped x w w'.
Proof.
  intros Hsk [Hx He]. split; [|exact He]. rewrite Hx. exact Hsk.
Qed.

Lemma stays_skipped_handle (x : nat) (i : Input) (w : World) :
  XHR.__skipped (xhr_at w x) = true -> stays_skipped x w (handle i w).
Proof.
  intros Hsk.
  destruct i as [m|cb| |ms|this type|this type|y method url|y rs|y d|n|url|form|url|pg];
    simpl.
  - apply skipped_aside, aside_eventMessageHandler; exact Hsk.
  - apply skipped_aside; [exact Hsk|]. destruct cb; (split; [reflexivity | simpl; emits]).
  - apply skipped_aside; [exact Hsk|]. unfold startAnalysis, start.
    assert (H : same_network_and_log w
                  (fold_left (fun w el => update_manager
                                            (EventLoopManager.scheduleDOMAssessment el) w)
                     (all_elements (page w)) w)).
    { apply (same_network_and_log_fold_left
               (fun w el => update_manager (EventLoopManager.scheduleDOMAssessment el) w)).
      intros w' el. apply same_network_and_log_schedule. }
    split.
    + change (xhrs (emit postMessage ?a)) with (xhrs a).
      generalize (all_elements (page w)). intros l. generalize w.
      induction l as [|el l IH]; intros w0; [reflexivity|]. simpl. rewrite IH. reflexivity.
    + apply emits_only_emit_after; [|reflexivity]. apply emits_only_same, H.
  - apply skipped_aside; [exact Hsk|]. split.
    + unfold nodeMutated. generalize w. induction ms as [|record ms IH]; intros w0;
        [reflexivity|]. simpl. rewrite IH. destruct record as [added|target name|target];
        try reflexivity.
      generalize w0. induction added as [|n added IHa]; intros w1; [reflexivity|].
      simpl. rewrite IHa. destruct (_ =? _); reflexivity.
    + apply emits_only_same, same_network_and_log_nodeMutated.
  - apply skipped_aside; [exact Hsk|]. unfold hook_Node_addEventListener.
    destruct (negb _); [|split; [reflexivity | apply emits_only_refl]].
    apply aside_analysis, analysis_step_addEventToMap.
  - apply skipped_aside; [exact Hsk|]. unfold hook_window_addEventListener.
    destruct (negb _); [|split; [reflexivity | apply emits_only_refl]].
    apply aside_analysis, analysis_step_addEventToMap.
  - unfold hook_XHR_open.
    destruct (Request_new _ _ _ _ _ _ _) as [r|err].
    + split; [|emits]. simpl.
      destruct (decide (y = x)) as [->|Hne].
      * rewrite lookup_insert_eq. simpl. exact Hsk.
      * rewrite lookup_insert_ne by exact Hne. exact Hsk.
    + split; [exact Hsk | emits].
  - apply skipped_aside; [exact Hsk|]. unfold on_readystatechange.
    generalize (XHR.listeners (xhr_at w y)). intros n. split.
    + induction n as [|n IH]; [reflexivity|]. simpl. rewrite <- IH.
      unfold readystatechange_listener.
      destruct (_ && _); [reflexivity|]. destruct (_ =? _); reflexivity.
    + apply emits_only_iter. intros w'.
      apply emits_only_same, same_network_and_log_listener.
  - unfold hook_XHR_send.
    destruct (XHR.__request (xhr_at w y)) as [r|] eqn:Er;
      [|split; [exact Hsk | apply emits_only_refl]].
    cbv zeta.
    set (skipped := match _getAbsoluteUrl browser (page w) _ false with
                    | JS.Ok u => _
                    | JS.Throw _ => true
                    end).
    assert (Hskipped : y = x -> skipped = true).
    { intros ->. unfold skipped. destruct (_getAbsoluteUrl _ _ _ _); [|reflexivity].
      rewrite fold_skipped, Hsk. reflexivity. }
    assert (Hat : forall w', xhrs w' = <[y := {| XHR.__request :=
                                                  Some (Request.set_data_triggerer d
                                                          (getLastTriggerPageEvent w) r);
                                                XHR.__skipped := skipped;
                                                XHR.listeners := XHR.listeners (xhr_at w y) |}]>
                                        (xhrs w) ->
              XHR.__skipped (default XHR.new (xhrs w' !! x)) = true).
    { intros w' ->. destruct (decide (y = x)) as [->|Hne].
      - rewrite lookup_insert_eq. simpl. apply Hskipped. reflexivity.
      - rewrite lookup_insert_ne by exact Hne. exact Hsk. }
    destruct (negb (_ =? -1)).
    + split; [apply Hat; reflexivity | emits].
    + match goal with
      | |- stays_skipped _ _ (if _ then emit _ (printRequest ?r' ?w1) else _) =>
          pose proof (analysis_step_printRequest r' w1) as Hp
      end.
      assert (Hx := step_xhrs _ _ Hp).
      assert (He := emits_only_weaken _ _ _ _ (report_is_not_send x) (step_effects _ _ Hp)).
      destruct (negb skipped) eqn:En.
      * split; [apply Hat; exact Hx|].
        apply emits_only_emit_after.
        -- eapply emits_only_trans; [|exact He]. emits.
        -- simpl. destruct (Nat.eqb y x) eqn:Eyx; [|reflexivity].
           apply Nat.eqb_eq in Eyx. rewrite (Hskipped Eyx) in En. discriminate.
      * split; [apply Hat; exact Hx|].
        eapply emits_only_trans; [|exact He]. emits.
  - apply skipped_aside; [exact Hsk|]. apply aside_analysis, analysis_step_printJSONP.
  - apply skipped_aside; [exact Hsk|]. apply aside_analysis, analysis_step_printWebsocket.
  - apply skipped_aside; [exact Hsk|]. apply aside_analysis, analysis_step_print_or_warn.
  - apply skipped_aside; [exact Hsk|]. apply aside_analysis, analysis_step_printLink.
  - apply skipped_aside; [exact Hsk|]. split; [reflexivity | apply emits_only_same; reflexivity].
Qed.

(** X24. The skip mark of an XHR object is never taken back: once an
    object is marked as skipped, it stays marked for the rest of the
    crawl and is never handed to the original send again, even when the
    page opens it again with a url that is not excluded. *)
Theorem a_skipped_xhr_is_never_sent (x : nat) (inputs : list Input) (w : World) :
  XHR.__skipped (xhr_at w x) = true ->
  XHR.__skipped (xhr_at (run inputs w) x) = true
  /\ emits_only (is_not_send_of x) w (run inputs w).
Proof.
  revert w. induction inputs as [|i inputs IH]; intros w Hsk.
  - split; [exact Hsk | apply emits_only_refl].
  - destruct (stays_skipped_handle x i w Hsk) as [Hsk' He].
    destruct (IH _ Hsk') as [Hsk'' He'].
    split; [exact Hsk''|]. eapply emits_only_trans; [exact He | exact He'].
Qed.

(** X25. A send on an XHR object whose url matches an excluded pattern
    reports the request at most, marks the object as skipped and hands
    nothing to the original send. *)
Theorem an_excluded_xhr_is_reported_but_not_sent (x : nat) (d : option string) (w : World)
    (r : Request.t) (u : URL.t) (pattern : string) :
  XHR.__request (xhr_at w x) = Some r ->
  _getAbsoluteUrl browser (page w) (Request.url r) false = JS.Ok u ->
  pattern ∈ excludedUrls options ->
  RegExp_match browser pattern EmptyString (URL.href u) = true ->
  emits_only is_report w (send x d w)
  /\ XHR.__skipped (xhr_at (send x d w) x) = true.
Proof.
  intros Er Hu Hin Hmatch. unfold hook_XHR_send. rewrite Er. cbv zeta.
  change (Request.url (Request.set_data_triggerer d (getLastTriggerPageEvent w) r))
    with (Request.url r).
  rewrite Hu, fold_skipped.
  assert (Hex : existsb (fun url => RegExp_match browser url EmptyString (URL.href u))
                  (excludedUrls options) = true).
  { apply existsb_exists. exists pattern. split; [apply list_elem_of_In, Hin | exact Hmatch]. }
  rewrite Hex, orb_true_r. cbn [negb].
  destruct (negb (_ =? -1)).
  - split; [emits|]. erewrite xhr_at_insert by reflexivity. reflexivity.
  - match goal with
    | |- emits_only _ _ (printRequest ?r' ?w1) /\ _ =>
        pose proof (analysis_step_printRequest r' w1) as Hp;
        assert (Hmark : XHR.__skipped (xhr_at (printRequest r' w1) x) = true)
    end.
    { rewrite (xhr_at_same _ _ x (step_xhrs _ _ Hp)).
      erewrite xhr_at_insert by reflexivity. reflexivity. }
    split; [|exact Hmark].
    eapply emits_only_trans; [|apply (step_effects _ _ Hp)]. emits.
Qed.

End XHRObjects.

(** * Filling values *)

Lemma element_at_set_element_other (el el' : Node) (e : Element.t) (pg : Page) :
  el' <> el -> element_at (set_element el e pg) el' = element_at pg el'.
Proof.
  intros Hne. destruct el as [| |i]; try reflexivity.
  destruct el' as [| |j]; try reflexivity.
  simpl. rewrite lookup_insert_ne; [reflexivity|]. congruence.
Qed.

Lemma fills_only_refl (el : Node) (w : World) : fills_only el w w.
Proof. repeat split. Qed.

Lemma fills_only_trans (el : Node) (w1 w2 w3 : World) :
  fills_only el w1 w2 -> fills_only el w2 w3 -> fills_only el w1 w3.
Proof.
  intros (Ha & Hb & Hc & Hd) (Ha' & Hb' & Hc' & Hd').
  repeat split; try congruence.
  intros el' Hne. rewrite (Ha' el' Hne). apply Ha, Hne.
Qed.

Lemma fills_only_assign (el : Node) (e : Element.t) (w : World) :
  fills_only el w (set_page (set_element el e (page w)) w).
Proof.
  repeat split.
  - intros el' Hne. apply element_at_set_element_other, Hne.
  - destruct el; reflexivity.
Qed.

Lemma fills_only_triggerChange (el : Node) (w : World) : fills_only el w (triggerChange el w).
Proof.
  unfold triggerChange, _trigger, update_manager, EventLoopManager.scheduleEventTriggering.
  simpl. destruct (_ <? 0); repeat split.
Qed.

Section Values.

Variable browser : Browser.
Variable options : Options.
Variable constants : Constants.

Lemma fills_only_setVal (el : Node) (w : World) :
  fills_only el w (_setVal browser options constants el w).
Proof.
  unfold _setVal.
  repeat match goal with
         | |- fills_only _ _ (if ?c then _ else _) => destruct c
         | |- fills_only _ ?w ?w => apply fills_only_refl
         | |- fills_only _ _ (triggerChange _ _) =>
             eapply fills_only_trans; [|apply fills_only_triggerChange]
         | |- fills_only _ _ (assign_value _ _ _) => apply fills_only_assign
         | |- fills_only _ _ (set_page (set_element _ _ _) _) => apply fills_only_assign
         end.
Qed.

(** X26. For an element that is neither a select nor a radio button or
    a checkbox, [_setVal] changes the element it is given and no other:
    every other element of the page is as before, and nothing is
    reported, emitted or recorded in the trigger history. *)
Theorem setVal_touches_its_element_only (el el' : Node) (w : World) :
  JS.toLowerCase (Element.tagName (element_at (page w) el)) <> "select" ->
  JS.toLowerCase (Element.type (element_at (page w) el)) ∉ ["radio"; "checkbox"] ->
  el' <> el ->
  element_at (page (_setVal browser options constants el w)) el' = element_at (page w) el'
  /\ effects (_setVal browser options constants el w) = effects w
  /\ triggered (_setVal browser options constants el w) = triggered w.
Proof.
  intros _ _ Hne. destruct (fills_only_setVal el w) as (Ha & Hb & Hc & _).
  split; [apply Ha, Hne | split; assumption].
Qed.

Lemma rules_that_do_not_match (name : string) (rules : list (string * string))
    (ret : option string) :
  Forall (fun rule => RegExp_match browser (fst rule) "gi" name = false) rules ->
  fold_left
    (fun ret matchValue =>
       if RegExp_match browser (fst matchValue) "gi" name
       then getRandomValue options (snd matchValue)
       else ret)
    rules ret
  = ret.
Proof.
  intros Hno. revert ret. induction Hno as [|rule rules Hrule _ IH]; intros ret; simpl.
  - reflexivity.
  - rewrite Hrule. apply IH.
Qed.

(** X27. Of the rules whose pattern matches the name of a field, the
    last one in the list decides the value: the value of a field is the
    value configured for the category of the last matching rule. *)
Theorem setv_takes_the_last_matching_rule (name pattern category : string)
    (before after : list (string * string)) :
  inputNameMatchValue constants = (before ++ (pattern, category) :: after)%list ->
  RegExp_match browser pattern "gi" name = true ->
  Forall (fun rule => RegExp_match browser (fst rule) "gi" name = false) after ->
  setv browser options constants name = getRandomValue options category.
Proof.
  intros Hrules Hmatch Hafter. unfold setv. rewrite Hrules, fold_left_app.
  simpl. rewrite Hmatch. apply rules_that_do_not_match, Hafter.
Qed.

End Values.

(** * The further theorems at work on the demo page *)

Lemma trigger_history_witness :
  let click := {| PageEvent.oid := 0; PageEvent.element := node 1;
                  PageEvent.eventName := "click" |} in
  let inputs := start_analysis :: Demo.three_ticks in
  Probe._triggeredPageEvents
    (probe (run Demo.browser Demo.options Demo.constants inputs (initial Demo.link_page)))
    !! 0%nat = Some click
  /\ 0%nat = 0%nat.
Proof.
  intros click inputs.
  assert (H : Probe._triggeredPageEvents
                (probe (run Demo.browser Demo.options Demo.constants inputs
                          (initial Demo.link_page))) !! 0%nat = Some click)
    by (vm_compute; reflexivity).
  split; [exact H|].
  exact (trigger_history_has_no_equal_records Demo.browser Demo.options Demo.constants
           Demo.link_page inputs 0 0 click click H H eq_refl eq_refl).
Defined.

Lemma reported_requests_witness :
  let r := {| Request.type := "link"; Request.method := "GET"; Request.url := "http://x/y";
              Request.data := None; Request.triggerer := None |} in
  let o := {| Request.j_type := "link"; Request.j_method := "GET"; Request.j_url := "http://x/y";
              Request.j_data := None; Request.j_trigger := None |} in
  let inputs := start_analysis :: Demo.three_ticks in
  reported (run Demo.browser Demo.options Demo.constants inputs (initial Demo.link_page)) !! 0%nat
  = Some (r, o)
  /\ Request.type r ∈ ["xhr"; "form"; "link"; "jsonp"; "websocket"]
  /\ exists urlString base u,
       URL_new Demo.browser urlString base = Some u
       /\ protocol_allowed (URL.protocol u) = true
       /\ Request.url r = URL.href (URL.clear_hash u)
       /\ (URL.wf u = true -> JS.contains_char "#" (Request.url r) = false).
Proof.
  intros r o inputs.
  assert (H : reported (run Demo.browser Demo.options Demo.constants inputs
                          (initial Demo.link_page)) !! 0%nat = Some (r, o))
    by (vm_compute; reflexivity).
  split; [exact H|].
  exact (reported_requests_are_constructed Demo.browser Demo.options Demo.constants
           Demo.link_page inputs 0 r o H).
Defined.

Lemma key_determines_witness :
  let click := {| PageEvent.oid := 0; PageEvent.element := node 1;
                  PageEvent.eventName := "click" |} in
  let again := {| PageEvent.oid := 5; PageEvent.element := node 1;
                  PageEvent.eventName := "click" |} in
  let r1 := {| Request.type := "xhr"; Request.method := "POST"; Request.url := "http://x/a";
               Request.data := Some "k=1"; Request.triggerer := Some click |} in
  let r2 := {| Request.type := "xhr"; Request.method := "POST"; Request.url := "http://x/a";
               Request.data := Some "k=1"; Request.triggerer := Some again |} in
  let pg1 := Demo.link_page in
  let pg2 := Demo.link_page in
  Request.key pg1 r1 = Request.key pg2 r2
  /\ Request.type r1 = Request.type r2
  /\ Request.method r1 = Request.method r2
  /\ Request.url r1 = Request.url r2.
Proof.
  intros click again r1 r2 pg1 pg2.
  assert (H : Request.key pg1 r1 = Request.key pg2 r2) by (vm_compute; reflexivity).
  split; [exact H|].
  exact (key_determines_type_method_and_url pg1 pg2 r1 r2 H).
Defined.

Lemma ticks_until_the_next_action_witness :
  is_tick Demo.constants Demo.tick = true
  /\ EventLoopManager._emptyLoopCounter (manager Demo.analysed) = 0
  /\ run Demo.browser Demo.options Demo.constants (replicate 3 (message Demo.tick)) Demo.analysed
     = _doNextAction Demo.browser Demo.options Demo.constants
         (Nat.iter 2 (emit postMessage) Demo.analysed).
Proof.
  assert (Ht : is_tick Demo.constants Demo.tick = true) by (vm_compute; reflexivity).
  assert (Hc : EventLoopManager._emptyLoopCounter (manager Demo.analysed) = 0)
    by (vm_compute; reflexivity).
  split; [exact Ht|]. split; [exact Hc|].
  exact (ticks_until_the_next_action Demo.browser Demo.options Demo.constants
           Demo.tick Demo.analysed Ht Hc).
Defined.

Lemma end_is_signalled_witness :
  (idle (manager Demo.waiting) -> EventLoopManager._isReadyToClose (manager Demo.waiting) = false)
  /\ emits_only is_not_end Demo.waiting
       (handle Demo.browser Demo.options Demo.constants (message Demo.tick) Demo.waiting).
Proof.
  assert (H : idle (manager Demo.waiting) ->
              EventLoopManager._isReadyToClose (manager Demo.waiting) = false)
    by (intros _; vm_compute; reflexivity).
  split; [exact H|].
  exact (end_is_signalled_only_when_idle_and_ready Demo.browser Demo.options Demo.constants
           (message Demo.tick) Demo.waiting H).
Defined.

Lemma only_a_message_witness :
  is_message start_analysis = false
  /\ emits_only is_quiet (initial Demo.link_page)
       (handle Demo.browser Demo.options Demo.constants start_analysis (initial Demo.link_page)).
Proof.
  split; [reflexivity|].
  exact (only_a_message_drives_the_crawl Demo.browser Demo.options Demo.constants
           start_analysis (initial Demo.link_page) eq_refl).
Defined.

Lemma no_event_is_fired_witness :
  EventLoopManager._sentXHRQueue (manager Demo.waiting) <> []
  /\ emits_only is_not_dispatch Demo.waiting
       (handle Demo.browser Demo.options Demo.constants (message Demo.tick) Demo.waiting).
Proof.
  assert (H : EventLoopManager._sentXHRQueue (manager Demo.waiting) <> [])
    by (vm_compute; discriminate).
  split; [exact H|].
  exact (no_event_is_fired_while_something_else_waits Demo.browser Demo.options Demo.constants
           (message Demo.tick) Demo.waiting (or_introl H)).
Defined.


Lemma a_request_in_both_queues_witness :
  in_both_queues 7 (manager sent_again)
  /\ in_both_queues 7 (manager (run Demo.browser Demo.options Demo.constants
                                  Demo.three_ticks sent_again))
  /\ emits_only is_quiet sent_again
       (run Demo.browser Demo.options Demo.constants Demo.three_ticks sent_again).
Proof.
  assert (H : in_both_queues 7 (manager sent_again)).
  { assert (Hs : EventLoopManager._sentXHRQueue (manager sent_again) = [7%nat])
      by (vm_compute; reflexivity).
    assert (Hd : EventLoopManager._doneXHRQueue (manager sent_again) = [7%nat])
      by (vm_compute; reflexivity).
    unfold in_both_queues. rewrite Hs, Hd. split; apply elem_of_cons; left; reflexivity. }
  split; [exact H|].
  exact (a_request_in_both_queues_stalls_the_crawl Demo.browser Demo.options Demo.constants
           7 Demo.three_ticks sent_again H).
Defined.

Lemma an_idle_probe_witness :
  let w := initial Demo.link_page in
  let ticks := replicate 3 (message Demo.tick) in
  is_tick Demo.constants Demo.tick = true
  /\ idle (manager w)
  /\ effects (run Demo.browser Demo.options Demo.constants
                (ticks ++ [timeout close_then_tick] ++ ticks) w)
     = [postMessage; postMessage; entered_doNextAction; setTimeout close_then_tick 500;
        postMessage; postMessage; postMessage; entered_doNextAction; PROBE_FN_REQUEST_END].
Proof.
  intros w ticks.
  assert (Ht : is_tick Demo.constants Demo.tick = true) by (vm_compute; reflexivity).
  assert (Hi : idle (manager w)) by (repeat split).
  split; [exact Ht|]. split; [exact Hi|].
  exact (an_idle_probe_ends_the_crawl Demo.browser Demo.options Demo.constants
           Demo.tick w eq_refl Ht Hi eq_refl eq_refl).
Defined.

Lemma a_registered_listener_witness :
  ("click" ∉ ["DOMContentLoaded"; "readystatechange"])
  /\ ("click" ∈ _getEventsForElement Demo.constants (node 1)
                  (hook_Node_addEventListener (node 1) "click" (initial Demo.link_page))).
Proof.
  assert (H : "click" ∉ ["DOMContentLoaded"; "readystatechange"]).
  { apply (proj1 (bool_decide_eq_false _)). reflexivity. }
  split; [exact H|].
  exact (a_registered_listener_is_among_the_events Demo.constants (node 1) "click"
           (initial Demo.link_page) H).
Defined.

Lemma a_skipped_xhr_witness :
  let options := excluding ["x/a"] in
  let w := run Demo.browser options Demo.constants [xhr_send 7 None] opened_excluded in
  let inputs := [xhr_open 7 "GET" "http://x/b"; xhr_send 7 None] in
  XHR.__skipped (xhr_at w 7) = true
  /\ XHR.__skipped (xhr_at (run Demo.browser options Demo.constants inputs w) 7) = true
  /\ emits_only (is_not_send_of 7) w (run Demo.browser options Demo.constants inputs w).
Proof.
  intros options w inputs.
  assert (H : XHR.__skipped (xhr_at w 7) = true) by (vm_compute; reflexivity).
  split; [exact H|].
  exact (a_skipped_xhr_is_never_sent Demo.browser options Demo.constants 7 inputs w H).
Defined.

Lemma an_excluded_xhr_witness :
  let options := excluding ["x/a"] in
  let r := {| Request.type := "xhr"; Request.method := "GET"; Request.url := "http://x/a";
              Request.data := None; Request.triggerer := None |} in
  let u := {| URL.scheme := "http"; URL.body := "//x/a"; URL.query := None;
              URL.fragment := None |} in
  XHR.__request (xhr_at opened_excluded 7) = Some r
  /\ RegExp_match Demo.browser "x/a" EmptyString (URL.href u) = true
  /\ emits_only is_report opened_excluded (hook_XHR_send Demo.browser options 7 None opened_excluded)
  /\ XHR.__skipped (xhr_at (hook_XHR_send Demo.browser options 7 None opened_excluded) 7) = true.
Proof.
  intros options r u.
  assert (Hr : XHR.__request (xhr_at opened_excluded 7) = Some r) by (vm_compute; reflexivity).
  assert (Hu : _getAbsoluteUrl Demo.browser (page opened_excluded) (Request.url r) false
               = JS.Ok u) by (vm_compute; reflexivity).
  assert (Hin : "x/a" ∈ excludedUrls options) by (apply elem_of_cons; left; reflexivity).
  assert (Hm : RegExp_match Demo.browser "x/a" EmptyString (URL.href u) = true)
    by (vm_compute; reflexivity).
  split; [exact Hr|]. split; [exact Hm|].
  exact (an_excluded_xhr_is_reported_but_not_sent Demo.browser options 7 None opened_excluded
           r u "x/a" Hr Hu Hin Hm).
Defined.

Lemma setVal_touches_witness :
  let w := initial Demo.post_form_page in
  JS.toLowerCase (Element.tagName (element_at (page w) (node 2))) <> "select"
  /\ (JS.toLowerCase (Element.type (element_at (page w) (node 2))) ∉ ["radio"; "checkbox"])
  /\ node 1 <> node 2
  /\ element_at (page (_setVal Demo.browser Demo.options Demo.constants (node 2) w)) (node 1)
     = element_at (page w) (node 1)
  /\ effects (_setVal Demo.browser Demo.options Demo.constants (node 2) w) = effects w
  /\ triggered (_setVal Demo.browser Demo.options Demo.constants (node 2) w) = triggered w.
Proof.
  intros w.
  assert (H : node 1 <> node 2) by discriminate.
  assert (Ht : JS.toLowerCase (Element.type (element_at (page w) (node 2)))
               ∉ ["radio"; "checkbox"]).
  { apply (proj1 (bool_decide_eq_false _)). reflexivity. }
  assert (Hs : JS.toLowerCase (Element.tagName (element_at (page w) (node 2))) <> "select")
    by discriminate.
  split; [exact Hs|]. split; [exact Ht|]. split; [exact H|].
  exact (setVal_touches_its_element_only Demo.browser Demo.options Demo.constants
           (node 2) (node 1) w Hs Ht H).
Defined.

Lemma setv_takes_the_last_witness :
  inputNameMatchValue Demo.constants = ([("mail", "email")] ++ ("pass", "password") :: [])%list
  /\ RegExp_match Demo.browser "mail" "gi" "pass_mail" = true
  /\ RegExp_match Demo.browser "pass" "gi" "pass_mail" = true
  /\ setv Demo.browser Demo.options Demo.constants "pass_mail"
     = getRandomValue Demo.options "password".
Proof.
  assert (Hm : RegExp_match Demo.browser "mail" "gi" "pass_mail" = true)
    by (vm_compute; reflexivity).
  assert (Hp : RegExp_match Demo.browser "pass" "gi" "pass_mail" = true)
    by (vm_compute; reflexivity).
  split; [reflexivity|]. split; [exact Hm|]. split; [exact Hp|].
  exact (setv_takes_the_last_matching_rule Demo.browser Demo.options Demo.constants
           "pass_mail" "pass" "password" [("mail", "email")] [] eq_refl Hp (List.Forall_nil _)).
Defined.
